(** * File handles and file tables of OS/161 (kern/syscall/file.c)

    A shallow embedding of the open-file handle layer and of the
    per-process descriptor table, together with the properties the
    specification states about them.

    The kernel state the functions of file.c act on is made explicit:
    the kmalloc'ed [openfile] structs, the live locks, the descriptor
    table of the current process ([curproc->files]) and the history of
    calls made to the collaborators (VFS, allocator, lock module).
    Every C function becomes a computation in a small state monad with
    two abnormal outcomes: [Panic] (a failed KASSERT) and [Fault] (a
    dereference of NULL or of freed memory, an out-of-bounds slot). *)

From Stdlib Require Import ZArith String Lia.
From stdpp Require Import gmap strings list fin_maps.

(** ** Pointers and collaborator objects *)

(** Addresses of kmalloc'ed [openfile] structs; a nullable pointer is an
    [option addr], [None] being NULL. *)
Definition addr := positive.
Definition vnode := positive.
Definition lockid := positive.

(** Modelled from the spec: the declaration of [struct openfile] lives in
    filetable.h, which is not part of these sources.  The fields are the
    ones file.c reads and writes: [file->vn], [file->lock],
    [file->offset], [file->mode], [file->refs].  The type of the
    reference count is declared there too: the field holds an integer,
    and the least and the greatest value of its type are the parameters
    [REFS_MIN] and [REFS_MAX] of the constants below. *)
Record openfile := mk_openfile {
  vn : vnode;
  lock : option lockid;
  offset : Z;
  mode : Z;
  refs : Z
}.

Definition set_vn (v : vnode) (f : openfile) : openfile :=
  mk_openfile v (lock f) (offset f) (mode f) (refs f).
Definition set_lock (l : option lockid) (f : openfile) : openfile :=
  mk_openfile (vn f) l (offset f) (mode f) (refs f).
Definition set_offset (o : Z) (f : openfile) : openfile :=
  mk_openfile (vn f) (lock f) o (mode f) (refs f).
Definition set_mode (m : Z) (f : openfile) : openfile :=
  mk_openfile (vn f) (lock f) (offset f) m (refs f).
Definition set_refs (r : Z) (f : openfile) : openfile :=
  mk_openfile (vn f) (lock f) (offset f) (mode f) r.

(** [struct filetable]: the array [handles[OPEN_MAX]] of nullable
    [openfile] pointers. *)
Abbreviation filetable := (list (option addr)).

(** Calls to the collaborators, in the order they were made. *)
Inductive event :=
| EvVfsOpen (path : string) (flags md : Z) (result : Z) (v : vnode)
| EvVfsClose (v : vnode) (status : Z)
| EvKmalloc (p : option addr)
| EvKfree (p : addr)
| EvKmallocTable (ok : bool)
| EvKfreeTable
| EvLockCreate (l : option lockid)
| EvLockDestroy (l : lockid).

(** ** Constants of the kernel headers

    kern/limits.h, kern/errno.h and kern/fcntl.h are not part of these
    sources, so their constants are parameters.  What file.c relies on
    is recorded with them: error codes are non-zero (a result is tested
    with [if (result)]), and the three access modes are left unchanged by
    the mask [O_ACCMODE].

    [REFS_MIN] and [REFS_MAX] bound the integer type of the field
    [refs] of an openfile (INT_MIN and INT_MAX for an [int], 0 and
    UINT_MAX for an [unsigned]): the type holds 0 and 1 at least. *)
Class kern_consts := {
  OPEN_MAX : nat;
  ENOMEM : Z;
  EMFILE : Z;
  EBADF : Z;
  O_RDONLY : Z;
  O_WRONLY : Z;
  O_RDWR : Z;
  O_ACCMODE : Z;
  ENOMEM_nonzero : ENOMEM ≠ 0%Z;
  EMFILE_nonzero : EMFILE ≠ 0%Z;
  EBADF_nonzero : EBADF ≠ 0%Z;
  O_RDONLY_masked : Z.land O_RDONLY O_ACCMODE = O_RDONLY;
  O_WRONLY_masked : Z.land O_WRONLY O_ACCMODE = O_WRONLY;
  O_RDWR_masked : Z.land O_RDWR O_ACCMODE = O_RDWR;
  REFS_MIN : Z;
  REFS_MAX : Z;
  REFS_MIN_nonpos : (REFS_MIN ≤ 0)%Z;
  REFS_MAX_pos : (1 ≤ REFS_MAX)%Z
}.

(** ** The reference count as a machine integer

    A value stored in the field [refs] is reduced to the range of its
    type, [REFS_MIN] to [REFS_MAX], as the machine does: past the
    greatest value the count comes round to the least one. *)
Definition wrap_refs `{KC : kern_consts} (z : Z) : Z :=
  ((z - REFS_MIN) mod (REFS_MAX - REFS_MIN + 1) + REFS_MIN)%Z.

(** [refs++]. *)
Definition refs_incr `{KC : kern_consts} (z : Z) : Z := wrap_refs (z + 1).

(** ** The collaborators

    The VFS layer, kmalloc and the lock module are outside file.c.  Their
    answers are functions of the history of calls: [vfs_open_fn] gives
    the result code and the vnode of an open, [vfs_close_fn] the outcome
    the VFS reports for a close, [kmalloc_ok] and [lock_create_ok] tell
    whether the next allocation succeeds.  Fresh memory holds arbitrary
    contents: [openfile_junk] and [table_junk]. *)
Record world := {
  vfs_open_fn : list event → string → Z → Z → Z * vnode;
  vfs_close_fn : list event → vnode → Z;
  kmalloc_ok : list event → bool;
  lock_create_ok : list event → bool;
  openfile_junk : openfile;
  table_junk : nat → option addr
}.

(** ** Kernel state *)
Record kstate := mk_kstate {
  heap : gmap addr openfile;
  locks : gset lockid;
  files : option filetable;
  trace : list event
}.

Definition set_heap (h : gmap addr openfile) (s : kstate) : kstate :=
  mk_kstate h (locks s) (files s) (trace s).
Definition set_locks (l : gset lockid) (s : kstate) : kstate :=
  mk_kstate (heap s) l (files s) (trace s).
Definition set_files (t : option filetable) (s : kstate) : kstate :=
  mk_kstate (heap s) (locks s) t (trace s).
Definition log (e : event) (s : kstate) : kstate :=
  mk_kstate (heap s) (locks s) (files s) (trace s ++ [e]).

(** ** The monad of kernel computations *)
Inductive outcome (A : Type) :=
| Done (a : A) (s : kstate)
| Panic
| Fault.
Arguments Done {A} a s.
Arguments Panic {A}.
Arguments Fault {A}.

Definition K (A : Type) : Type := kstate → outcome A.

Definition ret {A} (a : A) : K A := fun s => Done a s.
Definition bind {A B} (m : K A) (k : A → K B) : K B :=
  fun s => match m s with
           | Done a s' => k a s'
           | Panic => Panic
           | Fault => Fault
           end.
Definition panic {A} : K A := fun _ => Panic.
Definition fault {A} : K A := fun _ => Fault.

Notation "'let!' x ':=' m 'in' k" := (bind m (fun x => k))
  (at level 10, x name, m at level 100, k at level 200).
Notation "'let!' ' p ':=' m 'in' k" := (bind m (fun x => let 'p := x in k))
  (at level 10, p pattern, m at level 100, k at level 200).
Notation "m ';;;' k" := (bind m (fun _ => k))
  (at level 100, k at level 200, right associativity).

(** KASSERT: a false condition is a kernel panic. *)
Definition kassert (b : bool) : K unit := if b then ret tt else panic.

(** The C truth test of a result code, [if (result)]. *)
Definition nonzero (r : Z) : bool := negb (r =? 0)%Z.

Section Model.
Context `{KC : kern_consts} (W : world).

(** *** Memory: openfile structs *)

(** [kmalloc(sizeof(openfile))]: NULL, or a block that is not in use,
    holding arbitrary contents. *)
Definition kmalloc : K (option addr) := fun s =>
  if kmalloc_ok W (trace s) then
    let a := fresh (dom (heap s)) in
    Done (Some a) (log (EvKmalloc (Some a)) (set_heap (<[a := openfile_junk W]> (heap s)) s))
  else Done None (log (EvKmalloc None) s).

(** [kfree(file)]: the block must be allocated. *)
Definition kfree (a : addr) : K unit := fun s =>
  match heap s !! a with
  | Some _ => Done tt (log (EvKfree a) (set_heap (delete a (heap s)) s))
  | None => Fault
  end.

(** Reading the struct behind [file->...]. *)
Definition load (a : addr) : K openfile := fun s =>
  match heap s !! a with
  | Some f => Done f s
  | None => Fault
  end.

(** Writing a field of the struct behind [file->...]. *)
Definition update (a : addr) (g : openfile → openfile) : K unit := fun s =>
  match heap s !! a with
  | Some f => Done tt (set_heap (<[a := g f]> (heap s)) s)
  | None => Fault
  end.

(** *** Locks

    The model is sequential: acquiring and releasing only require the
    lock to exist. *)
Definition lock_create : K (option lockid) := fun s =>
  if lock_create_ok W (trace s) then
    let l := fresh (locks s) in
    Done (Some l) (log (EvLockCreate (Some l)) (set_locks ({[l]} ∪ locks s) s))
  else Done None (log (EvLockCreate None) s).

Definition lock_live (l : option lockid) : K lockid := fun s =>
  match l with
  | Some i => if decide (i ∈ locks s) then Done i s else Fault
  | None => Fault
  end.

Definition lock_acquire (l : option lockid) : K unit := lock_live l ;;; ret tt.
Definition lock_release (l : option lockid) : K unit := lock_live l ;;; ret tt.
Definition lock_destroy (l : option lockid) : K unit :=
  let! i := lock_live l in
  fun s => Done tt (log (EvLockDestroy i) (set_locks (locks s ∖ {[i]}) s)).

(** *** VFS *)
Definition vfs_open (filename : string) (flags md : Z) : K (Z * vnode) := fun s =>
  let '(result, v) := vfs_open_fn W (trace s) filename flags md in
  Done (result, v) (log (EvVfsOpen filename flags md result v) s).

(** The outcome the VFS reports for the close is the value of this
    computation; file.c calls [vfs_close] as a statement. *)
Definition vfs_close (v : vnode) : K Z := fun s =>
  let status := vfs_close_fn W (trace s) v in
  Done status (log (EvVfsClose v status) s).

(** *** The table of the current process *)

(** [curproc->files->handles[i]] read. *)
Definition read_slot (i : nat) : K (option addr) := fun s =>
  match files s with
  | Some ft => match ft !! i with
               | Some h => Done h s
               | None => Fault
               end
  | None => Fault
  end.

(** [curproc->files->handles[i] = h]. *)
Definition write_slot (i : nat) (h : option addr) : K unit := fun s =>
  match files s with
  | Some ft => if decide (i < length ft) then Done tt (set_files (Some (<[i := h]> ft)) s)
               else Fault
  | None => Fault
  end.

(** [kmalloc(sizeof(struct filetable))]. *)
Definition kmalloc_table : K (option filetable) := fun s =>
  if kmalloc_ok W (trace s) then
    Done (Some (table_junk W <$> seq 0 OPEN_MAX)) (log (EvKmallocTable true) s)
  else Done None (log (EvKmallocTable false) s).

(** *** filetable_placefile *)
Fixpoint placefile_loop (n i : nat) (file : addr) : K (Z * option Z) :=
  match n with
  | O => ret (EMFILE, None)
  | S n' =>
      let! h := read_slot i in
      match h with
      | None => write_slot i (Some file) ;;; ret (0%Z, Some (Z.of_nat i))
      | Some _ => placefile_loop n' (S i) file
      end
  end.

(** Returns the result code and the value stored in [*fd], if any. *)
Definition filetable_placefile (file : addr) : K (Z * option Z) :=
  placefile_loop OPEN_MAX 0 file.

(** *** file_open *)

(** Returns the result code and the value stored in [*retfd], if any. *)
Definition file_open (filename : string) (flags md : Z) : K (Z * option Z) :=
  let! '(result, v) := vfs_open filename flags md in
  if nonzero result then ret (result, None) else
  let! file := kmalloc in
  match file with
  | None => vfs_close v ;;; ret (ENOMEM, None)
  | Some file =>
      let! l := lock_create in
      update file (set_lock l) ;;;
      match l with
      | None => vfs_close v ;;; kfree file ;;; ret (ENOMEM, None)
      | Some _ =>
          update file (set_vn v) ;;;
          update file (set_offset 0) ;;;
          update file (set_mode (Z.land flags O_ACCMODE)) ;;;
          update file (set_refs 1) ;;;
          let! f := load file in
          kassert ((mode f =? O_RDONLY)%Z || (mode f =? O_WRONLY)%Z || (mode f =? O_RDWR)%Z) ;;;
          let! '(result, retfd) := filetable_placefile file in
          if nonzero result then
            let! f := load file in
            lock_destroy (lock f) ;;;
            kfree file ;;;
            vfs_close v ;;;
            ret (result, None)
          else ret (0%Z, retfd)
      end
  end.

(** *** file_doclose *)
Definition file_doclose (file : addr) : K Z :=
  let! f := load file in
  lock_acquire (lock f) ;;;
  if (refs f =? 1)%Z then
    vfs_close (vn f) ;;;
    lock_release (lock f) ;;;
    lock_destroy (lock f) ;;;
    kfree file ;;;
    ret 0%Z
  else
    kassert (1 <? refs f)%Z ;;;
    update file (set_refs (refs f - 1)) ;;;
    lock_release (lock f) ;;;
    ret 0%Z.

(** *** filetable_findfile *)

(** Returns the result code and the value stored in [*file], if any. *)
Definition filetable_findfile (fd : Z) : K (Z * option addr) :=
  if (fd <? 0)%Z || (Z.of_nat OPEN_MAX <=? fd)%Z then ret (EBADF, None) else
  let! h := read_slot (Z.to_nat fd) in
  match h with
  | None => ret (EBADF, None)
  | Some a => ret (0%Z, Some a)
  end.

(** *** file_close

    [file_close_with release] is the body of file_close with the call to
    the release routine left open; file_close itself calls
    file_doclose. *)
Definition file_close_with (release : addr → K Z) (fd : Z) : K Z :=
  let! '(result, file) := filetable_findfile fd in
  if nonzero result then ret result else
  match file with
  | None => fault
  | Some file =>
      let! result := release file in
      if nonzero result then
        (* leave file open for possible retry *)
        ret result
      else
        write_slot (Z.to_nat fd) None ;;;
        ret 0%Z
  end.

Definition file_close (fd : Z) : K Z := file_close_with file_doclose fd.

(** *** filetable_init *)

(** The NULL-out loop, [for (fd = 0; fd < OPEN_MAX; fd++)]. *)
Fixpoint init_loop (n fd : nat) : K unit :=
  match n with
  | O => ret tt
  | S n' => write_slot fd None ;;; init_loop n' (S fd)
  end.

(** A C string is represented by its bytes before the terminating NUL,
    so [strlen] is [String.length]; [sizeof(path)] is 32.  The copy of
    each name into the buffer [path] hands the same bytes to file_open. *)
Definition filetable_init (inpath outpath errpath : string) : K Z :=
  kassert (String.length inpath <? 32) ;;;
  kassert (String.length outpath <? 32) ;;;
  kassert (String.length errpath <? 32) ;;;
  let! ft := (fun s => Done (files s) s) in
  kassert (bool_decide (ft = None)) ;;;
  let! ft := kmalloc_table in
  (fun s => Done tt (set_files ft s)) ;;;
  match ft with
  | None => ret ENOMEM
  | Some _ =>
      init_loop OPEN_MAX 0 ;;;
      let! '(result, _) := file_open inpath O_RDONLY 0 in
      if nonzero result then ret result else
      let! '(result, _) := file_open outpath O_WRONLY 0 in
      if nonzero result then ret result else
      let! '(result, _) := file_open errpath O_WRONLY 0 in
      if nonzero result then ret result else
      ret 0%Z
  end.

(** *** filetable_copy *)

(** The loop copying the entries; [c] is the table behind [*copy]. *)
Fixpoint copy_loop (n fd : nat) (c : filetable) : K filetable :=
  match n with
  | O => ret c
  | S n' =>
      let! h := read_slot fd in
      match h with
      | Some a =>
          let! f := load a in
          lock_acquire (lock f) ;;;
          let! f := load a in
          update a (set_refs (refs_incr (refs f))) ;;;
          let! f := load a in
          lock_release (lock f) ;;;
          let! h := read_slot fd in
          copy_loop n' (S fd) (<[fd := h]> c)
      | None => copy_loop n' (S fd) (<[fd := None]> c)
      end
  end.

(** Returns the result code and the table stored in [*copy] (NULL is
    [None]). *)
Definition filetable_copy : K (Z * option filetable) :=
  let! ft := (fun s => Done (files s) s) in
  match ft with
  | None => ret (0%Z, None)
  | Some _ =>
      let! c := kmalloc_table in
      match c with
      | None => ret (ENOMEM, None)
      | Some c => let! c := copy_loop OPEN_MAX 0 c in ret (0%Z, Some c)
      end
  end.

(** *** filetable_dup2file *)

(** The end of filetable_dup2file: up the refcount, set the entry. *)
Definition dup2_install (file : addr) (newfd : Z) : K Z :=
  let! f := load file in
  lock_acquire (lock f) ;;;
  let! f := load file in
  update file (set_refs (refs_incr (refs f))) ;;;
  let! f := load file in
  lock_release (lock f) ;;;
  write_slot (Z.to_nat newfd) (Some file) ;;;
  ret 0%Z.

Definition filetable_dup2file (oldfd newfd : Z) : K Z :=
  if (oldfd <? 0)%Z || (Z.of_nat OPEN_MAX <=? oldfd)%Z
     || (newfd <? 0)%Z || (Z.of_nat OPEN_MAX <=? newfd)%Z
  then ret EBADF else
  let! file := read_slot (Z.to_nat oldfd) in
  match file with
  | None => ret EBADF
  | Some file =>
      (* dup2'ing an fd to itself automatically succeeds *)
      if (oldfd =? newfd)%Z then ret 0%Z else
      let! h := read_slot (Z.to_nat newfd) in
      match h with
      | Some _ =>
          let! result := file_close newfd in
          if nonzero result then ret result else dup2_install file newfd
      | None => dup2_install file newfd
      end
  end.

(** *** filetable_destroy *)

(** The loop closing the files of the table behind [ft]. *)
Fixpoint destroy_loop (n fd : nat) (t : filetable) : K unit :=
  match n with
  | O => ret tt
  | S n' =>
      match t !! fd with
      | None => fault
      | Some None => destroy_loop n' (S fd) t
      | Some (Some a) =>
          let! result := file_doclose a in
          kassert (result =? 0)%Z ;;;
          destroy_loop n' (S fd) t
      end
  end.

(** The argument is the table behind the pointer [ft] ([None] for
    NULL).  The code frees that table and leaves every pointer to it,
    [curproc->files] included, as it is. *)
Definition filetable_destroy (ft : option filetable) : K unit :=
  kassert (bool_decide (ft ≠ None)) ;;;
  match ft with
  | None => fault
  | Some t => destroy_loop OPEN_MAX 0 t ;;; fun s => Done tt (log EvKfreeTable s)
  end.

End Model.

(** ** Sample instances

    A choice of the constants (the values of the stock OS/161 headers,
    the count being an [int] of 32 bits), and a family of collaborators
    with fixed answers, used to run the model on concrete inputs. *)
#[export] Instance os161_consts : kern_consts.
Proof.
  refine {| OPEN_MAX := 128; ENOMEM := 3; EMFILE := 28; EBADF := 30;
            O_RDONLY := 0; O_WRONLY := 1; O_RDWR := 2; O_ACCMODE := 3;
            REFS_MIN := -2147483648; REFS_MAX := 2147483647 |};
    abstract done.
Defined.

(** A table of four slots, handy for exhausting the table. *)
Definition tiny_consts : kern_consts.
Proof.
  refine {| OPEN_MAX := 4; ENOMEM := 3; EMFILE := 28; EBADF := 30;
            O_RDONLY := 0; O_WRONLY := 1; O_RDWR := 2; O_ACCMODE := 3;
            REFS_MIN := -2147483648; REFS_MAX := 2147483647 |};
    abstract done.
Defined.

(** The VFS answers every open with [open_result] and a vnode numbered
    after the length of the history, and every close with
    [close_status]; allocations succeed as [mem_ok] and [lock_ok] say. *)
Definition fixed_world (open_result close_status : Z) (mem_ok lock_ok : bool) : world :=
  {| vfs_open_fn := fun tr _ _ _ => (open_result, Pos.of_succ_nat (length tr));
     vfs_close_fn := fun _ _ => close_status;
     kmalloc_ok := fun _ => mem_ok;
     lock_create_ok := fun _ => lock_ok;
     openfile_junk := mk_openfile 1%positive None 0 0 0;
     table_junk := fun i => Some (Pos.of_succ_nat i) |}.

Definition calm_world : world := fixed_world 0 0 true true.

(** The state of a process before filetable_init. *)
Definition boot_state : kstate := mk_kstate ∅ ∅ None [].

(** The state reached by a computation, [boot_state] if it does not
    return. *)
Definition state_after {A} (m : K A) (s : kstate) : kstate :=
  match m s with
  | Done _ s' => s'
  | _ => boot_state
  end.

Definition con : string := "con:".

(** A path the picky VFS below refuses, and a path of 32 bytes. *)
Definition bad : string := "bad:".
Definition long_path : string := "0123456789abcdef0123456789abcdef".

(** A VFS in which only the path [bad] cannot be opened. *)
Definition picky_world (bad : string) : world :=
  {| vfs_open_fn := fun tr path _ _ =>
       (if String.eqb path bad then 19%Z else 0%Z, Pos.of_succ_nat (length tr));
     vfs_close_fn := fun _ _ => 0%Z;
     kmalloc_ok := fun _ => true;
     lock_create_ok := fun _ => true;
     openfile_junk := mk_openfile 1%positive None 0 0 0;
     table_junk := fun i => Some (Pos.of_succ_nat i) |}.

(** A VFS whose close reports the error 32. *)
Definition flaky_world : world := fixed_world 0 32 true true.

(** After filetable_init: descriptors 0, 1, 2 on the handles at 1, 2, 3. *)
Definition st_init : kstate :=
  state_after (filetable_init calm_world con con con) boot_state.

(** Then dup2(0, 5): descriptor 5 shares the handle at 1, with count 2. *)
Definition st_dup : kstate := state_after (filetable_dup2file calm_world 0 5) st_init.

(** Or dup2(0, 1): descriptors 0 and 1 share the handle at 1. *)
Definition st_alias : kstate := state_after (filetable_dup2file calm_world 0 1) st_init.

(** Or close(1): slots 0 and 2 occupied, slot 1 empty. *)
Definition st_hole : kstate := state_after (file_close calm_world 1) st_init.

(** A table of four slots, all occupied. *)
Definition st_full : kstate :=
  state_after (@file_open tiny_consts calm_world con 2 0)
    (state_after (@filetable_init tiny_consts calm_world con con con) boot_state).

(** A release routine that always fails with the error 32. *)
Definition failing_release (a : addr) : K Z := ret 32%Z.

(** ** Notions used in the statements *)

#[export] Instance event_eq_dec : EqDecision event.
Proof. solve_decision. Defined.

(** Every allocated handle has a reference count of at least 1. *)
Definition refcount_inv (s : kstate) : Prop :=
  map_Forall (λ _ f, (1 ≤ refs f)%Z) (heap s).

#[export] Instance refcount_inv_dec s : Decision (refcount_inv s).
Proof. unfold refcount_inv. apply _. Defined.

(** Number of times the handle at [a] was freed in a history. *)
Definition kfree_count (a : addr) (tr : list event) : nat :=
  length (filter (λ e, e = EvKfree a) tr).

(** A descriptor inside [0, OPEN_MAX). *)
Definition in_range `{KC : kern_consts} (fd : Z) : Prop := (0 ≤ fd < Z.of_nat OPEN_MAX)%Z.

(** The handle at [a] is allocated and its lock exists. *)
Definition handle_ok (s : kstate) (a : addr) : Prop :=
  ∃ f l, heap s !! a = Some f ∧ lock f = Some l ∧ l ∈ locks s.

(** The same as a test, and for every occupied slot of a table. *)
Definition handle_okb (s : kstate) (a : addr) : bool :=
  match heap s !! a with
  | Some f => match lock f with
              | Some l => bool_decide (l ∈ locks s)
              | None => false
              end
  | None => false
  end.

Definition table_okb (s : kstate) (ft : filetable) : bool :=
  forallb (λ h, match h with Some a => handle_okb s a | None => true end) ft.

(** Number of slots of a table that refer to the handle at [a]. *)
Definition alias_count (a : addr) (ft : filetable) : nat :=
  length (filter (λ h, h = Some a) ft).

(** The heap after one more reference was taken on the handle of each
    occupied slot of [l], slot after slot. *)
Definition acquire_slot `{KC : kern_consts} (m : gmap addr openfile) (h : option addr) :
    gmap addr openfile :=
  match h with
  | Some a => match m !! a with
              | Some f => <[a := set_refs (refs_incr (refs f)) f]> m
              | None => m
              end
  | None => m
  end.

Definition acquire_slots `{KC : kern_consts} (l : filetable) (m : gmap addr openfile) :
    gmap addr openfile :=
  foldl acquire_slot m l.

(** A value of the type of the count field. *)
Definition refs_fit `{KC : kern_consts} (z : Z) : Prop := (REFS_MIN ≤ z ≤ REFS_MAX)%Z.

(** No count overflows when every slot of [ft] takes one more reference
    on its handle: each count is a value of its type, and still one
    after as many increments as [ft] has slots referring to the handle. *)
Definition counts_fit `{KC : kern_consts} (s : kstate) (ft : filetable) : Prop :=
  map_Forall (λ a f, (REFS_MIN ≤ refs f)%Z
                     ∧ (refs f + Z.of_nat (alias_count a ft) ≤ REFS_MAX)%Z) (heap s).

#[export] Instance counts_fit_dec `{KC : kern_consts} s ft : Decision (counts_fit s ft).
Proof. unfold counts_fit. apply _. Defined.

(** The handle behind descriptor [fd], if there is one, can take one
    more reference: its count is below the greatest value of its type. *)
Definition has_room `{KC : kern_consts} (s : kstate) (fd : Z) : Prop :=
  match files s with
  | Some ft =>
      match ft !! Z.to_nat fd with
      | Some (Some file) =>
          match heap s !! file with
          | Some f => (refs f < REFS_MAX)%Z
          | None => True
          end
      | _ => True
      end
  | None => True
  end.

#[export] Instance has_room_dec `{KC : kern_consts} s fd : Decision (has_room s fd).
Proof.
  unfold has_room. destruct (files s) as [ft|]; [|apply _].
  destruct (ft !! Z.to_nat fd) as [[file|]|]; [|apply _..].
  destruct (heap s !! file); apply _.
Defined.

(** The access mode is one of the three file_open asserts. *)
Definition valid_mode `{KC : kern_consts} (m : Z) : bool :=
  (m =? O_RDONLY)%Z || (m =? O_WRONLY)%Z || (m =? O_RDWR)%Z.

(** The state in which file_open reaches filetable_placefile: the VFS
    answered with the vnode [v], a struct and a lock were allocated and
    the handle initialised. *)
Definition handle_ready `{KC : kern_consts} (s : kstate) (fn : string) (flags md : Z)
    (v : vnode) : kstate :=
  let a := fresh (dom (heap s)) in
  let l := fresh (locks s) in
  mk_kstate (<[a := mk_openfile v (Some l) 0 (Z.land flags O_ACCMODE) 1]> (heap s))
    ({[l]} ∪ locks s) (files s)
    (trace s ++ [EvVfsOpen fn flags md 0 v; EvKmalloc (Some a); EvLockCreate (Some l)]).

(** The state in which filetable_init opens the standard descriptors:
    the table is allocated and every slot is NULL. *)
Definition table_ready `{KC : kern_consts} (s : kstate) : kstate :=
  mk_kstate (heap s) (locks s) (Some (replicate OPEN_MAX None))
    (trace s ++ [EvKmallocTable true]).

(** Number of times the handle at [a] occurs in a run of releases. *)
Definition occurrences (a : addr) (hs : list addr) : nat :=
  length (filter (λ b, b = a) hs).

(** The handles of the occupied slots of a table, in slot order. *)
Definition slot_handles (t : filetable) : list addr := omap id t.

(** Two allocated handles never share a lock. *)
Definition lock_distinct (s : kstate) : Prop :=
  map_Forall (λ a f, map_Forall (λ b g, lock f = lock g → a = b) (heap s)) (heap s).

#[export] Instance lock_distinct_dec s : Decision (lock_distinct s).
Proof. unfold lock_distinct. apply _. Defined.

(** Every handle of the run is allocated, has a live lock and a count
    that covers its occurrences in the run. *)
Definition counts_cover (s : kstate) (hs : list addr) : Prop :=
  ∀ a, a ∈ hs →
    ∃ f l, heap s !! a = Some f ∧ lock f = Some l ∧ l ∈ locks s ∧
           (Z.of_nat (occurrences a hs) ≤ refs f)%Z.

(** The same as a test. *)
Definition counts_coverb (s : kstate) (hs : list addr) : bool :=
  forallb (λ a, match heap s !! a with
                | Some f => match lock f with
                            | Some l => bool_decide (l ∈ locks s)
                                        && (Z.of_nat (occurrences a hs) <=? refs f)%Z
                            | None => false
                            end
                | None => false
                end) hs.

(** What a completed run of releases leaves of a handle [f] found at
    [a]: nothing when the run held all its references, the handle with
    its count lowered otherwise. *)
Definition released (hs : list addr) (a : addr) (f : openfile) : option openfile :=
  if decide (a ∈ hs ∧ refs f = Z.of_nat (occurrences a hs))
  then None
  else Some (set_refs (refs f - Z.of_nat (occurrences a hs)) f).

(** The lock of a handle exists. *)
Definition lock_live_in (s : kstate) (f : openfile) : Prop :=
  match lock f with
  | Some l => l ∈ locks s
  | None => False
  end.

#[export] Instance lock_live_in_dec s f : Decision (lock_live_in s f).
Proof. unfold lock_live_in. destruct (lock f); apply _. Defined.

(** A slot is empty or points to an allocated handle. *)
Definition slot_allocated (s : kstate) (h : option addr) : Prop :=
  match h with
  | Some a => is_Some (heap s !! a)
  | None => True
  end.

#[export] Instance slot_allocated_dec s h : Decision (slot_allocated s h).
Proof. unfold slot_allocated. destruct h; apply _. Defined.

(** A consistent process: its table has [OPEN_MAX] slots, every
    occupied slot points to an allocated handle, and every allocated
    handle has a live lock of its own and a count of 1 or more that
    covers the slots of the table referring to it (other references
    belong to the tables of other processes). *)
Definition table_wf `{KC : kern_consts} (s : kstate) : Prop :=
  match files s with
  | Some ft =>
      length ft = OPEN_MAX
      ∧ Forall (slot_allocated s) ft
      ∧ map_Forall (λ a f, (1 ≤ refs f)%Z ∧ (Z.of_nat (alias_count a ft) ≤ refs f)%Z
                           ∧ lock_live_in s f) (heap s)
      ∧ lock_distinct s
  | None => False
  end.

#[export] Instance table_wf_dec `{KC : kern_consts} s : Decision (table_wf s).
Proof. unfold table_wf. destruct (files s); apply _. Defined.

(** The same on a given table: what [table_wf] asks of the heap and of
    the locks. *)
Definition consistent `{KC : kern_consts} (s : kstate) (ft : filetable) : Prop :=
  length ft = OPEN_MAX
  ∧ (∀ b, Some b ∈ ft → is_Some (heap s !! b))
  ∧ (∀ b g, heap s !! b = Some g →
       (1 ≤ refs g)%Z ∧ (Z.of_nat (alias_count b ft) ≤ refs g)%Z
       ∧ ∃ l, lock g = Some l ∧ l ∈ locks s)
  ∧ lock_distinct s.

(** A consistent heap: every allocated handle has a count of 1 or more
    and a live lock of its own. *)
Definition heap_ok (s : kstate) : Prop :=
  map_Forall (λ _ g, (1 ≤ refs g)%Z ∧ lock_live_in s g) (heap s) ∧ lock_distinct s.

#[export] Instance heap_ok_dec s : Decision (heap_ok s).
Proof. unfold heap_ok. apply _. Defined.

(** A run of releases, as successive closes perform them. *)
Fixpoint release_all `{KC : kern_consts} (W : world) (hs : list addr) : K unit :=
  match hs with
  | [] => ret tt
  | a :: rest => file_doclose W a ;;; release_all W rest
  end.

(** * Properties *)

Section Handle.
Context `{KC : kern_consts} (W : world).

(** ** The count field *)

Lemma wrap_refs_fits z : refs_fit z → wrap_refs z = z.
Proof. unfold refs_fit, wrap_refs. intros H. rewrite Z.mod_small; lia. Qed.

(** Below the greatest value, [refs++] adds 1. *)
Lemma refs_incr_fits z : (REFS_MIN ≤ z + 1 ≤ REFS_MAX)%Z → refs_incr z = (z + 1)%Z.
Proof. intros H. by apply wrap_refs_fits. Qed.

Lemma refs_incr_pos z : (1 ≤ z)%Z → (z < REFS_MAX)%Z → refs_incr z = (z + 1)%Z.
Proof. intros H1 H2. apply refs_incr_fits. pose proof REFS_MIN_nonpos. lia. Qed.

(** At the greatest value it comes round to the least one. *)
Lemma refs_incr_max : refs_incr REFS_MAX = REFS_MIN.
Proof.
  unfold refs_incr, wrap_refs.
  replace (REFS_MAX + 1 - REFS_MIN)%Z with (REFS_MAX - REFS_MIN + 1)%Z by lia.
  rewrite Z_mod_same_full. lia.
Qed.

Lemma has_room_spec s (ft : filetable) fd file f :
  has_room s fd → files s = Some ft → ft !! Z.to_nat fd = Some (Some file) →
  heap s !! file = Some f → (refs f < REFS_MAX)%Z.
Proof. unfold has_room. intros H Hf Hs Hh. by rewrite Hf, Hs, Hh in H. Qed.

(** ** Primitive steps *)

Lemma lock_live_ok s l : l ∈ locks s → lock_live (Some l) s = Done l s.
Proof. intros H. unfold lock_live. by rewrite decide_True. Qed.

Lemma lock_acquire_ok s l : l ∈ locks s → lock_acquire (Some l) s = Done tt s.
Proof. intros H. unfold lock_acquire, bind. by rewrite lock_live_ok. Qed.

Lemma lock_release_ok s l : l ∈ locks s → lock_release (Some l) s = Done tt s.
Proof. intros H. unfold lock_release, bind. by rewrite lock_live_ok. Qed.

Lemma lock_destroy_ok s l :
  l ∈ locks s →
  lock_destroy (Some l) s = Done tt (log (EvLockDestroy l) (set_locks (locks s ∖ {[l]}) s)).
Proof. intros H. unfold lock_destroy, bind. by rewrite lock_live_ok. Qed.

Lemma lock_live_inv o s i s' : lock_live o s = Done i s' → o = Some i ∧ i ∈ locks s ∧ s' = s.
Proof.
  unfold lock_live. destruct o as [j|]; [|done].
  destruct (decide (j ∈ locks s)); [|done]. by intros [= -> ->].
Qed.

Lemma bind_inv {A B} (m : K A) (k : A → K B) s b s' :
  bind m k s = Done b s' → ∃ a s1, m s = Done a s1 ∧ k a s1 = Done b s'.
Proof. unfold bind. destruct (m s) as [a s1| |]; [|done..]. eauto. Qed.

Lemma ret_inv {A} (a b : A) s s' : ret a s = Done b s' → b = a ∧ s' = s.
Proof. by intros [= -> ->]. Qed.

Lemma kassert_inv c s u s' : kassert c s = Done u s' → c = true ∧ s' = s.
Proof. destruct c; [|done]. by intros [= _ ->]. Qed.

Lemma load_ok s a f : heap s !! a = Some f → load a s = Done f s.
Proof. intros H. unfold load. by rewrite H. Qed.

Lemma load_inv s a f s' : load a s = Done f s' → heap s !! a = Some f ∧ s' = s.
Proof. unfold load. destruct (heap s !! a); [|done]. by intros [= -> ->]. Qed.

Lemma update_ok s a f g :
  heap s !! a = Some f → update a g s = Done tt (set_heap (<[a := g f]> (heap s)) s).
Proof. intros H. unfold update. by rewrite H. Qed.

Lemma update_inv s a g u s' :
  update a g s = Done u s' →
  ∃ f, heap s !! a = Some f ∧ s' = set_heap (<[a := g f]> (heap s)) s.
Proof. unfold update. destruct (heap s !! a) as [f|]; [|done]. intros [= _ <-]. eauto. Qed.

Lemma kfree_ok s a f :
  heap s !! a = Some f → kfree a s = Done tt (log (EvKfree a) (set_heap (delete a (heap s)) s)).
Proof. intros H. unfold kfree. by rewrite H. Qed.

Lemma kfree_inv s a u s' :
  kfree a s = Done u s' →
  is_Some (heap s !! a) ∧ s' = log (EvKfree a) (set_heap (delete a (heap s)) s).
Proof. unfold kfree. destruct (heap s !! a) as [f|]; [|done]. intros [= _ <-]. eauto. Qed.

Lemma lock_acquire_inv o s u s' :
  lock_acquire o s = Done u s' → ∃ l, o = Some l ∧ l ∈ locks s ∧ s' = s.
Proof.
  intros (l & s1 & H & [_ ->]%ret_inv)%bind_inv.
  apply lock_live_inv in H as (-> & ? & ->). eauto.
Qed.

Lemma lock_release_inv o s u s' :
  lock_release o s = Done u s' → ∃ l, o = Some l ∧ l ∈ locks s ∧ s' = s.
Proof. apply lock_acquire_inv. Qed.

Lemma lock_destroy_inv o s u s' :
  lock_destroy o s = Done u s' →
  ∃ l, o = Some l ∧ l ∈ locks s ∧ s' = log (EvLockDestroy l) (set_locks (locks s ∖ {[l]}) s).
Proof.
  intros (l & s1 & H & E)%bind_inv.
  apply lock_live_inv in H as (-> & ? & ->). injection E as <-. eauto.
Qed.

Lemma vfs_close_inv v s st s' :
  vfs_close W v s = Done st s' →
  st = vfs_close_fn W (trace s) v ∧ s' = log (EvVfsClose v st) s.
Proof. unfold vfs_close. by intros [= <- <-]. Qed.

Lemma read_slot_ok s (ft : filetable) i h :
  files s = Some ft → ft !! i = Some h → read_slot i s = Done h s.
Proof. intros Hf Hi. unfold read_slot. by rewrite Hf, Hi. Qed.

Lemma write_slot_ok s (ft : filetable) i h :
  files s = Some ft → i < length ft →
  write_slot i h s = Done tt (set_files (Some (<[i := h]> ft)) s).
Proof. intros Hf Hi. unfold write_slot. by rewrite Hf, decide_True. Qed.

Lemma read_slot_inv s i h s' :
  read_slot i s = Done h s' → s' = s ∧ ∃ ft : filetable, files s = Some ft ∧ ft !! i = Some h.
Proof.
  unfold read_slot. destruct (files s) as [ft|]; [|done].
  destruct (ft !! i) as [h'|] eqn:E; [|done]. intros [= -> ->]. eauto.
Qed.

Lemma write_slot_inv s i h u s' :
  write_slot i h s = Done u s' →
  ∃ ft : filetable, files s = Some ft ∧ i < length ft ∧ s' = set_files (Some (<[i := h]> ft)) s.
Proof.
  unfold write_slot. destruct (files s) as [ft|]; [|done].
  destruct (decide (i < length ft)); [|done]. intros [= _ <-]. eauto.
Qed.

(** ** file_doclose *)

(** The last release: the vnode is closed, the lock destroyed, the
    struct freed; the outcome of the VFS close is logged and dropped. *)
Lemma file_doclose_last s a f l :
  heap s !! a = Some f → lock f = Some l → l ∈ locks s → refs f = 1%Z →
  file_doclose W a s =
    Done 0%Z (mk_kstate (delete a (heap s)) (locks s ∖ {[l]}) (files s)
                (trace s ++ [EvVfsClose (vn f) (vfs_close_fn W (trace s) (vn f));
                             EvLockDestroy l; EvKfree a])).
Proof.
  intros Hh Hl Hin Hr.
  unfold file_doclose, bind at 1, load. rewrite Hh, Hl.
  unfold bind at 1. rewrite lock_acquire_ok by done. rewrite Hr. simpl.
  unfold bind at 1, vfs_close.
  unfold bind at 1. rewrite lock_release_ok by done.
  unfold bind at 1. rewrite lock_destroy_ok by done.
  unfold bind, kfree, ret. simpl. rewrite Hh. unfold log, set_heap, set_locks. simpl.
  by rewrite <- !app_assoc.
Qed.

(** Any other release only decrements the count. *)
Lemma file_doclose_shared s a f l :
  heap s !! a = Some f → lock f = Some l → l ∈ locks s → (1 < refs f)%Z →
  file_doclose W a s = Done 0%Z (set_heap (<[a := set_refs (refs f - 1) f]> (heap s)) s).
Proof.
  intros Hh Hl Hin Hr.
  unfold file_doclose, bind at 1, load. rewrite Hh, Hl.
  unfold bind at 1. rewrite lock_acquire_ok by done.
  destruct (refs f =? 1)%Z eqn:E; [lia|].
  unfold bind at 1, kassert. destruct (1 <? refs f)%Z eqn:E'; [|lia]. simpl.
  unfold bind at 1, update. rewrite Hh.
  unfold bind. rewrite lock_release_ok by done. done.
Qed.

(** A count below 1 trips the assertion. *)
Lemma file_doclose_panic s a f l :
  heap s !! a = Some f → lock f = Some l → l ∈ locks s → (refs f < 1)%Z →
  file_doclose W a s = Panic.
Proof.
  intros Hh Hl Hin Hr.
  unfold file_doclose, bind at 1, load. rewrite Hh, Hl.
  unfold bind at 1. rewrite lock_acquire_ok by done.
  destruct (refs f =? 1)%Z eqn:E; [lia|].
  unfold bind at 1, kassert. destruct (1 <? refs f)%Z eqn:E'; [lia|]. done.
Qed.

(** What a returning file_doclose must have done. *)
Lemma file_doclose_inv s a r s' :
  file_doclose W a s = Done r s' →
  ∃ f l, heap s !! a = Some f ∧ lock f = Some l ∧ l ∈ locks s ∧ (1 ≤ refs f)%Z.
Proof.
  intros H. pose proof H as H0. unfold file_doclose, bind at 1, load in H0.
  destruct (heap s !! a) as [f|] eqn:Hh; [|done].
  unfold bind at 1, lock_acquire, bind at 1 in H0.
  destruct (lock_live (lock f) s) as [l s1| |] eqn:Hl; [|done..].
  apply lock_live_inv in Hl as (Hl & Hin & ->).
  exists f, l. split_and!; try done.
  destruct (decide (refs f < 1)%Z) as [Hlt|]; [|lia].
  by rewrite (file_doclose_panic s a f l) in H.
Qed.

Lemma file_doclose_cases s a r s' :
  file_doclose W a s = Done r s' →
  ∃ f l, heap s !! a = Some f ∧ lock f = Some l ∧ l ∈ locks s ∧ r = 0%Z ∧
    ((refs f = 1%Z ∧
      s' = mk_kstate (delete a (heap s)) (locks s ∖ {[l]}) (files s)
             (trace s ++ [EvVfsClose (vn f) (vfs_close_fn W (trace s) (vn f));
                          EvLockDestroy l; EvKfree a]))
     ∨ ((1 < refs f)%Z ∧ s' = set_heap (<[a := set_refs (refs f - 1) f]> (heap s)) s)).
Proof.
  intros H. destruct (file_doclose_inv _ _ _ _ H) as (f & l & Hh & Hl & Hin & Hr).
  exists f, l. destruct (decide (refs f = 1%Z)) as [E|E].
  - rewrite (file_doclose_last s a f l) in H by done.
    injection H as <- <-. split_and!; try done. by left.
  - rewrite (file_doclose_shared s a f l) in H by (done || lia).
    injection H as <- <-. split_and!; try done. right. split; [lia|done].
Qed.

Lemma file_doclose_total s a f l :
  heap s !! a = Some f → lock f = Some l → l ∈ locks s → (1 ≤ refs f)%Z →
  ∃ s', file_doclose W a s = Done 0%Z s'.
Proof.
  intros Hh Hl Hin Hr. destruct (decide (refs f = 1%Z)) as [E|E].
  - eexists. by apply (file_doclose_last s a f l).
  - eexists. apply (file_doclose_shared s a f l); done || lia.
Qed.

(** *** Destruction happens at most once *)

Lemma kfree_count_app a t1 t2 :
  kfree_count a (t1 ++ t2) = kfree_count a t1 + kfree_count a t2.
Proof. unfold kfree_count. by rewrite filter_app, length_app. Qed.

Lemma kfree_count_destroy a b v st l :
  kfree_count b [EvVfsClose v st; EvLockDestroy l; EvKfree a] = if decide (a = b) then 1 else 0.
Proof.
  unfold kfree_count. rewrite !filter_cons, filter_nil.
  rewrite decide_False by done. rewrite decide_False by done.
  destruct (decide (a = b)) as [->|Hne].
  - by rewrite decide_True.
  - rewrite decide_False; [done|]. intros [= ?]. done.
Qed.

(** A handle that is not allocated is not freed by a run of releases
    that completes. *)
Lemma release_all_absent hs : ∀ s s' b,
  heap s !! b = None → release_all W hs s = Done tt s' →
  kfree_count b (trace s') = kfree_count b (trace s).
Proof.
  induction hs as [|c hs IH]; intros s s' b Hb H; simpl in H.
  - by injection H as <-.
  - unfold bind in H. destruct (file_doclose W c s) as [r s1| |] eqn:Hc; [|done..].
    assert (c ≠ b) as Hne.
    { destruct (file_doclose_inv _ _ _ _ Hc) as (f & _ & Hh & _). congruence. }
    destruct (file_doclose_cases _ _ _ _ Hc) as (f & l & Hh & _ & _ & _ & [[_ Hs]|[_ Hs]]).
    + assert (heap s1 !! b = None) as Hb1.
      { rewrite Hs. simpl. by rewrite lookup_delete_ne. }
      rewrite (IH _ _ b Hb1 H), Hs. simpl.
      rewrite kfree_count_app, kfree_count_destroy, decide_False by done. lia.
    + assert (heap s1 !! b = None) as Hb1.
      { rewrite Hs. simpl. by rewrite lookup_insert_ne. }
      rewrite (IH _ _ b Hb1 H), Hs. done.
Qed.

Lemma release_all_once hs : ∀ s s' b,
  release_all W hs s = Done tt s' →
  kfree_count b (trace s') ≤ kfree_count b (trace s) + 1.
Proof.
  induction hs as [|c hs IH]; intros s s' b H; simpl in H.
  - injection H as <-. lia.
  - unfold bind in H. destruct (file_doclose W c s) as [r s1| |] eqn:Hc; [|done..].
    destruct (file_doclose_cases _ _ _ _ Hc) as (f & l & Hh & _ & _ & _ & [[_ Hs]|[_ Hs]]).
    + destruct (decide (c = b)) as [->|Hne].
      * assert (heap s1 !! b = None) as Hb1.
        { rewrite Hs. simpl. by rewrite lookup_delete_eq. }
        rewrite (release_all_absent hs _ _ b Hb1 H), Hs. simpl.
        rewrite kfree_count_app, kfree_count_destroy, decide_True by done. lia.
      * specialize (IH _ _ b H). rewrite Hs in IH. simpl in IH.
        rewrite kfree_count_app, kfree_count_destroy, decide_False in IH by done. lia.
    + specialize (IH _ _ b H). by rewrite Hs in IH.
Qed.

(** *** The invariant is kept *)

Lemma refcount_inv_delete s h a :
  refcount_inv s → heap h = delete a (heap s) → refcount_inv h.
Proof.
  intros Hinv Hh b g Hb. rewrite Hh in Hb.
  apply lookup_delete_Some in Hb as [_ Hb]. by apply (Hinv b).
Qed.

Lemma refcount_inv_insert s h a g :
  refcount_inv s → (1 ≤ refs g)%Z → heap h = <[a := g]> (heap s) → refcount_inv h.
Proof.
  intros Hinv Hg Hh b g' Hb. rewrite Hh in Hb.
  apply lookup_insert_Some in Hb as [[_ <-]|[_ Hb]]; [done|]. by apply (Hinv b).
Qed.

(** C1. Releasing a handle of a state where every handle has a
    reference count of at least 1 returns, and leaves a state with the
    same property.  The handle is destroyed exactly when the release
    finds its count at 1 (about to reach zero): then the vnode is
    closed, the lock destroyed and the struct freed, and otherwise
    nothing is destroyed and the count is decremented.  In any run of
    releases that completes, each handle is freed at most once. *)
Theorem file_doclose_keeps_refcount_invariant (s : kstate) (a : addr) (f : openfile) (l : lockid) :
  refcount_inv s → heap s !! a = Some f → lock f = Some l → l ∈ locks s →
  ∃ s', file_doclose W a s = Done 0%Z s'
    ∧ refcount_inv s'
    ∧ (refs f = 1%Z ↔ heap s' !! a = None)
    ∧ (refs f = 1%Z →
         heap s' = delete a (heap s) ∧ locks s' = locks s ∖ {[l]} ∧ files s' = files s ∧
         trace s' = trace s ++ [EvVfsClose (vn f) (vfs_close_fn W (trace s) (vn f));
                                EvLockDestroy l; EvKfree a])
    ∧ (refs f ≠ 1%Z →
         heap s' = <[a := set_refs (refs f - 1) f]> (heap s) ∧ locks s' = locks s ∧
         files s' = files s ∧ trace s' = trace s)
    ∧ (∀ hs b s2, release_all W hs s = Done tt s2 →
         kfree_count b (trace s2) ≤ kfree_count b (trace s) + 1).
Proof.
  intros Hinv Hh Hl Hin. pose proof (Hinv a f Hh) as Hr. simpl in Hr.
  destruct (decide (refs f = 1%Z)) as [E|E].
  - eexists. split; [by apply (file_doclose_last s a f l)|].
    split_and!; simpl; try done.
    + by eapply refcount_inv_delete.
    + by rewrite lookup_delete_eq.
    + intros hs b s2. apply release_all_once.
  - eexists. split; [apply (file_doclose_shared s a f l); done || lia|].
    split_and!; simpl; try done.
    + eapply (refcount_inv_insert s); [done| |done]. simpl. lia.
    + rewrite lookup_insert_eq. split; [done|discriminate].
    + intros hs b s2. apply release_all_once.
Qed.

(** C2, as the code has it.  A release returns 0 whatever the VFS
    reports for the close: on the last release the outcome of the VFS
    close is logged and dropped and the handle is freed, on any other
    release the count is decremented. *)
Theorem file_doclose_returns_zero (s : kstate) (a : addr) (f : openfile) (l : lockid) :
  heap s !! a = Some f → lock f = Some l → l ∈ locks s → (1 ≤ refs f)%Z →
  ∃ s', file_doclose W a s = Done 0%Z s'
    ∧ (refs f = 1%Z →
         heap s' !! a = None ∧
         trace s' = trace s ++ [EvVfsClose (vn f) (vfs_close_fn W (trace s) (vn f));
                                EvLockDestroy l; EvKfree a])
    ∧ ((1 < refs f)%Z →
         heap s' !! a = Some (set_refs (refs f - 1) f) ∧ trace s' = trace s).
Proof.
  intros Hh Hl Hin Hr. destruct (decide (refs f = 1%Z)) as [E|E].
  - eexists. split; [by apply (file_doclose_last s a f l)|]. simpl.
    split; [intros _; by rewrite lookup_delete_eq | lia].
  - eexists. split; [apply (file_doclose_shared s a f l); done || lia|]. simpl.
    split; [done | intros _; by rewrite lookup_insert_eq].
Qed.

End Handle.

Section Table.
Context `{KC : kern_consts} (W : world).

Lemma range_test_false fd :
  in_range fd → (fd <? 0)%Z || (Z.of_nat OPEN_MAX <=? fd)%Z = false.
Proof. unfold in_range. intros H. apply orb_false_iff. split; lia. Qed.

Lemma range_test_true fd :
  ¬ in_range fd → (fd <? 0)%Z || (Z.of_nat OPEN_MAX <=? fd)%Z = true.
Proof. unfold in_range. intros H. apply orb_true_iff. lia. Qed.

(** ** filetable_findfile *)

Lemma filetable_findfile_range s fd :
  ¬ in_range fd → filetable_findfile fd s = Done (EBADF, None) s.
Proof. intros H. unfold filetable_findfile. by rewrite range_test_true. Qed.

Lemma filetable_findfile_empty s ft fd :
  in_range fd → files s = Some ft → ft !! Z.to_nat fd = Some None →
  filetable_findfile fd s = Done (EBADF, None) s.
Proof.
  intros H Hf Hs. unfold filetable_findfile. rewrite range_test_false by done.
  unfold bind. by rewrite (read_slot_ok s ft _ None).
Qed.

Lemma filetable_findfile_found s ft fd a :
  in_range fd → files s = Some ft → ft !! Z.to_nat fd = Some (Some a) →
  filetable_findfile fd s = Done (0%Z, Some a) s.
Proof.
  intros H Hf Hs. unfold filetable_findfile. rewrite range_test_false by done.
  unfold bind. by rewrite (read_slot_ok s ft _ (Some a)).
Qed.

Lemma filetable_findfile_inv s fd r o s' :
  filetable_findfile fd s = Done (r, o) s' →
  s' = s ∧
  ((r = EBADF ∧ o = None ∧
    (¬ in_range fd ∨ ∃ ft, files s = Some ft ∧ ft !! Z.to_nat fd = Some None))
   ∨ (r = 0%Z ∧ in_range fd ∧
      ∃ a ft, o = Some a ∧ files s = Some ft ∧ ft !! Z.to_nat fd = Some (Some a))).
Proof.
  intros H. destruct (decide (in_range fd)) as [Hr|Hr].
  - unfold filetable_findfile in H. rewrite range_test_false in H by done.
    unfold bind in H. destruct (read_slot (Z.to_nat fd) s) as [h s1| |] eqn:E; [|done..].
    apply read_slot_inv in E as [-> (ft & Hf & Hs)].
    destruct h as [a|]; injection H as <- <- <-; (split; [done|]).
    + right. split_and!; eauto.
    + left. split_and!; eauto.
  - rewrite filetable_findfile_range in H by done. injection H as <- <- <-.
    split; [done|]. left. eauto.
Qed.

(** ** file_close *)

Lemma nonzero_0 : nonzero 0 = false.
Proof. done. Qed.

Lemma nonzero_true r : r ≠ 0%Z → nonzero r = true.
Proof. unfold nonzero. intros H. apply negb_true_iff. lia. Qed.

Lemma nonzero_inv r : nonzero r = true → r ≠ 0%Z.
Proof. unfold nonzero. intros H%negb_true_iff. lia. Qed.

Lemma file_close_with_bad release s fd :
  filetable_findfile fd s = Done (EBADF, None) s →
  file_close_with release fd s = Done EBADF s.
Proof.
  intros H. unfold file_close_with, bind. rewrite H.
  by rewrite nonzero_true by apply EBADF_nonzero.
Qed.

(** The release routine reports a failure: file_close returns it and
    does not touch the table. *)
Lemma file_close_with_failure release s ft fd a r s1 :
  in_range fd → files s = Some ft → ft !! Z.to_nat fd = Some (Some a) →
  release a s = Done r s1 → r ≠ 0%Z →
  file_close_with release fd s = Done r s1.
Proof.
  intros Hr Hf Hs Hrel Hnz. unfold file_close_with, bind.
  rewrite (filetable_findfile_found s ft fd a) by done. rewrite nonzero_0, Hrel.
  by rewrite nonzero_true.
Qed.

(** The release routine succeeds: the slot is emptied. *)
Lemma file_close_with_success release s ft fd a s1 ft1 :
  in_range fd → files s = Some ft → ft !! Z.to_nat fd = Some (Some a) →
  release a s = Done 0%Z s1 → files s1 = Some ft1 → Z.to_nat fd < length ft1 →
  file_close_with release fd s =
    Done 0%Z (set_files (Some (<[Z.to_nat fd := None]> ft1)) s1).
Proof.
  intros Hr Hf Hs Hrel Hf1 Hlen. unfold file_close_with, bind.
  rewrite (filetable_findfile_found s ft fd a) by done. rewrite nonzero_0, Hrel, nonzero_0.
  by rewrite (write_slot_ok s1 ft1).
Qed.

Lemma file_close_last s ft fd a f l :
  in_range fd → files s = Some ft → ft !! Z.to_nat fd = Some (Some a) →
  heap s !! a = Some f → lock f = Some l → l ∈ locks s → refs f = 1%Z →
  file_close W fd s =
    Done 0%Z (mk_kstate (delete a (heap s)) (locks s ∖ {[l]}) (Some (<[Z.to_nat fd := None]> ft))
                (trace s ++ [EvVfsClose (vn f) (vfs_close_fn W (trace s) (vn f));
                             EvLockDestroy l; EvKfree a])).
Proof.
  intros Hr Hf Hs Hh Hl Hin Hone. unfold file_close.
  pose proof (file_doclose_last W s a f l Hh Hl Hin Hone) as Hd.
  rewrite (file_close_with_success _ s ft fd a _ ft Hr Hf Hs Hd Hf); [|by eapply lookup_lt_Some].
  unfold set_files, set_heap. simpl. by rewrite ?Hf.
Qed.

Lemma file_close_shared s ft fd a f l :
  in_range fd → files s = Some ft → ft !! Z.to_nat fd = Some (Some a) →
  heap s !! a = Some f → lock f = Some l → l ∈ locks s → (1 < refs f)%Z →
  file_close W fd s =
    Done 0%Z (mk_kstate (<[a := set_refs (refs f - 1) f]> (heap s)) (locks s)
                (Some (<[Z.to_nat fd := None]> ft)) (trace s)).
Proof.
  intros Hr Hf Hs Hh Hl Hin Hone. unfold file_close.
  pose proof (file_doclose_shared W s a f l Hh Hl Hin Hone) as Hd.
  rewrite (file_close_with_success _ s ft fd a _ ft Hr Hf Hs Hd Hf); [|by eapply lookup_lt_Some].
  unfold set_files, set_heap. simpl. by rewrite ?Hf.
Qed.

(** A returning file_close either failed in the lookup, with EBADF and
    no change, or released the handle of an occupied slot in range. *)
Lemma file_close_inv s fd r s' :
  file_close W fd s = Done r s' →
  (r = EBADF ∧ s' = s ∧
   (¬ in_range fd ∨ ∃ ft, files s = Some ft ∧ ft !! Z.to_nat fd = Some None))
  ∨ (r = 0%Z ∧ in_range fd ∧
     ∃ ft a s1, files s = Some ft ∧ ft !! Z.to_nat fd = Some (Some a) ∧
       file_doclose W a s = Done 0%Z s1 ∧
       s' = set_files (Some (<[Z.to_nat fd := None]> ft)) s1).
Proof.
  intros H. unfold file_close, file_close_with, bind in H.
  destruct (filetable_findfile fd s) as [[r1 o] s1| |] eqn:E; [|done..].
  apply filetable_findfile_inv in E as [-> [(-> & -> & Hc)|(-> & Hr & a & ft & -> & Hf & Hs)]].
  - rewrite nonzero_true in H by apply EBADF_nonzero. injection H as <- <-. by left.
  - rewrite nonzero_0 in H.
    destruct (file_doclose W a s) as [r2 s2| |] eqn:Hd; [|done..].
    destruct (file_doclose_cases W _ _ _ _ Hd) as (f & l & _ & _ & _ & -> & Hcase).
    rewrite nonzero_0 in H.
    assert (files s2 = Some ft) as Hf2 by (destruct Hcase as [[_ ->]|[_ ->]]; done).
    rewrite (write_slot_ok s2 ft) in H by (done || by eapply lookup_lt_Some).
    injection H as <- <-. right. split_and!; try done. by exists ft, a, s2.
Qed.

(** C5. Closing a descriptor that is out of range or whose slot is
    empty fails with EBADF and changes nothing.  Closing an occupied
    slot releases the handle and empties exactly that slot: a handle
    that is shared only has its count decremented and stays allocated,
    the last reference destroys it.  Where the release routine reports
    a failure, file_close returns that failure without touching the
    table, so the slot stays occupied. *)
Theorem file_close_empties_the_slot (s : kstate) (fd : Z) :
  (¬ in_range fd → file_close W fd s = Done EBADF s)
  ∧ (∀ ft, in_range fd → files s = Some ft → ft !! Z.to_nat fd = Some None →
       file_close W fd s = Done EBADF s)
  ∧ (∀ ft a f l,
       in_range fd → files s = Some ft → ft !! Z.to_nat fd = Some (Some a) →
       heap s !! a = Some f → lock f = Some l → l ∈ locks s → (1 ≤ refs f)%Z →
       ∃ s' ft', file_close W fd s = Done 0%Z s'
         ∧ files s' = Some ft' ∧ ft' !! Z.to_nat fd = Some None
         ∧ length ft' = length ft
         ∧ (∀ j, j ≠ Z.to_nat fd → ft' !! j = ft !! j)
         ∧ ((1 < refs f)%Z →
              heap s' = <[a := set_refs (refs f - 1) f]> (heap s) ∧
              locks s' = locks s ∧ trace s' = trace s)
         ∧ (refs f = 1%Z →
              heap s' = delete a (heap s) ∧ locks s' = locks s ∖ {[l]} ∧
              trace s' = trace s ++ [EvVfsClose (vn f) (vfs_close_fn W (trace s) (vn f));
                                     EvLockDestroy l; EvKfree a]))
  ∧ (∀ (release : addr → K Z) ft a r s1,
       in_range fd → files s = Some ft → ft !! Z.to_nat fd = Some (Some a) →
       release a s = Done r s1 → r ≠ 0%Z →
       file_close_with release fd s = Done r s1).
Proof.
  split_and!.
  - intros Hr. apply file_close_with_bad. by apply filetable_findfile_range.
  - intros ft Hr Hf Hs. apply file_close_with_bad. by eapply filetable_findfile_empty.
  - intros ft a f l Hr Hf Hs Hh Hl Hin Hrefs.
    assert (Z.to_nat fd < length ft) as Hlt by (by eapply lookup_lt_Some).
    destruct (decide (refs f = 1%Z)) as [E|E].
    + eexists _, (<[Z.to_nat fd := None]> ft).
      split; [by apply (file_close_last s ft fd a f l)|]. simpl.
      split_and!; try done.
      * by apply list_lookup_insert_eq.
      * by rewrite length_insert.
      * intros j Hj. by apply list_lookup_insert_ne.
      * lia.
    + eexists _, (<[Z.to_nat fd := None]> ft).
      split; [apply (file_close_shared s ft fd a f l); done || lia|]. simpl.
      split_and!; try done.
      * by apply list_lookup_insert_eq.
      * by rewrite length_insert.
      * intros j Hj. by apply list_lookup_insert_ne.
  - intros release ft a r s1 Hr Hf Hs Hrel Hnz. by eapply file_close_with_failure.
Qed.

(** ** filetable_placefile *)

(** The scan stops at the first empty slot at or after [i]. *)
Lemma placefile_loop_found n : ∀ i s (ft : filetable) file k,
  files s = Some ft → ft !! k = Some None → i ≤ k < i + n →
  (∀ j, i ≤ j < k → ft !! j ≠ Some None) →
  placefile_loop n i file s =
    Done (0%Z, Some (Z.of_nat k)) (set_files (Some (<[k := Some file]> ft)) s).
Proof.
  induction n as [|n IH]; intros i s ft file k Hf Hk Hik Hocc; [lia|].
  simpl. unfold bind at 1. destruct (decide (i = k)) as [->|Hne].
  - rewrite (read_slot_ok s ft k None) by done.
    unfold bind. rewrite (write_slot_ok s ft) by (done || by eapply lookup_lt_Some). done.
  - destruct (lookup_lt_is_Some_2 ft i) as [h Hi].
    { apply lookup_lt_Some in Hk. lia. }
    destruct h as [b|]; [|by destruct (Hocc i ltac:(lia))].
    rewrite (read_slot_ok s ft i (Some b)) by done.
    apply IH; try done; [lia|]. intros j Hj. apply Hocc. lia.
Qed.

(** With no empty slot left in the scanned range the scan gives up and
    the state is as it was. *)
Lemma placefile_loop_full n : ∀ i s (ft : filetable) file,
  files s = Some ft → i + n ≤ length ft →
  (∀ j, i ≤ j < i + n → ft !! j ≠ Some None) →
  placefile_loop n i file s = Done (EMFILE, None) s.
Proof.
  induction n as [|n IH]; intros i s ft file Hf Hlen Hocc; [done|].
  simpl. unfold bind at 1.
  destruct (lookup_lt_is_Some_2 ft i) as [h Hi]; [lia|].
  destruct h as [b|]; [|by destruct (Hocc i ltac:(lia))].
  rewrite (read_slot_ok s ft i (Some b)) by done.
  apply (IH _ _ ft); try done; [lia|]. intros j Hj. apply Hocc. lia.
Qed.

Lemma placefile_loop_inv n : ∀ i s file r fd s',
  placefile_loop n i file s = Done (r, fd) s' →
  (r = EMFILE ∧ fd = None ∧ s' = s)
  ∨ (r = 0%Z ∧ ∃ (ft : filetable) k,
       files s = Some ft ∧ ft !! k = Some None ∧ i ≤ k < i + n ∧
       (∀ j, i ≤ j < k → ft !! j ≠ Some None) ∧
       fd = Some (Z.of_nat k) ∧ s' = set_files (Some (<[k := Some file]> ft)) s).
Proof.
  induction n as [|n IH]; intros i s file r fd s' H; simpl in H.
  - injection H as <- <- <-. by left.
  - unfold bind at 1 in H.
    destruct (read_slot i s) as [h s1| |] eqn:E; [|done..].
    apply read_slot_inv in E as [-> (ft & Hf & Hi)]. destruct h as [b|].
    + apply IH in H as [?|(-> & ft' & k & Hf' & Hk & Hik & Hocc & -> & ->)]; [by left|].
      right. split; [done|]. exists ft', k. split_and!; try done; [lia..|].
      intros j Hj. destruct (decide (j = i)) as [->|]; [|apply Hocc; lia].
      assert (ft' = ft) as -> by congruence. congruence.
    + unfold bind in H.
      rewrite (write_slot_ok s ft) in H by (done || by eapply lookup_lt_Some).
      injection H as <- <- <-. right. split; [done|]. exists ft, i.
      split_and!; try done; lia.
Qed.

(** A table with an empty slot has a lowest empty slot. *)
Lemma lowest_empty_slot (ft : filetable) :
  (∃ j, ft !! j = Some None) →
  ∃ k, ft !! k = Some None ∧ ∀ j, j < k → ft !! j ≠ Some None.
Proof.
  induction ft as [|h ft IH]; intros [j Hj]; [by rewrite lookup_nil in Hj|].
  destruct h as [b|].
  - destruct j as [|j]; [done|]. destruct IH as (k & Hk & Hmin); [by exists j|].
    exists (S k). split; [done|]. intros [|i] Hi; [done|]. apply Hmin. lia.
  - exists 0. split; [done|]. lia.
Qed.

(** C6. filetable_placefile puts the handle in the empty slot of lowest
    index and returns that index, leaving the rest of the state alone;
    such a slot exists as soon as one slot is empty.  When no slot is
    empty it returns EMFILE and the state, table included, is
    unchanged. *)
Theorem filetable_placefile_lowest_free (s : kstate) (ft : filetable) (file : addr) :
  files s = Some ft → length ft = OPEN_MAX →
  (∀ k, ft !! k = Some None → (∀ j, j < k → ft !! j ≠ Some None) →
     filetable_placefile file s =
       Done (0%Z, Some (Z.of_nat k)) (set_files (Some (<[k := Some file]> ft)) s)
     ∧ <[k := Some file]> ft !! k = Some (Some file)
     ∧ ∀ j, j ≠ k → <[k := Some file]> ft !! j = ft !! j)
  ∧ ((∃ j, ft !! j = Some None) →
     ∃ k, ft !! k = Some None ∧ ∀ j, j < k → ft !! j ≠ Some None)
  ∧ ((∀ j, ft !! j ≠ Some None) →
     filetable_placefile file s = Done (EMFILE, None) s).
Proof.
  intros Hf Hlen. split_and!.
  - intros k Hk Hmin. pose proof (lookup_lt_Some _ _ _ Hk) as Hlt. split_and!.
    + apply placefile_loop_found; [done|done|lia|]. intros j Hj. apply Hmin. lia.
    + by apply list_lookup_insert_eq.
    + intros j Hj. by apply list_lookup_insert_ne.
  - apply lowest_empty_slot.
  - intros Hocc. apply (placefile_loop_full _ _ _ ft); [done|lia|].
    intros j _. apply Hocc.
Qed.

(** ** filetable_dup2file *)

Lemma dup2_install_ok s (ft : filetable) file newfd f l :
  heap s !! file = Some f → lock f = Some l → l ∈ locks s →
  files s = Some ft → Z.to_nat newfd < length ft →
  dup2_install file newfd s =
    Done 0%Z (mk_kstate (<[file := set_refs (refs_incr (refs f)) f]> (heap s)) (locks s)
                (Some (<[Z.to_nat newfd := Some file]> ft)) (trace s)).
Proof.
  intros Hh Hl Hin Hf Hlt. unfold dup2_install.
  unfold bind at 1. rewrite (load_ok s file f) by done.
  unfold bind at 1. rewrite Hl, lock_acquire_ok by done.
  unfold bind at 1. rewrite (load_ok s file f) by done.
  unfold bind at 1. rewrite (update_ok s file f) by done.
  unfold bind at 1. rewrite (load_ok _ file (set_refs (refs_incr (refs f)) f))
    by (simpl; by rewrite lookup_insert_eq).
  unfold bind at 1. simpl lock. rewrite Hl, lock_release_ok by done.
  unfold bind. by rewrite (write_slot_ok _ ft).
Qed.

Lemma dup2_install_inv s file newfd r s' :
  dup2_install file newfd s = Done r s' →
  ∃ f l (ft : filetable),
    heap s !! file = Some f ∧ lock f = Some l ∧ l ∈ locks s ∧
    files s = Some ft ∧ Z.to_nat newfd < length ft ∧ r = 0%Z ∧
    s' = mk_kstate (<[file := set_refs (refs_incr (refs f)) f]> (heap s)) (locks s)
           (Some (<[Z.to_nat newfd := Some file]> ft)) (trace s).
Proof.
  intros H. pose proof H as H0. unfold dup2_install in H0.
  apply bind_inv in H0 as (f & s1 & [Hh ->]%load_inv & H0).
  apply bind_inv in H0 as (? & s1 & (l & Hl & Hin & ->)%lock_acquire_inv & _).
  exists f, l. destruct (files s) as [ft|] eqn:Hf.
  - destruct (decide (Z.to_nat newfd < length ft)) as [Hlt|Hge].
    + rewrite (dup2_install_ok s ft file newfd f l) in H by done.
      injection H as <- <-. by exists ft.
    + exfalso. revert H. unfold dup2_install.
      unfold bind at 1. rewrite (load_ok s file f) by done.
      unfold bind at 1. rewrite Hl, lock_acquire_ok by done.
      unfold bind at 1. rewrite (load_ok s file f) by done.
      unfold bind at 1. rewrite (update_ok s file f) by done.
      unfold bind at 1. rewrite (load_ok _ file (set_refs (refs_incr (refs f)) f))
        by (simpl; by rewrite lookup_insert_eq).
      unfold bind at 1. simpl lock. rewrite Hl, lock_release_ok by done.
      unfold bind, write_slot. simpl. by rewrite Hf, decide_False.
  - exfalso. revert H. unfold dup2_install.
    unfold bind at 1. rewrite (load_ok s file f) by done.
    unfold bind at 1. rewrite Hl, lock_acquire_ok by done.
    unfold bind at 1. rewrite (load_ok s file f) by done.
    unfold bind at 1. rewrite (update_ok s file f) by done.
    unfold bind at 1. rewrite (load_ok _ file (set_refs (refs_incr (refs f)) f))
      by (simpl; by rewrite lookup_insert_eq).
    unfold bind at 1. simpl lock. rewrite Hl, lock_release_ok by done.
    unfold bind, write_slot. simpl. by rewrite Hf.
Qed.

Lemma dup2_range_test_false a b :
  in_range a → in_range b →
  (a <? 0)%Z || (Z.of_nat OPEN_MAX <=? a)%Z || (b <? 0)%Z || (Z.of_nat OPEN_MAX <=? b)%Z = false.
Proof. unfold in_range. intros Ha Hb. rewrite !orb_false_iff. split_and!; lia. Qed.

Lemma dup2_range_test_true a b :
  ¬ in_range a ∨ ¬ in_range b →
  (a <? 0)%Z || (Z.of_nat OPEN_MAX <=? a)%Z || (b <? 0)%Z || (Z.of_nat OPEN_MAX <=? b)%Z = true.
Proof. unfold in_range. intros H. rewrite !orb_true_iff. lia. Qed.

Lemma filetable_dup2file_range s a b :
  ¬ in_range a ∨ ¬ in_range b → filetable_dup2file W a b s = Done EBADF s.
Proof. intros H. unfold filetable_dup2file. by rewrite dup2_range_test_true. Qed.

Lemma filetable_dup2file_empty s (ft : filetable) a b :
  in_range a → in_range b → files s = Some ft → ft !! Z.to_nat a = Some None →
  filetable_dup2file W a b s = Done EBADF s.
Proof.
  intros Ha Hb Hf Hs. unfold filetable_dup2file. rewrite dup2_range_test_false by done.
  unfold bind. by rewrite (read_slot_ok s ft _ None).
Qed.

Lemma filetable_dup2file_self s (ft : filetable) a file :
  in_range a → files s = Some ft → ft !! Z.to_nat a = Some (Some file) →
  filetable_dup2file W a a s = Done 0%Z s.
Proof.
  intros Ha Hf Hs. unfold filetable_dup2file. rewrite dup2_range_test_false by done.
  unfold bind. rewrite (read_slot_ok s ft _ (Some file)) by done. by rewrite Z.eqb_refl.
Qed.

(** The target slot is empty: the handle is installed at once. *)
Lemma filetable_dup2file_free s (ft : filetable) a b file :
  in_range a → in_range b → a ≠ b → files s = Some ft →
  ft !! Z.to_nat a = Some (Some file) → ft !! Z.to_nat b = Some None →
  filetable_dup2file W a b s = dup2_install file b s.
Proof.
  intros Ha Hb Hab Hf Hs Ht. unfold filetable_dup2file.
  rewrite dup2_range_test_false by done.
  unfold bind at 1. rewrite (read_slot_ok s ft _ (Some file)) by done.
  destruct (a =? b)%Z eqn:E; [lia|].
  unfold bind at 1. by rewrite (read_slot_ok s ft _ None).
Qed.

(** The target slot is occupied: it is closed first. *)
Lemma filetable_dup2file_occupied s (ft : filetable) a b file other s1 :
  in_range a → in_range b → a ≠ b → files s = Some ft →
  ft !! Z.to_nat a = Some (Some file) → ft !! Z.to_nat b = Some (Some other) →
  file_close W b s = Done 0%Z s1 →
  filetable_dup2file W a b s = dup2_install file b s1.
Proof.
  intros Ha Hb Hab Hf Hs Ht Hc. unfold filetable_dup2file.
  rewrite dup2_range_test_false by done.
  unfold bind at 1. rewrite (read_slot_ok s ft _ (Some file)) by done.
  destruct (a =? b)%Z eqn:E; [lia|].
  unfold bind at 1. rewrite (read_slot_ok s ft _ (Some other)) by done.
  unfold bind at 1. by rewrite Hc, nonzero_0.
Qed.

Lemma filetable_dup2file_inv s a b r s' :
  filetable_dup2file W a b s = Done r s' →
  (r = EBADF ∧ s' = s ∧
   (¬ in_range a ∨ ¬ in_range b ∨
    ∃ ft : filetable, files s = Some ft ∧ ft !! Z.to_nat a = Some None))
  ∨ (in_range a ∧ in_range b ∧
     ∃ (ft : filetable) file, files s = Some ft ∧ ft !! Z.to_nat a = Some (Some file) ∧
       ((a = b ∧ r = 0%Z ∧ s' = s)
        ∨ (a ≠ b ∧ ft !! Z.to_nat b = Some None ∧ dup2_install file b s = Done r s')
        ∨ (a ≠ b ∧ ∃ other s1, ft !! Z.to_nat b = Some (Some other) ∧
             file_close W b s = Done 0%Z s1 ∧ dup2_install file b s1 = Done r s'))).
Proof.
  intros H.
  destruct (decide (in_range a)) as [Ha|Ha]; cycle 1.
  { rewrite filetable_dup2file_range in H by auto. injection H as <- <-. left. auto. }
  destruct (decide (in_range b)) as [Hb|Hb]; cycle 1.
  { rewrite filetable_dup2file_range in H by auto. injection H as <- <-. left. auto. }
  pose proof H as H0. unfold filetable_dup2file in H0.
  rewrite dup2_range_test_false in H0 by done.
  apply bind_inv in H0 as (h & s1 & [-> (ft & Hf & Hs)]%read_slot_inv & H0).
  destruct h as [file|]; cycle 1.
  { apply ret_inv in H0 as [-> ->]. left. split_and!; eauto. }
  right. split_and!; try done. exists ft, file. split_and!; try done.
  destruct (decide (a = b)) as [<-|Hab].
  { rewrite Z.eqb_refl in H0. apply ret_inv in H0 as [-> ->]. by left. }
  right. destruct (a =? b)%Z eqn:E; [lia|].
  apply bind_inv in H0 as (h & s1 & [-> (ft' & Hf' & Ht)]%read_slot_inv & H0).
  assert (ft' = ft) as -> by congruence.
  destruct h as [other|]; [right|left; done].
  split; [done|]. exists other.
  apply bind_inv in H0 as (r1 & s1 & Hc & H0).
  pose proof Hc as Hc'.
  apply file_close_inv in Hc' as [(_ & _ & [?|(ft' & Hf'' & Ht')])|(-> & _)]; [done|congruence|].
  rewrite nonzero_0 in H0. eauto.
Qed.

Lemma filetable_dup2file_error s a b r s' :
  filetable_dup2file W a b s = Done r s' → r ≠ 0%Z → r = EBADF ∧ s' = s.
Proof.
  intros H Hnz.
  apply filetable_dup2file_inv in H
    as [(-> & -> & _)|(_ & _ & ft & file & _ & _ & [(_ & -> & _)|[(_ & _ & H)|(_ & o & s1 & _ & _ & H)]])];
    [done|done|..]; by apply dup2_install_inv in H as (_ & _ & _ & _ & _ & _ & _ & _ & -> & _).
Qed.

(** C4, as the code has it.  filetable_dup2file fails with EBADF when
    either descriptor is out of range or the slot of the old one is
    empty.  When it succeeds on two different descriptors, both look up
    to the handle of the old one and no other slot has changed; the
    count of that handle went through [refs++], after the [refs--] of
    the close when the new descriptor already referred to that same
    handle.  So, the count being a value of its type and below the
    greatest one, it is one more than before the call, except when the
    new descriptor already referred to that same handle, where the
    close of the new slot and the new reference cancel out and the count
    is what it was.  A different handle that occupied the new slot with
    a count of 1 is destroyed.  On a table whose handles are allocated,
    with their own live locks and counts covering their slots, the call
    succeeds. *)
Theorem filetable_dup2file_aliases (s : kstate) (a b : Z) :
  (¬ in_range a ∨ ¬ in_range b → filetable_dup2file W a b s = Done EBADF s)
  ∧ (∀ ft : filetable, in_range a → in_range b → files s = Some ft →
       ft !! Z.to_nat a = Some None → filetable_dup2file W a b s = Done EBADF s)
  ∧ (∀ s', a ≠ b → filetable_dup2file W a b s = Done 0%Z s' →
       ∃ (ft : filetable) file f,
         in_range a ∧ in_range b ∧ files s = Some ft ∧
         ft !! Z.to_nat a = Some (Some file) ∧ heap s !! file = Some f ∧
         files s' = Some (<[Z.to_nat b := Some file]> ft) ∧
         filetable_findfile a s' = Done (0%Z, Some file) s' ∧
         filetable_findfile b s' = Done (0%Z, Some file) s' ∧
         heap s' !! file =
           Some (set_refs (refs_incr (if decide (ft !! Z.to_nat b = Some (Some file))
                                      then refs f - 1 else refs f)) f) ∧
         (refs_fit (refs f) →
          (ft !! Z.to_nat b ≠ Some (Some file) → (refs f < REFS_MAX)%Z) →
          heap s' !! file =
            Some (set_refs (if decide (ft !! Z.to_nat b = Some (Some file))
                            then refs f else refs f + 1) f)) ∧
         (∀ other g, ft !! Z.to_nat b = Some (Some other) → heap s !! other = Some g →
            refs g = 1%Z →
            other ≠ file ∧ heap s' !! other = None ∧
            ∃ l', lock g = Some l' ∧ (l' ∉ locks s') ∧
              trace s' = trace s ++ [EvVfsClose (vn g) (vfs_close_fn W (trace s) (vn g));
                                     EvLockDestroy l'; EvKfree other]))
  ∧ (∀ (ft : filetable) file f l,
       a ≠ b → in_range a → in_range b → files s = Some ft →
       ft !! Z.to_nat a = Some (Some file) →
       heap s !! file = Some f → lock f = Some l → l ∈ locks s →
       (ft !! Z.to_nat b = Some None
        ∨ ∃ other g l', ft !! Z.to_nat b = Some (Some other) ∧ heap s !! other = Some g ∧
            lock g = Some l' ∧ l' ∈ locks s ∧ (1 ≤ refs g)%Z ∧
            (other = file → (1 < refs g)%Z) ∧ (other ≠ file → l' ≠ l)) →
       ∃ s', filetable_dup2file W a b s = Done 0%Z s').
Proof.
  split_and!.
  - apply filetable_dup2file_range.
  - intros ft. by apply filetable_dup2file_empty.
  - intros s' Hab H.
    assert (∀ (ft : filetable) file, in_range a → in_range b →
              ft !! Z.to_nat a = Some (Some file) → Z.to_nat b < length ft →
              ∀ s2, files s2 = Some (<[Z.to_nat b := Some file]> ft) →
              filetable_findfile a s2 = Done (0%Z, Some file) s2 ∧
              filetable_findfile b s2 = Done (0%Z, Some file) s2) as Hlook.
    { intros ft file Ha Hb Hs Hlt s2 Hf2. split.
      - apply (filetable_findfile_found s2 _ a file Ha Hf2).
        rewrite list_lookup_insert_ne; [done|]. unfold in_range in *. lia.
      - apply (filetable_findfile_found s2 _ b file Hb Hf2).
        by rewrite list_lookup_insert_eq. }
    apply filetable_dup2file_inv in H
      as [(Heq & _)|(Ha & Hb & ft & file & Hf & Hs &
                     [(? & _)|[(_ & Ht & Hi)|(_ & other & s1 & Ht & Hc & Hi)]])].
    + by destruct EBADF_nonzero.
    + done.
    + apply dup2_install_inv in Hi as (f & l & ft0 & Hh & Hl & Hin & Hf0 & Hlt & _ & ->).
      assert (ft0 = ft) as -> by congruence.
      exists ft, file, f. split_and!; try done.
      * by apply (Hlook ft file).
      * by apply (Hlook ft file).
      * simpl. rewrite lookup_insert_eq, decide_False; [done|]. congruence.
      * intros Hfit Hroom. simpl. rewrite lookup_insert_eq, decide_False by congruence.
        rewrite refs_incr_fits; [done|].
        assert (refs f < REFS_MAX)%Z by (apply Hroom; congruence).
        unfold refs_fit in Hfit. lia.
      * intros o g Ho. congruence.
    + apply file_close_inv in Hc as [(Heq & _)|(_ & _ & ft1 & o1 & s2 & Hf1 & Ht1 & Hd & ->)];
        [by destruct EBADF_nonzero|].
      assert (ft1 = ft) as -> by congruence. assert (o1 = other) as -> by congruence.
      pose proof (lookup_lt_Some _ _ _ Ht) as Hlt.
      apply file_doclose_cases in Hd as (g & l' & Hg & Hl' & Hin' & _ & [[Hone ->]|[Hmany ->]]).
      * apply dup2_install_inv in Hi as (f & l & ft0 & Hh & Hl & Hin & Hf0 & _ & _ & ->).
        simpl in Hh, Hf0, Hin. injection Hf0 as <-.
        apply lookup_delete_Some in Hh as [Hne Hh].
        exists ft, file, f. simpl. rewrite list_insert_insert_eq. split_and!; try done.
        -- by apply (Hlook ft file).
        -- by apply (Hlook ft file).
        -- rewrite lookup_insert_eq, decide_False; [done|]. congruence.
        -- intros Hfit Hroom. rewrite lookup_insert_eq, decide_False by congruence.
           rewrite refs_incr_fits; [done|].
           assert (refs f < REFS_MAX)%Z by (apply Hroom; congruence).
           unfold refs_fit in Hfit. lia.
        -- intros o g' Ho Hg' _. assert (o = other) as -> by congruence.
           assert (g' = g) as -> by congruence. split_and!; [done|..].
           ++ by rewrite lookup_insert_ne, lookup_delete_eq.
           ++ exists l'. split_and!; [done| |done].
              rewrite elem_of_difference, elem_of_singleton. by intros [_ ?].
      * apply dup2_install_inv in Hi as (f1 & l & ft0 & Hh & Hl & Hin & Hf0 & _ & _ & ->).
        simpl in Hh, Hf0, Hin. injection Hf0 as <-.
        apply lookup_insert_Some in Hh as [[-> <-]|[Hne Hh]].
        -- exists ft, file, g. simpl. rewrite list_insert_insert_eq. split_and!; try done.
           ++ by apply (Hlook ft file).
           ++ by apply (Hlook ft file).
           ++ by rewrite lookup_insert_eq, decide_True by done.
           ++ intros Hfit _. rewrite lookup_insert_eq, decide_True by done.
              simpl refs. rewrite refs_incr_fits by (unfold refs_fit in Hfit; lia).
              unfold set_refs. simpl. do 2 f_equal. lia.
           ++ intros o g' Ho Hg' Hone. assert (g' = g) as -> by congruence. lia.
        -- exists ft, file, f1. simpl. rewrite list_insert_insert_eq. split_and!; try done.
           ++ by apply (Hlook ft file).
           ++ by apply (Hlook ft file).
           ++ rewrite lookup_insert_eq, decide_False; [done|]. congruence.
           ++ intros Hfit Hroom. rewrite lookup_insert_eq, decide_False by congruence.
              rewrite refs_incr_fits; [done|].
              assert (refs f1 < REFS_MAX)%Z by (apply Hroom; congruence).
              unfold refs_fit in Hfit. lia.
           ++ intros o g' Ho Hg' Hone. assert (o = other) as -> by congruence.
              assert (g' = g) as -> by congruence. lia.
  - intros ft file f l Hab Ha Hb Hf Hs Hh Hl Hin [Ht|(other & g & l' & Ht & Hg & Hl' & Hin' & Hr & Hsame & Hdiff)].
    + rewrite (filetable_dup2file_free s ft a b file) by done.
      eexists. apply (dup2_install_ok s ft file b f l); try done. by eapply lookup_lt_Some.
    + pose proof (lookup_lt_Some _ _ _ Ht) as Hlt.
      destruct (decide (refs g = 1%Z)) as [Hone|Hmany].
      * assert (other ≠ file) as Hne by (intros ?; specialize (Hsame ltac:(done)); lia).
        rewrite (filetable_dup2file_occupied s ft a b file other _ Ha Hb Hab Hf Hs Ht
                   (file_close_last s ft b other g l' Hb Hf Ht Hg Hl' Hin' Hone)).
        eexists. apply (dup2_install_ok _ (<[Z.to_nat b := None]> ft) file b f l); simpl; try done.
        -- by rewrite lookup_delete_ne.
        -- specialize (Hdiff Hne). set_solver.
        -- by rewrite length_insert.
      * assert (1 < refs g)%Z as Hgt by lia.
        rewrite (filetable_dup2file_occupied s ft a b file other _ Ha Hb Hab Hf Hs Ht
                   (file_close_shared s ft b other g l' Hb Hf Ht Hg Hl' Hin' Hgt)).
        destruct (decide (other = file)) as [->|Hne].
        -- assert (g = f) as -> by congruence.
           eexists. apply (dup2_install_ok _ (<[Z.to_nat b := None]> ft) file b
                             (set_refs (refs f - 1) f) l); simpl; try done.
           ++ by rewrite lookup_insert_eq.
           ++ by rewrite length_insert.
        -- eexists. apply (dup2_install_ok _ (<[Z.to_nat b := None]> ft) file b f l);
             simpl; try done.
           ++ by rewrite lookup_insert_ne.
           ++ by rewrite length_insert.
Qed.

End Table.

Section Copy.
Context `{KC : kern_consts} (W : world).

(** ** filetable_copy *)

Lemma copy_loop_S_some n i c s (ft : filetable) a f l :
  files s = Some ft → ft !! i = Some (Some a) →
  heap s !! a = Some f → lock f = Some l → l ∈ locks s →
  copy_loop (S n) i c s =
    copy_loop n (S i) (<[i := Some a]> c)
      (set_heap (<[a := set_refs (refs_incr (refs f)) f]> (heap s)) s).
Proof.
  intros Hf Hi Hh Hl Hin. simpl.
  unfold bind at 1. rewrite (read_slot_ok s ft i (Some a)) by done.
  unfold bind at 1. rewrite (load_ok s a f) by done.
  unfold bind at 1. rewrite Hl, lock_acquire_ok by done.
  unfold bind at 1. rewrite (load_ok s a f) by done.
  unfold bind at 1. rewrite (update_ok s a f) by done.
  unfold bind at 1. rewrite (load_ok _ a (set_refs (refs_incr (refs f)) f))
    by (simpl; by rewrite lookup_insert_eq).
  unfold bind at 1. simpl lock. rewrite Hl, lock_release_ok by done.
  unfold bind at 1. by rewrite (read_slot_ok _ ft i (Some a)).
Qed.

Lemma copy_loop_S_none n i c s (ft : filetable) :
  files s = Some ft → ft !! i = Some None →
  copy_loop (S n) i c s = copy_loop n (S i) (<[i := None]> c) s.
Proof.
  intros Hf Hi. simpl. unfold bind at 1. by rewrite (read_slot_ok s ft i None).
Qed.

Lemma handle_ok_acquire s a h :
  handle_ok s a → handle_ok (set_heap (acquire_slot (heap s) h) s) a.
Proof.
  intros (f & l & Hh & Hl & Hin). unfold acquire_slot.
  destruct h as [b|]; [|by exists f, l].
  destruct (heap s !! b) as [g|] eqn:Hb; [|by exists f, l].
  destruct (decide (b = a)) as [->|Hne].
  - exists (set_refs (refs_incr (refs g)) g), l. simpl. rewrite lookup_insert_eq.
    assert (g = f) as -> by congruence. done.
  - exists f, l. simpl. by rewrite lookup_insert_ne.
Qed.

(** The loop over the slots [i], ..., [i + n - 1]. *)
Lemma copy_loop_spec n : ∀ i s (ft c : filetable),
  files s = Some ft → i + n ≤ length ft → length c = length ft →
  (∀ j a, i ≤ j < i + n → ft !! j = Some (Some a) → handle_ok s a) →
  ∃ c' : filetable,
    copy_loop n i c s =
      Done c' (set_heap (acquire_slots (take n (drop i ft)) (heap s)) s)
    ∧ length c' = length c
    ∧ ∀ j, c' !! j = if decide (i ≤ j < i + n) then ft !! j else c !! j.
Proof.
  induction n as [|n IH]; intros i s ft c Hf Hlen Hc Hok.
  - exists c. simpl. split_and!; [by destruct s|done|].
    intros j. rewrite decide_False; [done|lia].
  - destruct (lookup_lt_is_Some_2 ft i) as [h Hi]; [lia|].
    rewrite (drop_S _ _ _ Hi). simpl take. unfold acquire_slots. simpl foldl.
    assert (∀ s1, files s1 = Some ft → heap s1 = acquire_slot (heap s) h →
              locks s1 = locks s →
              ∃ c' : filetable,
                copy_loop n (S i) (<[i := h]> c) s1 =
                  Done c' (set_heap (acquire_slots (take n (drop (S i) ft)) (heap s1)) s1)
                ∧ length c' = length c
                ∧ ∀ j, c' !! j = if decide (i ≤ j < i + S n) then ft !! j else c !! j) as Hrec.
    { intros s1 Hf1 Hh1 Hl1.
      destruct (IH (S i) s1 ft (<[i := h]> c)) as (c' & Hrun & Hlen' & Hlook).
      - done.
      - lia.
      - by rewrite length_insert.
      - intros j a Hj Hs. destruct (handle_ok_acquire s a h) as (f & l & ? & ? & ?).
        { apply (Hok j); [lia|done]. }
        exists f, l. simpl in *. rewrite Hh1, Hl1. done.
      - exists c'. split_and!; [done|by rewrite Hlen', length_insert|].
        intros j. rewrite Hlook. destruct (decide (j = i)) as [->|Hne].
        + rewrite decide_False by lia. rewrite decide_True by lia.
          rewrite list_lookup_insert_eq by lia. done.
        + rewrite list_lookup_insert_ne by done.
          destruct (decide (S i ≤ j < S i + n)); [rewrite decide_True by lia|rewrite decide_False by lia]; done. }
    destruct h as [a|].
    + destruct (Hok i a ltac:(lia) Hi) as (f & l & Hh & Hl & Hin).
      rewrite (copy_loop_S_some n i c s ft a f l) by done.
      destruct (Hrec (set_heap (<[a := set_refs (refs_incr (refs f)) f]> (heap s)) s))
        as (c' & Hrun & Hrest); [done|simpl; by rewrite Hh|done|].
      exists c'. split; [|done]. rewrite Hrun. simpl. by rewrite Hh.
    + rewrite (copy_loop_S_none n i c s ft) by done.
      destruct (Hrec s) as (c' & Hrun & Hrest); [done..|].
      exists c'. split; [|done]. rewrite Hrun. by destruct s.
Qed.

(** What the references taken do to each handle whose count does not
    overflow on the way. *)
Lemma acquire_slots_lookup (l : filetable) : ∀ (m : gmap addr openfile) a,
  (∀ f, m !! a = Some f →
     (REFS_MIN ≤ refs f)%Z ∧ (refs f + Z.of_nat (alias_count a l) ≤ REFS_MAX)%Z) →
  acquire_slots l m !! a =
    (λ f, set_refs (refs f + Z.of_nat (alias_count a l)) f) <$> m !! a.
Proof.
  unfold acquire_slots, alias_count.
  induction l as [|h l IH]; intros m a Hfit; simpl.
  - destruct (m !! a) as [f|]; [|done]. simpl. f_equal.
    destruct f. unfold set_refs. simpl. f_equal. lia.
  - rewrite filter_cons in Hfit |- *. unfold acquire_slot.
    destruct h as [b|]; cycle 1.
    { rewrite decide_False in Hfit |- * by done. by apply IH. }
    destruct (decide (b = a)) as [->|Hne].
    + rewrite decide_True in Hfit |- * by done. destruct (m !! a) as [f|] eqn:Hm.
      * destruct (Hfit f eq_refl) as [Hlo Hhi]. simpl length in Hhi.
        rewrite IH.
        -- rewrite lookup_insert_eq. simpl. rewrite refs_incr_fits by lia.
           f_equal. unfold set_refs. simpl. f_equal. lia.
        -- intros f' Hf'. rewrite lookup_insert_eq in Hf'. injection Hf' as <-.
           simpl. rewrite refs_incr_fits by lia. lia.
      * rewrite IH, Hm; [done|]. intros f. by rewrite Hm.
    + rewrite decide_False in Hfit |- * by congruence.
      destruct (m !! b) as [g|]; [|by apply IH].
      rewrite IH; [by rewrite lookup_insert_ne|].
      intros f. rewrite lookup_insert_ne by done. apply Hfit.
Qed.

Lemma table_okb_spec s (ft : filetable) :
  table_okb s ft = true → ∀ j a, ft !! j = Some (Some a) → handle_ok s a.
Proof.
  unfold table_okb. rewrite forallb_forall. intros H j a Hj.
  specialize (H (Some a)). cbn beta iota in H. unfold handle_okb in H.
  assert (In (Some a) ft) as Hin by (apply list_elem_of_In, list_elem_of_lookup; eauto).
  specialize (H Hin). destruct (heap s !! a) as [f|] eqn:Hh; [|done].
  destruct (lock f) as [l|] eqn:Hl; [|done].
  exists f, l. split_and!; [done..|]. by apply bool_decide_eq_true in H.
Qed.

(** C3. filetable_copy of a process without a table stores NULL and
    returns 0.  Otherwise, once the new table is allocated, it returns 0
    with a table equal to the source slot for slot, and, no count
    overflowing the type of the field on the way, the count of every
    handle has grown by the number of source slots that refer to it;
    nothing else changes.  When the allocation of the new table fails
    it returns ENOMEM. *)
Theorem filetable_copy_shares_handles (s : kstate) :
  (files s = None → filetable_copy W s = Done (0%Z, None) s)
  ∧ (∀ ft : filetable, files s = Some ft → kmalloc_ok W (trace s) = false →
       filetable_copy W s = Done (ENOMEM, None) (log (EvKmallocTable false) s))
  ∧ (∀ ft : filetable, files s = Some ft → length ft = OPEN_MAX →
       kmalloc_ok W (trace s) = true →
       (∀ j a, ft !! j = Some (Some a) → handle_ok s a) →
       counts_fit s ft →
       ∃ s', filetable_copy W s = Done (0%Z, Some ft) s'
         ∧ files s' = Some ft ∧ locks s' = locks s
         ∧ trace s' = trace s ++ [EvKmallocTable true]
         ∧ ∀ a, heap s' !! a =
                  (λ f, set_refs (refs f + Z.of_nat (alias_count a ft)) f) <$> heap s !! a).
Proof.
  split_and!.
  - intros Hf. unfold filetable_copy, bind. by rewrite Hf.
  - intros ft Hf Hk. unfold filetable_copy, bind, kmalloc_table. by rewrite Hf, Hk.
  - intros ft Hf Hlen Hk Hok Hfit. unfold filetable_copy.
    unfold bind at 1. rewrite Hf.
    unfold bind at 1, kmalloc_table. rewrite Hk.
    destruct (copy_loop_spec OPEN_MAX 0 (log (EvKmallocTable true) s) ft
                (table_junk W <$> seq 0 OPEN_MAX))
      as (c' & Hrun & Hlen' & Hlook).
    + done.
    + lia.
    + by rewrite length_fmap, length_seq.
    + intros j a _ Hj. destruct (Hok j a Hj) as (f & l & ? & ? & ?). by exists f, l.
    + assert (c' = ft) as ->.
      { apply list_eq. intros j. rewrite Hlook.
        destruct (decide (0 ≤ j < 0 + OPEN_MAX)) as [|Hge]; [done|].
        rewrite (lookup_ge_None_2 ft) by lia.
        apply lookup_ge_None_2. rewrite length_fmap, length_seq. lia. }
      unfold bind. rewrite Hrun. eexists. split; [done|]. simpl.
      split_and!; try done. intros a.
      rewrite drop_0, <- Hlen, firstn_all. apply acquire_slots_lookup.
      intros f Hh. apply (Hfit a f Hh).
Qed.

End Copy.

Section Open.
Context `{KC : kern_consts} (W : world).

(** ** file_open *)

Ltac kred := cbn [trace log set_heap set_locks set_files heap locks files
                  vn lock offset mode refs set_vn set_lock set_offset set_mode set_refs].

Lemma file_open_vfs_error s fn flags md r0 v :
  vfs_open_fn W (trace s) fn flags md = (r0, v) → r0 ≠ 0%Z →
  file_open W fn flags md s = Done (r0, None) (log (EvVfsOpen fn flags md r0 v) s).
Proof.
  intros Hv Hr. unfold file_open, bind at 1, vfs_open. rewrite Hv.
  by rewrite nonzero_true.
Qed.

Lemma file_open_no_memory s fn flags md v :
  vfs_open_fn W (trace s) fn flags md = (0%Z, v) →
  kmalloc_ok W (trace s ++ [EvVfsOpen fn flags md 0 v]) = false →
  file_open W fn flags md s =
    Done (ENOMEM, None)
      (mk_kstate (heap s) (locks s) (files s)
         (trace s ++ [EvVfsOpen fn flags md 0 v; EvKmalloc None;
                      EvVfsClose v (vfs_close_fn W (trace s ++ [EvVfsOpen fn flags md 0 v; EvKmalloc None]) v)])).
Proof.
  intros Hv Hk. unfold file_open, bind at 1, vfs_open. rewrite Hv, nonzero_0.
  unfold bind at 1, kmalloc. kred. rewrite Hk.
  unfold bind, vfs_close, ret. kred. unfold log. kred.
  by rewrite <- !app_assoc.
Qed.

Lemma fresh_addr_free s : heap s !! fresh (dom (heap s)) = None.
Proof. apply not_elem_of_dom, is_fresh. Qed.

Lemma fresh_lock_returned (L : gset lockid) : ({[fresh L]} ∪ L) ∖ {[fresh L]} = L.
Proof.
  pose proof (is_fresh L) as Hfr. apply set_eq. intros x.
  rewrite elem_of_difference, elem_of_union, elem_of_singleton. split.
  - by intros [[->|?] ?].
  - intros Hx. split; [by right|]. by intros ->.
Qed.

Lemma file_open_no_lock s fn flags md v :
  let a := fresh (dom (heap s)) in
  vfs_open_fn W (trace s) fn flags md = (0%Z, v) →
  kmalloc_ok W (trace s ++ [EvVfsOpen fn flags md 0 v]) = true →
  lock_create_ok W (trace s ++ [EvVfsOpen fn flags md 0 v; EvKmalloc (Some a)]) = false →
  file_open W fn flags md s =
    Done (ENOMEM, None)
      (mk_kstate (heap s) (locks s) (files s)
         (trace s ++ [EvVfsOpen fn flags md 0 v; EvKmalloc (Some a); EvLockCreate None;
                      EvVfsClose v (vfs_close_fn W
                        (trace s ++ [EvVfsOpen fn flags md 0 v; EvKmalloc (Some a);
                                     EvLockCreate None]) v);
                      EvKfree a])).
Proof.
  intros a Hv Hk Hl. unfold file_open, bind at 1, vfs_open. rewrite Hv, nonzero_0.
  unfold bind at 1, kmalloc. kred. rewrite Hk. fold a.
  unfold bind at 1, lock_create. kred. rewrite <- app_assoc. cbn [app]. rewrite Hl.
  unfold bind at 1. erewrite update_ok by (kred; apply lookup_insert_eq).
  unfold bind at 1, vfs_close.
  unfold bind at 1. erewrite kfree_ok by (kred; apply lookup_insert_eq).
  unfold ret, log. kred. rewrite insert_insert_eq.
  rewrite delete_insert_id by apply fresh_addr_free.
  by rewrite <- !app_assoc.
Qed.

(** With the VFS object, the struct and the lock in hand, file_open has
    initialised the handle and is about to place it in the table. *)
Lemma file_open_prefix s fn flags md v :
  let a := fresh (dom (heap s)) in
  let l := fresh (locks s) in
  vfs_open_fn W (trace s) fn flags md = (0%Z, v) →
  kmalloc_ok W (trace s ++ [EvVfsOpen fn flags md 0 v]) = true →
  lock_create_ok W (trace s ++ [EvVfsOpen fn flags md 0 v; EvKmalloc (Some a)]) = true →
  file_open W fn flags md s =
    (kassert ((Z.land flags O_ACCMODE =? O_RDONLY)%Z || (Z.land flags O_ACCMODE =? O_WRONLY)%Z
              || (Z.land flags O_ACCMODE =? O_RDWR)%Z) ;;;
     let! '(result, retfd) := filetable_placefile a in
     if nonzero result then
       let! f := load a in
       lock_destroy (lock f) ;;; kfree a ;;; vfs_close W v ;;; ret (result, None)
     else ret (0%Z, retfd))
      (mk_kstate (<[a := mk_openfile v (Some l) 0 (Z.land flags O_ACCMODE) 1]> (heap s))
         ({[l]} ∪ locks s) (files s)
         (trace s ++ [EvVfsOpen fn flags md 0 v; EvKmalloc (Some a); EvLockCreate (Some l)])).
Proof.
  intros a l Hv Hk Hl. unfold file_open, bind at 1, vfs_open. rewrite Hv, nonzero_0.
  unfold bind at 1, kmalloc. kred. rewrite Hk. fold a.
  unfold bind at 1, lock_create. kred. rewrite <- app_assoc. cbn [app]. rewrite Hl. fold l.
  unfold bind at 1. erewrite update_ok by (kred; apply lookup_insert_eq).
  unfold bind at 1. erewrite update_ok by (kred; apply lookup_insert_eq).
  unfold bind at 1. erewrite update_ok by (kred; apply lookup_insert_eq).
  unfold bind at 1. erewrite update_ok by (kred; apply lookup_insert_eq).
  unfold bind at 1. erewrite update_ok by (kred; apply lookup_insert_eq).
  unfold bind at 1. erewrite load_ok by (kred; apply lookup_insert_eq).
  kred. rewrite !insert_insert_eq. unfold log. kred. rewrite <- !app_assoc. cbn [app].
  done.
Qed.

Lemma file_open_bad_mode s fn flags md v :
  vfs_open_fn W (trace s) fn flags md = (0%Z, v) →
  kmalloc_ok W (trace s ++ [EvVfsOpen fn flags md 0 v]) = true →
  lock_create_ok W (trace s ++ [EvVfsOpen fn flags md 0 v;
                                 EvKmalloc (Some (fresh (dom (heap s))))]) = true →
  valid_mode (Z.land flags O_ACCMODE) = false →
  file_open W fn flags md s = Panic.
Proof.
  intros Hv Hk Hl Hm. rewrite (file_open_prefix s fn flags md v) by done.
  unfold bind at 1. fold (valid_mode (Z.land flags O_ACCMODE)). by rewrite Hm.
Qed.

(** No slot is free: the lock and the struct are given back and the
    VFS object is closed. *)
Lemma file_open_table_full s fn flags md v :
  let a := fresh (dom (heap s)) in
  let l := fresh (locks s) in
  vfs_open_fn W (trace s) fn flags md = (0%Z, v) →
  kmalloc_ok W (trace s ++ [EvVfsOpen fn flags md 0 v]) = true →
  lock_create_ok W (trace s ++ [EvVfsOpen fn flags md 0 v; EvKmalloc (Some a)]) = true →
  valid_mode (Z.land flags O_ACCMODE) = true →
  filetable_placefile a (handle_ready s fn flags md v) =
    Done (EMFILE, None) (handle_ready s fn flags md v) →
  file_open W fn flags md s =
    Done (EMFILE, None)
      (mk_kstate (heap s) (locks s) (files s)
         (trace s ++ [EvVfsOpen fn flags md 0 v; EvKmalloc (Some a); EvLockCreate (Some l);
                      EvLockDestroy l; EvKfree a;
                      EvVfsClose v (vfs_close_fn W
                        (trace s ++ [EvVfsOpen fn flags md 0 v; EvKmalloc (Some a);
                                     EvLockCreate (Some l); EvLockDestroy l; EvKfree a]) v)])).
Proof.
  intros a l Hv Hk Hl Hm Hp. subst a l.
  rewrite (file_open_prefix s fn flags md v) by done.
  unfold bind at 1. fold (valid_mode (Z.land flags O_ACCMODE)). rewrite Hm.
  unfold kassert, ret at 1. unfold bind at 1.
  change (mk_kstate _ _ _ _) with (handle_ready s fn flags md v) at 1.
  rewrite Hp. rewrite nonzero_true by apply EMFILE_nonzero.
  unfold bind at 1. erewrite load_ok by (unfold handle_ready; kred; apply lookup_insert_eq).
  unfold bind at 1. kred. rewrite lock_destroy_ok
    by (unfold handle_ready; kred; apply elem_of_union_l, elem_of_singleton; done).
  unfold bind at 1. erewrite kfree_ok by (unfold handle_ready; kred; apply lookup_insert_eq).
  unfold bind, vfs_close, ret, log, handle_ready. kred.
  rewrite delete_insert_id by apply fresh_addr_free.
  rewrite <- !app_assoc. cbn [app].
  by rewrite fresh_lock_returned.
Qed.

Lemma file_open_placed s fn flags md v fd s' :
  let a := fresh (dom (heap s)) in
  vfs_open_fn W (trace s) fn flags md = (0%Z, v) →
  kmalloc_ok W (trace s ++ [EvVfsOpen fn flags md 0 v]) = true →
  lock_create_ok W (trace s ++ [EvVfsOpen fn flags md 0 v; EvKmalloc (Some a)]) = true →
  valid_mode (Z.land flags O_ACCMODE) = true →
  filetable_placefile a (handle_ready s fn flags md v) = Done (0%Z, fd) s' →
  file_open W fn flags md s = Done (0%Z, fd) s'.
Proof.
  intros a Hv Hk Hl Hm Hp. subst a.
  rewrite (file_open_prefix s fn flags md v) by done.
  unfold bind at 1. fold (valid_mode (Z.land flags O_ACCMODE)). rewrite Hm.
  unfold kassert, ret at 1. unfold bind at 1.
  change (mk_kstate _ _ _ _) with (handle_ready s fn flags md v) at 1.
  by rewrite Hp, nonzero_0.
Qed.

(** The ways file_open returns. *)
Lemma file_open_inv s fn flags md r fd s' :
  file_open W fn flags md s = Done (r, fd) s' →
  let r0 := (vfs_open_fn W (trace s) fn flags md).1 in
  let v := (vfs_open_fn W (trace s) fn flags md).2 in
  let a := fresh (dom (heap s)) in
  let l := fresh (locks s) in
  (r0 ≠ 0%Z ∧ r = r0 ∧ fd = None ∧ s' = log (EvVfsOpen fn flags md r0 v) s)
  ∨ (r0 = 0%Z ∧ r = ENOMEM ∧ fd = None ∧
     kmalloc_ok W (trace s ++ [EvVfsOpen fn flags md 0 v]) = false ∧
     ∃ st, s' = mk_kstate (heap s) (locks s) (files s)
                  (trace s ++ [EvVfsOpen fn flags md 0 v; EvKmalloc None; EvVfsClose v st]))
  ∨ (r0 = 0%Z ∧ r = ENOMEM ∧ fd = None ∧
     lock_create_ok W (trace s ++ [EvVfsOpen fn flags md 0 v; EvKmalloc (Some a)]) = false ∧
     ∃ st, s' = mk_kstate (heap s) (locks s) (files s)
                  (trace s ++ [EvVfsOpen fn flags md 0 v; EvKmalloc (Some a);
                               EvLockCreate None; EvVfsClose v st; EvKfree a]))
  ∨ (r0 = 0%Z ∧ r = EMFILE ∧ fd = None ∧
     filetable_placefile a (handle_ready s fn flags md v) =
       Done (EMFILE, None) (handle_ready s fn flags md v) ∧
     ∃ st, s' = mk_kstate (heap s) (locks s) (files s)
                  (trace s ++ [EvVfsOpen fn flags md 0 v; EvKmalloc (Some a);
                               EvLockCreate (Some l); EvLockDestroy l; EvKfree a;
                               EvVfsClose v st]))
  ∨ (r0 = 0%Z ∧ r = 0%Z ∧ valid_mode (Z.land flags O_ACCMODE) = true ∧
     ∃ (ft : filetable) k,
       files s = Some ft ∧ ft !! k = Some None ∧ k < OPEN_MAX ∧
       (∀ j, j < k → ft !! j ≠ Some None) ∧ fd = Some (Z.of_nat k) ∧
       s' = set_files (Some (<[k := Some a]> ft)) (handle_ready s fn flags md v)).
Proof.
  intros H. destruct (vfs_open_fn W (trace s) fn flags md) as [r0 v] eqn:Hv.
  cbv zeta. cbn [fst snd].
  set (a := fresh (dom (heap s))). set (l := fresh (locks s)).
  destruct (decide (r0 = 0%Z)) as [->|Hr0]; cycle 1.
  { rewrite (file_open_vfs_error s fn flags md r0 v) in H by done.
    injection H as <- <- <-. by left. }
  right.
  destruct (kmalloc_ok W (trace s ++ [EvVfsOpen fn flags md 0 v])) eqn:Hk; cycle 1.
  { rewrite (file_open_no_memory s fn flags md v) in H by done.
    injection H as <- <- <-. left. split_and!; eauto. }
  right.
  destruct (lock_create_ok W (trace s ++ [EvVfsOpen fn flags md 0 v; EvKmalloc (Some a)]))
    eqn:Hl; cycle 1.
  { rewrite (file_open_no_lock s fn flags md v) in H by done.
    injection H as <- <- <-. left. split_and!; eauto. }
  right.
  destruct (valid_mode (Z.land flags O_ACCMODE)) eqn:Hm; cycle 1.
  { by rewrite (file_open_bad_mode s fn flags md v) in H. }
  pose proof H as H0. rewrite (file_open_prefix s fn flags md v) in H0 by done.
  apply bind_inv in H0 as (? & s1 & [_ ->]%kassert_inv & H0).
  apply bind_inv in H0 as ([r1 fd1] & s2 & Hp & _).
  pose proof Hp as Hp'.
  apply placefile_loop_inv in Hp' as [(-> & -> & ->)|(-> & ft & k & Hf & Hk' & Hlt & Hmin & -> & ->)].
  - rewrite (file_open_table_full s fn flags md v Hv Hk Hl Hm Hp) in H.
    injection H as <- <- <-. left. split_and!; eauto.
  - rewrite (file_open_placed s fn flags md v _ _ Hv Hk Hl Hm Hp) in H.
    injection H as <- <- <-. right. split_and!; try done.
    exists ft, k. split_and!; try done; [lia|]. intros j Hj. apply Hmin. lia.
Qed.

(** On a table of [OPEN_MAX] slots and with a valid access mode,
    file_open returns. *)
Lemma file_open_total s (ft : filetable) fn flags md :
  files s = Some ft → length ft = OPEN_MAX →
  valid_mode (Z.land flags O_ACCMODE) = true →
  ∃ r fd s' (ft' : filetable),
    file_open W fn flags md s = Done (r, fd) s' ∧
    files s' = Some ft' ∧ length ft' = OPEN_MAX.
Proof.
  intros Hf Hlen Hm.
  destruct (vfs_open_fn W (trace s) fn flags md) as [r0 v] eqn:Hv.
  destruct (decide (r0 = 0%Z)) as [->|Hr0]; cycle 1.
  { rewrite (file_open_vfs_error s fn flags md r0 v) by done. by eexists _, _, _, ft. }
  destruct (kmalloc_ok W (trace s ++ [EvVfsOpen fn flags md 0 v])) eqn:Hk; cycle 1.
  { rewrite (file_open_no_memory s fn flags md v) by done. by eexists _, _, _, ft. }
  destruct (lock_create_ok W (trace s ++ [EvVfsOpen fn flags md 0 v;
                                           EvKmalloc (Some (fresh (dom (heap s))))]))
    eqn:Hl; cycle 1.
  { rewrite (file_open_no_lock s fn flags md v) by done. by eexists _, _, _, ft. }
  destruct (decide (None ∈ ft)) as [Hin|Hnot].
  - apply list_elem_of_lookup in Hin.
    destruct (lowest_empty_slot ft Hin) as (k & Hk' & Hmin).
    pose proof (lookup_lt_Some _ _ _ Hk') as Hlt.
    rewrite (file_open_placed s fn flags md v (Some (Z.of_nat k))
               (set_files (Some (<[k := Some (fresh (dom (heap s)))]> ft))
                  (handle_ready s fn flags md v))); try done.
    + eexists _, _, _, _. split_and!; [done|done|]. by rewrite length_insert.
    + apply placefile_loop_found; [done|done|lia|]. intros j Hj. apply Hmin. lia.
  - rewrite (file_open_table_full s fn flags md v); try done.
    + by eexists _, _, _, ft.
    + apply (placefile_loop_full _ _ _ ft); [done|lia|].
      intros j _ Hj. apply Hnot, list_elem_of_lookup. eauto.
Qed.

(** C7. Once the VFS open has succeeded, every way file_open fails
    (no memory for the handle, no lock, no free slot) gives back what it
    took: the VFS object is closed and whatever was allocated is freed
    before the error is returned, so that the heap, the locks and the
    table are as they were.  When file_open succeeds the new handle,
    placed in the lowest free slot, has offset 0, the access bits of the
    flags as its mode and a count of 1.  On a table of [OPEN_MAX] slots
    and with a valid access mode, file_open returns. *)
Theorem file_open_releases_on_failure (s : kstate) (fn : string) (flags md : Z) (v : vnode) :
  vfs_open_fn W (trace s) fn flags md = (0%Z, v) →
  (∀ r fd s', file_open W fn flags md s = Done (r, fd) s' → r ≠ 0%Z →
     fd = None ∧ heap s' = heap s ∧ locks s' = locks s ∧ files s' = files s ∧
     ∃ st,
       (r = ENOMEM ∧
        trace s' = trace s ++ [EvVfsOpen fn flags md 0 v; EvKmalloc None; EvVfsClose v st])
       ∨ (r = ENOMEM ∧
          trace s' = trace s ++ [EvVfsOpen fn flags md 0 v;
                                 EvKmalloc (Some (fresh (dom (heap s))));
                                 EvLockCreate None; EvVfsClose v st;
                                 EvKfree (fresh (dom (heap s)))])
       ∨ (r = EMFILE ∧
          trace s' = trace s ++ [EvVfsOpen fn flags md 0 v;
                                 EvKmalloc (Some (fresh (dom (heap s))));
                                 EvLockCreate (Some (fresh (locks s)));
                                 EvLockDestroy (fresh (locks s));
                                 EvKfree (fresh (dom (heap s))); EvVfsClose v st]))
  ∧ (∀ fd s', file_open W fn flags md s = Done (0%Z, fd) s' →
     ∃ (ft : filetable) k,
       files s = Some ft ∧ ft !! k = Some None ∧ (∀ j, j < k → ft !! j ≠ Some None) ∧
       fd = Some (Z.of_nat k) ∧
       heap s !! fresh (dom (heap s)) = None ∧
       heap s' = <[fresh (dom (heap s)) :=
                     mk_openfile v (Some (fresh (locks s))) 0 (Z.land flags O_ACCMODE) 1]>
                   (heap s) ∧
       files s' = Some (<[k := Some (fresh (dom (heap s)))]> ft) ∧
       locks s' = {[fresh (locks s)]} ∪ locks s ∧
       trace s' = trace s ++ [EvVfsOpen fn flags md 0 v;
                              EvKmalloc (Some (fresh (dom (heap s))));
                              EvLockCreate (Some (fresh (locks s)))])
  ∧ (∀ ft : filetable, files s = Some ft → length ft = OPEN_MAX →
     valid_mode (Z.land flags O_ACCMODE) = true →
     ∃ r fd s', file_open W fn flags md s = Done (r, fd) s').
Proof.
  intros Hv. split_and!.
  - intros r fd s' H Hr. apply file_open_inv in H. rewrite Hv in H. cbn [fst snd] in H.
    destruct H as [(? & _)|[(_ & -> & -> & _ & st & ->)|[(_ & -> & -> & _ & st & ->)|
                   [(_ & -> & -> & _ & st & ->)|(_ & -> & _)]]]]; try done.
    + split_and!; try done. exists st. by left.
    + split_and!; try done. exists st. right. by left.
    + split_and!; try done. exists st. right. by right.
  - intros fd s' H. apply file_open_inv in H. rewrite Hv in H. cbn [fst snd] in H.
    destruct H as [(? & _)|[(_ & E & _)|[(_ & E & _)|[(_ & E & _)|
                   (_ & _ & _ & ft & k & Hf & Hk & _ & Hmin & -> & ->)]]]]; try done.
    + by destruct ENOMEM_nonzero.
    + by destruct ENOMEM_nonzero.
    + by destruct EMFILE_nonzero.
    + exists ft, k. split_and!; try done. apply fresh_addr_free.
  - intros ft Hf Hlen Hm.
    destruct (file_open_total s ft fn flags md Hf Hlen Hm) as (r & fd & s' & _ & H & _).
    eauto.
Qed.

End Open.

Section Init.
Context `{KC : kern_consts} (W : world).

(** ** filetable_init *)

Lemma init_loop_spec n : ∀ i s (ft : filetable),
  files s = Some ft → i + n ≤ length ft →
  ∃ ft' : filetable,
    init_loop n i s = Done tt (set_files (Some ft') s)
    ∧ length ft' = length ft
    ∧ ∀ j, ft' !! j = if decide (i ≤ j < i + n) then Some None else ft !! j.
Proof.
  induction n as [|n IH]; intros i s ft Hf Hlen.
  - exists ft. simpl. split_and!; [by rewrite <- Hf; destruct s|done|].
    intros j. rewrite decide_False; [done|lia].
  - simpl. unfold bind. rewrite (write_slot_ok s ft) by (done || lia).
    destruct (IH (S i) (set_files (Some (<[i := None]> ft)) s) (<[i := None]> ft))
      as (ft' & Hrun & Hlen' & Hlook); [done|rewrite length_insert; lia|].
    exists ft'. rewrite Hrun. split_and!; [done|by rewrite Hlen', length_insert|].
    intros j. rewrite Hlook. destruct (decide (j = i)) as [->|Hne].
    + rewrite decide_False by lia. rewrite decide_True by lia.
      by rewrite list_lookup_insert_eq by lia.
    + rewrite list_lookup_insert_ne by done.
      destruct (decide (S i ≤ j < S i + n));
        [rewrite decide_True by lia|rewrite decide_False by lia]; done.
Qed.

Lemma filetable_init_panics s inpath outpath errpath :
  32 ≤ String.length inpath ∨ 32 ≤ String.length outpath ∨ 32 ≤ String.length errpath
  ∨ files s ≠ None →
  filetable_init W inpath outpath errpath s = Panic.
Proof.
  intros H. unfold filetable_init, bind, kassert.
  destruct (String.length inpath <? 32) eqn:E1; [|done].
  destruct (String.length outpath <? 32) eqn:E2; [|done].
  destruct (String.length errpath <? 32) eqn:E3; [|done].
  apply Nat.ltb_lt in E1, E2, E3. cbn [ret].
  destruct H as [?|[?|[?|H]]]; [lia..|].
  by rewrite bool_decide_eq_false_2.
Qed.

Lemma filetable_init_no_memory s inpath outpath errpath :
  String.length inpath < 32 → String.length outpath < 32 → String.length errpath < 32 →
  files s = None → kmalloc_ok W (trace s) = false →
  filetable_init W inpath outpath errpath s = Done ENOMEM (log (EvKmallocTable false) s).
Proof.
  intros H1 H2 H3 Hf Hk. unfold filetable_init, bind, kassert.
  apply Nat.ltb_lt in H1, H2, H3. rewrite H1, H2, H3. cbn [ret].
  rewrite bool_decide_eq_true_2 by done. cbn [ret]. unfold kmalloc_table. rewrite Hk.
  unfold ret, set_files, log. cbn. by rewrite Hf.
Qed.

(** With the table allocated and emptied, filetable_init opens the
    three paths in turn and gives up at the first error. *)
Lemma filetable_init_prefix s inpath outpath errpath :
  String.length inpath < 32 → String.length outpath < 32 → String.length errpath < 32 →
  files s = None → kmalloc_ok W (trace s) = true →
  filetable_init W inpath outpath errpath s =
    (let! '(result, _) := file_open W inpath O_RDONLY 0 in
     if nonzero result then ret result else
     let! '(result, _) := file_open W outpath O_WRONLY 0 in
     if nonzero result then ret result else
     let! '(result, _) := file_open W errpath O_WRONLY 0 in
     if nonzero result then ret result else
     ret 0%Z) (table_ready s).
Proof.
  intros H1 H2 H3 Hf Hk. unfold filetable_init.
  apply Nat.ltb_lt in H1, H2, H3. rewrite H1, H2, H3.
  unfold kassert at 1 2 3. unfold bind at 1 2 3. cbn [ret].
  unfold bind at 1. rewrite bool_decide_eq_true_2 by done.
  unfold bind at 1. cbn [kassert ret].
  unfold bind at 1, kmalloc_table. rewrite Hk.
  unfold bind at 1.
  destruct (init_loop_spec OPEN_MAX 0
              (set_files (Some (table_junk W <$> seq 0 OPEN_MAX)) (log (EvKmallocTable true) s))
              (table_junk W <$> seq 0 OPEN_MAX)) as (ft' & Hrun & Hlen & Hlook);
    [done|by rewrite length_fmap, length_seq|].
  unfold bind at 1. rewrite Hrun.
  assert (ft' = replicate OPEN_MAX None) as ->; [|done].
  rewrite length_fmap, length_seq in Hlen.
  apply list_eq. intros j. rewrite Hlook.
  destruct (decide (0 ≤ j < 0 + OPEN_MAX)) as [|Hge].
  - by rewrite lookup_replicate_2 by lia.
  - rewrite (lookup_ge_None_2 (replicate _ _)) by (rewrite length_replicate; lia).
    apply lookup_ge_None_2. rewrite length_fmap, length_seq. lia.
Qed.

Lemma valid_mode_rdonly : valid_mode (Z.land O_RDONLY O_ACCMODE) = true.
Proof. unfold valid_mode. by rewrite O_RDONLY_masked, Z.eqb_refl. Qed.

Lemma valid_mode_wronly : valid_mode (Z.land O_WRONLY O_ACCMODE) = true.
Proof. unfold valid_mode. by rewrite O_WRONLY_masked, Z.eqb_refl, orb_true_r. Qed.

Lemma nonzero_false_inv r : nonzero r = false → r = 0%Z.
Proof. unfold nonzero. intros H%negb_false_iff. lia. Qed.

Lemma file_open_success_inv s fn flags md fd s' :
  file_open W fn flags md s = Done (0%Z, fd) s' →
  ∃ v (ft : filetable) k,
    vfs_open_fn W (trace s) fn flags md = (0%Z, v) ∧ files s = Some ft ∧
    ft !! k = Some None ∧ (∀ j, j < k → ft !! j ≠ Some None) ∧ fd = Some (Z.of_nat k) ∧
    s' = set_files (Some (<[k := Some (fresh (dom (heap s)))]> ft))
           (handle_ready s fn flags md v).
Proof.
  intros H. apply file_open_inv in H.
  destruct (vfs_open_fn W (trace s) fn flags md) as [r0 v] eqn:Hv. cbn [fst snd] in H.
  destruct H as [(? & ? & _)|[(_ & E & _)|[(_ & E & _)|[(_ & E & _)|
                 (-> & _ & _ & ft & k & Hf & Hk & _ & Hmin & -> & ->)]]]].
  - congruence.
  - by destruct ENOMEM_nonzero.
  - by destruct ENOMEM_nonzero.
  - by destruct EMFILE_nonzero.
  - by exists v, ft, k.
Qed.

(** Placing a handle in a table whose first slots are occupied and
    whose other slots are all empty. *)
Lemma place_after_prefix (pre : filetable) n k a :
  Forall (λ h, h ≠ None) pre →
  (pre ++ replicate n None) !! k = Some None →
  (∀ j, j < k → (pre ++ replicate n None) !! j ≠ Some None) →
  k = length pre ∧ 0 < n ∧
  <[k := Some a]> (pre ++ replicate n None) = (pre ++ [Some a]) ++ replicate (n - 1) None.
Proof.
  intros Hpre Hk Hmin.
  assert (length pre ≤ k) as Hge.
  { destruct (decide (length pre ≤ k)) as [|Hlt]; [done|].
    rewrite lookup_app_l in Hk by lia.
    rewrite Forall_lookup in Hpre. by destruct (Hpre k None Hk). }
  assert (0 < n) as Hn.
  { apply lookup_lt_Some in Hk. rewrite length_app, length_replicate in Hk. lia. }
  assert (k = length pre) as ->.
  { destruct (decide (k = length pre)) as [|Hne]; [done|].
    destruct (Hmin (length pre)); [lia|].
    rewrite lookup_app_r by lia. rewrite Nat.sub_diag. by apply lookup_replicate_2. }
  split_and!; [done..|].
  rewrite insert_app_r_alt by lia. rewrite Nat.sub_diag.
  destruct n as [|n]; [lia|]. simpl. rewrite Nat.sub_0_r. by rewrite <- app_assoc.
Qed.

(** A successful file_open on such a table. *)
Lemma file_open_success_on_prefix s fn flags md fd s' (pre : filetable) n :
  files s = Some (pre ++ replicate n None) → Forall (λ h, h ≠ None) pre →
  file_open W fn flags md s = Done (0%Z, fd) s' →
  ∃ v a l,
    0 < n ∧ fd = Some (Z.of_nat (length pre)) ∧ heap s !! a = None ∧
    heap s' = <[a := mk_openfile v (Some l) 0 (Z.land flags O_ACCMODE) 1]> (heap s) ∧
    files s' = Some ((pre ++ [Some a]) ++ replicate (n - 1) None) ∧
    trace s' = trace s ++ [EvVfsOpen fn flags md 0 v; EvKmalloc (Some a);
                           EvLockCreate (Some l)].
Proof.
  intros Hf Hpre H.
  apply file_open_success_inv in H as (v & ft & k & _ & Hf' & Hk & Hmin & -> & ->).
  assert (ft = pre ++ replicate n None) as -> by congruence.
  destruct (place_after_prefix pre n k (fresh (dom (heap s))) Hpre Hk Hmin) as (-> & Hn & Ht).
  exists v, (fresh (dom (heap s))), (fresh (locks s)).
  split_and!; try done; [apply fresh_addr_free|]. cbn. by rewrite Ht.
Qed.

(** A successful filetable_init leaves the three handles in slots 0, 1
    and 2, in the order of the opens. *)
Lemma filetable_init_success_inv s inpath outpath errpath s' :
  String.length inpath < 32 → String.length outpath < 32 → String.length errpath < 32 →
  files s = None → kmalloc_ok W (trace s) = true →
  filetable_init W inpath outpath errpath s = Done 0%Z s' →
  ∃ a0 a1 a2 l0 l1 l2 v0 v1 v2,
    a0 ≠ a1 ∧ a0 ≠ a2 ∧ a1 ≠ a2 ∧ 3 ≤ OPEN_MAX ∧
    files s' = Some ([Some a0; Some a1; Some a2] ++ replicate (OPEN_MAX - 3) None) ∧
    heap s' !! a0 = Some (mk_openfile v0 (Some l0) 0 O_RDONLY 1) ∧
    heap s' !! a1 = Some (mk_openfile v1 (Some l1) 0 O_WRONLY 1) ∧
    heap s' !! a2 = Some (mk_openfile v2 (Some l2) 0 O_WRONLY 1) ∧
    trace s' = trace s ++ [EvKmallocTable true;
                           EvVfsOpen inpath O_RDONLY 0 0 v0; EvKmalloc (Some a0);
                           EvLockCreate (Some l0);
                           EvVfsOpen outpath O_WRONLY 0 0 v1; EvKmalloc (Some a1);
                           EvLockCreate (Some l1);
                           EvVfsOpen errpath O_WRONLY 0 0 v2; EvKmalloc (Some a2);
                           EvLockCreate (Some l2)].
Proof.
  intros H1 H2 H3 Hf Hk H. rewrite filetable_init_prefix in H by done.
  apply bind_inv in H as ([r1 fd1] & s1 & Ho1 & H).
  destruct (nonzero r1) eqn:E1.
  { apply ret_inv in H as [<- _]. done. }
  apply nonzero_false_inv in E1 as ->.
  apply bind_inv in H as ([r2 fd2] & s2 & Ho2 & H).
  destruct (nonzero r2) eqn:E2.
  { apply ret_inv in H as [<- _]. done. }
  apply nonzero_false_inv in E2 as ->.
  apply bind_inv in H as ([r3 fd3] & s3 & Ho3 & H).
  destruct (nonzero r3) eqn:E3.
  { apply ret_inv in H as [<- _]. done. }
  apply nonzero_false_inv in E3 as ->. apply ret_inv in H as [_ ->].
  apply (file_open_success_on_prefix _ _ _ _ _ _ [] OPEN_MAX) in Ho1
    as (v0 & a0 & l0 & Hn0 & _ & Hfr0 & Hh0 & Hf0 & Ht0); [|done|done].
  apply (file_open_success_on_prefix _ _ _ _ _ _ ([] ++ [Some a0]) (OPEN_MAX - 1)) in Ho2
    as (v1 & a1 & l1 & Hn1 & _ & Hfr1 & Hh1 & Hf1 & Ht1); [|done|by repeat constructor].
  apply (file_open_success_on_prefix _ _ _ _ _ _ (([] ++ [Some a0]) ++ [Some a1])
           (OPEN_MAX - 1 - 1)) in Ho3
    as (v2 & a2 & l2 & Hn2 & _ & Hfr2 & Hh2 & Hf2 & Ht2); [|done|by repeat constructor].
  cbn [heap table_ready trace] in Hh0, Ht0.
  rewrite O_RDONLY_masked in Hh0. rewrite O_WRONLY_masked in Hh1, Hh2.
  assert (a0 ≠ a1) as Hne01.
  { intros <-. by rewrite Hh0, lookup_insert_eq in Hfr1. }
  assert (a1 ≠ a2) as Hne12.
  { intros <-. by rewrite Hh1, lookup_insert_eq in Hfr2. }
  assert (a0 ≠ a2) as Hne02.
  { intros <-. rewrite Hh1, lookup_insert_ne, Hh0, lookup_insert_eq in Hfr2; done. }
  exists a0, a1, a2, l0, l1, l2, v0, v1, v2. split_and!; try done.
  - lia.
  - rewrite Hf2. cbn [app]. do 5 f_equal. lia.
  - by rewrite Hh2, lookup_insert_ne, Hh1, lookup_insert_ne, Hh0, lookup_insert_eq.
  - by rewrite Hh2, lookup_insert_ne, Hh1, lookup_insert_eq.
  - by rewrite Hh2, lookup_insert_eq.
  - rewrite Ht2, Ht1, Ht0. by rewrite <- !app_assoc.
Qed.

Lemma filetable_init_returns_inv s inpath outpath errpath r s' :
  filetable_init W inpath outpath errpath s = Done r s' →
  String.length inpath < 32 ∧ String.length outpath < 32 ∧ String.length errpath < 32 ∧
  files s = None.
Proof.
  intros H.
  destruct (decide (String.length inpath < 32)); cycle 1.
  { rewrite filetable_init_panics in H; [done|lia]. }
  destruct (decide (String.length outpath < 32)); cycle 1.
  { rewrite filetable_init_panics in H; [done|lia]. }
  destruct (decide (String.length errpath < 32)); cycle 1.
  { rewrite filetable_init_panics in H; [done|lia]. }
  destruct (decide (files s = None)); cycle 1.
  { rewrite filetable_init_panics in H; [done|auto]. }
  done.
Qed.

Lemma filetable_init_success_memory s inpath outpath errpath s' :
  filetable_init W inpath outpath errpath s = Done 0%Z s' → kmalloc_ok W (trace s) = true.
Proof.
  intros H. destruct (filetable_init_returns_inv _ _ _ _ _ _ H) as (H1 & H2 & H3 & Hf).
  destruct (kmalloc_ok W (trace s)) eqn:Hk; [done|].
  rewrite filetable_init_no_memory in H by done.
  injection H as E _. by destruct ENOMEM_nonzero.
Qed.

(** C8. A successful filetable_init started without a table: the table
    was allocated and emptied, then the three paths were opened in the
    order stdin, stdout, stderr, each handle going to the lowest free
    slot, so that descriptor 0 is the read-only handle of the first
    path, 1 the handle of the second and 2 the handle of the third, and
    every other slot is empty.  An error of any of the three opens ends
    filetable_init at once with that error. *)
Theorem filetable_init_standard_descriptors (s : kstate) (inpath outpath errpath : string) :
  (∀ s', filetable_init W inpath outpath errpath s = Done 0%Z s' →
     files s = None ∧
     ∃ a0 a1 a2 l0 l1 l2 v0 v1 v2,
       a0 ≠ a1 ∧ a0 ≠ a2 ∧ a1 ≠ a2 ∧ 3 ≤ OPEN_MAX ∧
       files s' = Some ([Some a0; Some a1; Some a2] ++ replicate (OPEN_MAX - 3) None) ∧
       heap s' !! a0 = Some (mk_openfile v0 (Some l0) 0 O_RDONLY 1) ∧
       heap s' !! a1 = Some (mk_openfile v1 (Some l1) 0 O_WRONLY 1) ∧
       heap s' !! a2 = Some (mk_openfile v2 (Some l2) 0 O_WRONLY 1) ∧
       trace s' = trace s ++ [EvKmallocTable true;
                              EvVfsOpen inpath O_RDONLY 0 0 v0; EvKmalloc (Some a0);
                              EvLockCreate (Some l0);
                              EvVfsOpen outpath O_WRONLY 0 0 v1; EvKmalloc (Some a1);
                              EvLockCreate (Some l1);
                              EvVfsOpen errpath O_WRONLY 0 0 v2; EvKmalloc (Some a2);
                              EvLockCreate (Some l2)])
  ∧ (String.length inpath < 32 → String.length outpath < 32 →
     String.length errpath < 32 → files s = None → kmalloc_ok W (trace s) = true →
     (∀ r fd s1,
        file_open W inpath O_RDONLY 0 (table_ready s) = Done (r, fd) s1 → r ≠ 0%Z →
        filetable_init W inpath outpath errpath s = Done r s1)
     ∧ (∀ fd0 s1 r fd s2,
        file_open W inpath O_RDONLY 0 (table_ready s) = Done (0%Z, fd0) s1 →
        file_open W outpath O_WRONLY 0 s1 = Done (r, fd) s2 → r ≠ 0%Z →
        filetable_init W inpath outpath errpath s = Done r s2)
     ∧ (∀ fd0 s1 fd1 s2 r fd s3,
        file_open W inpath O_RDONLY 0 (table_ready s) = Done (0%Z, fd0) s1 →
        file_open W outpath O_WRONLY 0 s1 = Done (0%Z, fd1) s2 →
        file_open W errpath O_WRONLY 0 s2 = Done (r, fd) s3 →
        filetable_init W inpath outpath errpath s = Done r s3)).
Proof.
  split.
  - intros s' H.
    destruct (filetable_init_returns_inv _ _ _ _ _ _ H) as (H1 & H2 & H3 & Hf).
    split; [done|].
    apply (filetable_init_success_inv s inpath outpath errpath s'); try done.
    by eapply filetable_init_success_memory.
  - intros H1 H2 H3 Hf Hk. split_and!.
    + intros r fd s1 Ho1 Hr. rewrite filetable_init_prefix by done.
      unfold bind. rewrite Ho1. by rewrite nonzero_true.
    + intros fd0 s1 r fd s2 Ho1 Ho2 Hr. rewrite filetable_init_prefix by done.
      unfold bind. rewrite Ho1, nonzero_0, Ho2. by rewrite nonzero_true.
    + intros fd0 s1 fd1 s2 r fd s3 Ho1 Ho2 Ho3. rewrite filetable_init_prefix by done.
      unfold bind. rewrite Ho1, nonzero_0, Ho2, nonzero_0, Ho3.
      destruct (nonzero r) eqn:E; [done|]. by apply nonzero_false_inv in E as ->.
Qed.

(** C10. filetable_init asserts that each of the three paths is
    shorter than 32 bytes and that the process has no table yet: a path
    of 32 bytes or more, or a process that already has a table, makes it
    panic instead of returning an error; in particular a second
    filetable_init after a successful one panics.  When the assertions
    hold it returns. *)
Theorem filetable_init_asserts (s : kstate) (inpath outpath errpath : string) :
  (32 ≤ String.length inpath ∨ 32 ≤ String.length outpath ∨ 32 ≤ String.length errpath
   ∨ files s ≠ None →
   filetable_init W inpath outpath errpath s = Panic)
  ∧ (∀ s' in2 out2 err2,
       filetable_init W inpath outpath errpath s = Done 0%Z s' →
       filetable_init W in2 out2 err2 s' = Panic)
  ∧ (String.length inpath < 32 → String.length outpath < 32 →
     String.length errpath < 32 → files s = None →
     ∃ r s', filetable_init W inpath outpath errpath s = Done r s').
Proof.
  split_and!; [apply filetable_init_panics| |].
  { intros s' in2 out2 err2 H.
    destruct (filetable_init_returns_inv _ _ _ _ _ _ H) as (H1 & H2 & H3 & Hf).
    destruct (filetable_init_success_inv s inpath outpath errpath s' H1 H2 H3 Hf)
      as (a0 & a1 & a2 & l0 & l1 & l2 & v0 & v1 & v2 & _ & _ & _ & _ & Hf' & _);
      [by eapply filetable_init_success_memory|done|].
    apply filetable_init_panics. do 3 right. by rewrite Hf'. }
  intros H1 H2 H3 Hf.
  destruct (kmalloc_ok W (trace s)) eqn:Hk; cycle 1.
  { rewrite filetable_init_no_memory by done. eauto. }
  rewrite filetable_init_prefix by done.
  destruct (file_open_total W (table_ready s) (replicate OPEN_MAX None) inpath O_RDONLY 0)
    as (r1 & fd1 & s1 & ft1 & Ho1 & Hf1 & Hlen1);
    [done|by rewrite length_replicate|apply valid_mode_rdonly|].
  unfold bind at 1. rewrite Ho1. destruct (nonzero r1); [eauto|].
  destruct (file_open_total W s1 ft1 outpath O_WRONLY 0)
    as (r2 & fd2 & s2 & ft2 & Ho2 & Hf2 & Hlen2); [done|done|apply valid_mode_wronly|].
  unfold bind at 1. rewrite Ho2. destruct (nonzero r2); [eauto|].
  destruct (file_open_total W s2 ft2 errpath O_WRONLY 0)
    as (r3 & fd3 & s3 & ft3 & Ho3 & Hf3 & Hlen3); [done|done|apply valid_mode_wronly|].
  unfold bind at 1. rewrite Ho3. destruct (nonzero r3); eauto.
Qed.

End Init.

Section Failures.
Context `{KC : kern_consts} (W : world).

(** C9. file_doclose returns 0 whenever it returns, and it returns for
    every allocated handle with a live lock and a count of at least 1.
    So file_close can only fail with EBADF, leaving the state as it
    was, and whenever the lookup succeeded it returns 0: the release
    never sends it into the branch that leaves the file open for a
    retry, and the close filetable_dup2file performs on an occupied
    slot in range never makes it give up. *)
Theorem file_doclose_never_fails :
  (∀ s a f l, heap s !! a = Some f → lock f = Some l → l ∈ locks s → (1 ≤ refs f)%Z →
     ∃ s', file_doclose W a s = Done 0%Z s')
  ∧ (∀ s a r s', file_doclose W a s = Done r s' → nonzero r = false)
  ∧ (∀ s fd r s', file_close W fd s = Done r s' → r ≠ 0%Z → r = EBADF ∧ s' = s)
  ∧ (∀ s fd ft a r s', in_range fd → files s = Some ft →
       ft !! Z.to_nat fd = Some (Some a) → file_close W fd s = Done r s' → nonzero r = false)
  ∧ (∀ s oldfd newfd r s', filetable_dup2file W oldfd newfd s = Done r s' → r ≠ 0%Z →
       r = EBADF ∧ s' = s).
Proof.
  split_and!.
  - intros s a f l Hh Hl Hin Hr.
    by apply (file_doclose_total W s a f l).
  - intros s a r s' H.
    by destruct (file_doclose_cases W _ _ _ _ H) as (_ & _ & _ & _ & _ & -> & _).
  - intros s fd r s' H Hnz.
    apply file_close_inv in H as [(-> & -> & _)|(-> & _)]; done.
  - intros s fd ft a r s' Hr Hf Hs H.
    apply file_close_inv in H as [(_ & _ & [Hc|(ft' & Hf' & Hs')])|(-> & _)]; [done| |done].
    congruence.
  - intros s oldfd newfd r s' H Hnz. by apply (filetable_dup2file_error W s oldfd newfd).
Qed.

End Failures.


(** * The properties on concrete runs *)

Lemma file_doclose_keeps_refcount_invariant_witness :
  (∃ s', file_doclose calm_world 1%positive st_init = Done 0%Z s' ∧ refcount_inv s'
         ∧ heap s' !! 1%positive = None
         ∧ trace s' = trace st_init ++ [EvVfsClose 2%positive 0; EvLockDestroy 1%positive;
                                        EvKfree 1%positive])
  ∧ (∃ s', file_doclose calm_world 1%positive st_dup = Done 0%Z s' ∧ refcount_inv s'
           ∧ heap s' = <[1%positive := mk_openfile 2%positive (Some 1%positive) 0 0 1]>
                         (heap st_dup)
           ∧ trace s' = trace st_dup
           ∧ kfree_count 1%positive
               (trace (state_after (release_all calm_world [1; 1]%positive) st_dup))
               ≤ kfree_count 1%positive (trace st_dup) + 1).
Proof.
  split.
  - destruct (file_doclose_keeps_refcount_invariant calm_world st_init 1%positive
                (mk_openfile 2%positive (Some 1%positive) 0 0 1) 1%positive)
      as (s' & Hrun & Hinv & Hiff & Hlast & _ & _);
      [compute_done|vm_compute; reflexivity|reflexivity|compute_done|].
    exists s'. destruct (Hlast eq_refl) as (_ & _ & _ & Htr).
    split_and!; [exact Hrun|exact Hinv|by apply Hiff|exact Htr].
  - destruct (file_doclose_keeps_refcount_invariant calm_world st_dup 1%positive
                (mk_openfile 2%positive (Some 1%positive) 0 0 2) 1%positive)
      as (s' & Hrun & Hinv & _ & _ & Hshared & Honce);
      [compute_done|vm_compute; reflexivity|reflexivity|compute_done|].
    exists s'. destruct Hshared as (Hh & _ & _ & Htr); [done|].
    split_and!; [exact Hrun|exact Hinv|exact Hh|exact Htr|].
    apply (Honce [1; 1]%positive). vm_compute. reflexivity.
Defined.

Lemma file_doclose_returns_zero_witness :
  (∃ s', file_doclose flaky_world 1%positive st_init = Done 0%Z s'
         ∧ heap s' !! 1%positive = None
         ∧ trace s' = trace st_init ++ [EvVfsClose 2%positive 32; EvLockDestroy 1%positive;
                                        EvKfree 1%positive])
  ∧ (∃ s', file_doclose flaky_world 1%positive st_dup = Done 0%Z s'
           ∧ heap s' !! 1%positive = Some (mk_openfile 2%positive (Some 1%positive) 0 0 1)).
Proof.
  split.
  - destruct (file_doclose_returns_zero flaky_world st_init 1%positive
                (mk_openfile 2%positive (Some 1%positive) 0 0 1) 1%positive)
      as (s' & Hrun & Hlast & _);
      [vm_compute; reflexivity|reflexivity|compute_done|simpl; lia|].
    exists s'. destruct (Hlast eq_refl) as (Hh & Htr). split_and!; [exact Hrun|exact Hh|exact Htr].
  - destruct (file_doclose_returns_zero flaky_world st_dup 1%positive
                (mk_openfile 2%positive (Some 1%positive) 0 0 2) 1%positive)
      as (s' & Hrun & _ & Hshared);
      [vm_compute; reflexivity|reflexivity|compute_done|simpl; lia|].
    exists s'. destruct Hshared as (Hh & _); [simpl; lia|]. split; [exact Hrun|exact Hh].
Defined.

(** The handle at 1 holds its last reference and the VFS reports the
    error 32 for the close of its vnode, yet the release returns 0. *)
Lemma file_doclose_drops_close_status :
  heap st_init !! 1%positive = Some (mk_openfile 2%positive (Some 1%positive) 0 0 1)
  ∧ vfs_close_fn flaky_world (trace st_init) 2%positive = 32%Z
  ∧ ∃ s', file_doclose flaky_world 1%positive st_init = Done 0%Z s'
          ∧ 0%Z ≠ vfs_close_fn flaky_world (trace st_init) 2%positive.
Proof.
  split_and!; [vm_compute; reflexivity|reflexivity|].
  eexists. split; [vm_compute; reflexivity|]. simpl. lia.
Qed.

Lemma filetable_copy_shares_handles_witness :
  filetable_copy calm_world boot_state = Done (0%Z, None) boot_state
  ∧ filetable_copy (fixed_world 0 0 false true) st_init =
      Done (ENOMEM, None) (log (EvKmallocTable false) st_init)
  ∧ ∃ s', filetable_copy calm_world st_dup = Done (0%Z, files st_dup) s'
          ∧ heap s' !! 1%positive = Some (mk_openfile 2%positive (Some 1%positive) 0 0 4)
          ∧ heap s' !! 2%positive = Some (mk_openfile 5%positive (Some 2%positive) 0 1 2).
Proof.
  split_and!.
  - by apply (filetable_copy_shares_handles calm_world boot_state).
  - destruct (filetable_copy_shares_handles (fixed_world 0 0 false true) st_init) as (_ & H & _).
    apply (H (default [] (files st_init))); reflexivity.
  - destruct (filetable_copy_shares_handles calm_world st_dup) as (_ & _ & H).
    destruct (H (default [] (files st_dup))) as (s' & Hrun & _ & _ & _ & Hh);
      [reflexivity|reflexivity|reflexivity|apply table_okb_spec; vm_compute; reflexivity
      |compute_done|].
    exists s'. split_and!; [exact Hrun|rewrite Hh; vm_compute; reflexivity..].
Defined.

Lemma filetable_dup2file_aliases_witness :
  filetable_dup2file calm_world (-1) 0 st_init = Done EBADF st_init
  ∧ filetable_dup2file calm_world 7 0 st_init = Done EBADF st_init
  ∧ (∃ file, filetable_findfile 0 st_dup = Done (0%Z, Some file) st_dup
             ∧ filetable_findfile 5 st_dup = Done (0%Z, Some file) st_dup
             ∧ heap st_dup !! file = Some (mk_openfile 2%positive (Some 1%positive) 0 0 2))
  ∧ ∃ s', filetable_dup2file calm_world 0 1 st_init = Done 0%Z s'.
Proof.
  split_and!.
  - destruct (filetable_dup2file_aliases calm_world st_init (-1) 0) as (H & _).
    apply H. left. unfold in_range. cbn. lia.
  - destruct (filetable_dup2file_aliases calm_world st_init 7 0) as (_ & H & _).
    apply (H (default [] (files st_init))); [unfold in_range; cbn; lia..|reflexivity|reflexivity].
  - destruct (filetable_dup2file_aliases calm_world st_init 0 5) as (_ & _ & H & _).
    destruct (H st_dup) as (ft & file & f & _ & _ & Hf & Hs & Hh & _ & H0 & H5 & _ & Hcount & _);
      [lia|vm_compute; reflexivity|].
    assert (ft = default [] (files st_init)) as -> by (by rewrite Hf).
    vm_compute in Hs. injection Hs as <-. vm_compute in Hh. injection Hh as <-.
    exists 1%positive. split; [exact H0|]. split; [exact H5|].
    etrans; [apply Hcount|vm_compute; reflexivity].
    + unfold refs_fit. cbn. lia.
    + intros _. cbn. lia.
  - destruct (filetable_dup2file_aliases calm_world st_init 0 1) as (_ & _ & _ & H).
    apply (H (default [] (files st_init)) 1%positive
             (mk_openfile 2%positive (Some 1%positive) 0 0 1) 1%positive);
      [lia|unfold in_range; cbn; lia|unfold in_range; cbn; lia|reflexivity|reflexivity
      |vm_compute; reflexivity|reflexivity|compute_done|].
    right. exists 2%positive, (mk_openfile 5%positive (Some 2%positive) 0 1 1), 2%positive.
    split_and!; [reflexivity|vm_compute; reflexivity|reflexivity|compute_done|simpl; lia
                |discriminate|discriminate].
Defined.

(** Descriptors 0 and 1 already share the handle at 1, whose count is
    2; dup2(0, 1) succeeds and the count is still 2. *)
Lemma filetable_dup2file_alias_keeps_count :
  (0 ≠ 1)%Z
  ∧ filetable_findfile 0 st_alias = Done (0%Z, Some 1%positive) st_alias
  ∧ heap st_alias !! 1%positive = Some (mk_openfile 2%positive (Some 1%positive) 0 0 2)
  ∧ ∃ s', filetable_dup2file calm_world 0 1 st_alias = Done 0%Z s'
          ∧ heap s' !! 1%positive = Some (mk_openfile 2%positive (Some 1%positive) 0 0 2).
Proof.
  split_and!; [lia|vm_compute; reflexivity|vm_compute; reflexivity|].
  eexists. split; vm_compute; reflexivity.
Qed.

Lemma file_close_empties_the_slot_witness :
  file_close calm_world 200 st_init = Done EBADF st_init
  ∧ file_close calm_world 7 st_init = Done EBADF st_init
  ∧ (∃ s', file_close calm_world 0 st_init = Done 0%Z s'
           ∧ heap s' = delete 1%positive (heap st_init))
  ∧ (∃ s', file_close calm_world 5 st_dup = Done 0%Z s'
           ∧ heap s' = <[1%positive := mk_openfile 2%positive (Some 1%positive) 0 0 1]>
                         (heap st_dup))
  ∧ file_close_with failing_release 0 st_init = Done 32%Z st_init.
Proof.
  split_and!.
  - destruct (file_close_empties_the_slot calm_world st_init 200) as (H & _).
    apply H. unfold in_range. cbn. lia.
  - destruct (file_close_empties_the_slot calm_world st_init 7) as (_ & H & _).
    apply (H (default [] (files st_init))); [unfold in_range; cbn; lia|reflexivity|reflexivity].
  - destruct (file_close_empties_the_slot calm_world st_init 0) as (_ & _ & H & _).
    destruct (H (default [] (files st_init)) 1%positive
                (mk_openfile 2%positive (Some 1%positive) 0 0 1) 1%positive)
      as (s' & ft' & Hrun & _ & _ & _ & _ & _ & Hlast);
      [unfold in_range; cbn; lia|reflexivity|reflexivity|vm_compute; reflexivity
      |reflexivity|compute_done|simpl; lia|].
    exists s'. destruct (Hlast eq_refl) as (Hh & _). split; [exact Hrun|exact Hh].
  - destruct (file_close_empties_the_slot calm_world st_dup 5) as (_ & _ & H & _).
    destruct (H (default [] (files st_dup)) 1%positive
                (mk_openfile 2%positive (Some 1%positive) 0 0 2) 1%positive)
      as (s' & ft' & Hrun & _ & _ & _ & _ & Hshared & _);
      [unfold in_range; cbn; lia|reflexivity|reflexivity|vm_compute; reflexivity
      |reflexivity|compute_done|simpl; lia|].
    exists s'. destruct Hshared as (Hh & _); [simpl; lia|]. split; [exact Hrun|exact Hh].
  - destruct (file_close_empties_the_slot calm_world st_init 0) as (_ & _ & _ & H).
    apply (H failing_release (default [] (files st_init)) 1%positive);
      [unfold in_range; cbn; lia|reflexivity|reflexivity|reflexivity|lia].
Defined.

Lemma filetable_placefile_lowest_free_witness :
  (∃ s', filetable_placefile 9%positive st_hole = Done (0%Z, Some 1%Z) s'
         ∧ files s' = Some (<[1 := Some 9%positive]> (default [] (files st_hole))))
  ∧ (∃ k, default [] (files st_hole) !! k = Some None
          ∧ ∀ j, j < k → default [] (files st_hole) !! j ≠ Some None)
  ∧ @filetable_placefile tiny_consts 9%positive st_full = Done (EMFILE, None) st_full.
Proof.
  split_and!.
  - destruct (filetable_placefile_lowest_free st_hole (default [] (files st_hole)) 9%positive)
      as (H & _ & _); [reflexivity|reflexivity|].
    destruct (H 1) as (Hrun & _); [reflexivity| |].
    + intros j Hj. assert (j = 0) as -> by lia. vm_compute. discriminate.
    + eexists. split; [exact Hrun|reflexivity].
  - destruct (filetable_placefile_lowest_free st_hole (default [] (files st_hole)) 9%positive)
      as (_ & H & _); [reflexivity|reflexivity|].
    apply H. exists 1. reflexivity.
  - destruct (@filetable_placefile_lowest_free tiny_consts st_full
                (default [] (files st_full)) 9%positive) as (_ & _ & H);
      [reflexivity|reflexivity|].
    apply H. intros [|[|[|[|j]]]]; vm_compute; discriminate.
Defined.

Lemma file_open_releases_on_failure_witness :
  (∃ s', file_open (fixed_world 0 0 false true) con 2 0 st_init = Done (ENOMEM, None) s'
         ∧ heap s' = heap st_init ∧ locks s' = locks st_init ∧ files s' = files st_init)
  ∧ (∃ s', file_open (fixed_world 0 0 true false) con 2 0 st_init = Done (ENOMEM, None) s'
           ∧ heap s' = heap st_init ∧ locks s' = locks st_init ∧ files s' = files st_init)
  ∧ (∃ s', @file_open tiny_consts calm_world con 2 0 st_full = Done (EMFILE, None) s'
           ∧ heap s' = heap st_full ∧ locks s' = locks st_full ∧ files s' = files st_full)
  ∧ (∃ s', file_open calm_world con 2 0 st_init = Done (0%Z, Some 3%Z) s'
           ∧ heap s' = <[4%positive := mk_openfile 11%positive (Some 4%positive) 0 2 1]>
                         (heap st_init))
  ∧ ∃ r fd s', file_open calm_world con 2 0 st_init = Done (r, fd) s'.
Proof.
  split_and!.
  - destruct (file_open_releases_on_failure (fixed_world 0 0 false true) st_init con 2 0
                11%positive eq_refl) as (H & _).
    eexists. split; [vm_compute; reflexivity|].
    edestruct H as (_ & Hh & Hl & Hf & _); [vm_compute; reflexivity|discriminate|].
    split_and!; [exact Hh|exact Hl|exact Hf].
  - destruct (file_open_releases_on_failure (fixed_world 0 0 true false) st_init con 2 0
                11%positive eq_refl) as (H & _).
    eexists. split; [vm_compute; reflexivity|].
    edestruct H as (_ & Hh & Hl & Hf & _); [vm_compute; reflexivity|discriminate|].
    split_and!; [exact Hh|exact Hl|exact Hf].
  - destruct (@file_open_releases_on_failure tiny_consts calm_world st_full con 2 0
                14%positive eq_refl) as (H & _).
    eexists. split; [vm_compute; reflexivity|].
    edestruct H as (_ & Hh & Hl & Hf & _); [vm_compute; reflexivity|discriminate|].
    split_and!; [exact Hh|exact Hl|exact Hf].
  - destruct (file_open_releases_on_failure calm_world st_init con 2 0
                11%positive eq_refl) as (_ & H & _).
    eexists. split; [vm_compute; reflexivity|].
    edestruct H as (ft & k & _ & _ & _ & _ & _ & Hh & _); [vm_compute; reflexivity|].
    exact Hh.
  - destruct (file_open_releases_on_failure calm_world st_init con 2 0
                11%positive eq_refl) as (_ & _ & H).
    apply (H (default [] (files st_init))); reflexivity.
Defined.

Lemma filetable_init_standard_descriptors_witness :
  (files boot_state = None
   ∧ ∃ a0 a1 a2,
       files st_init = Some ([Some a0; Some a1; Some a2] ++ replicate (OPEN_MAX - 3) None)
       ∧ a0 ≠ a1 ∧ a0 ≠ a2 ∧ a1 ≠ a2)
  ∧ (∃ s', filetable_init (picky_world bad) bad con con boot_state = Done 19%Z s')
  ∧ (∃ s', filetable_init (picky_world bad) con bad con boot_state = Done 19%Z s')
  ∧ (∃ s', filetable_init (picky_world bad) con con bad boot_state = Done 19%Z s').
Proof.
  split; [|split; [|split]].
  - destruct (filetable_init_standard_descriptors calm_world boot_state con con con) as (H & _).
    destruct (H st_init) as (Hf & a0 & a1 & a2 & l0 & l1 & l2 & v0 & v1 & v2 &
                             H01 & H02 & H12 & _ & Hft & _); [vm_compute; reflexivity|].
    split; [exact Hf|]. exists a0, a1, a2. split_and!; [exact Hft|exact H01|exact H02|exact H12].
  - destruct (filetable_init_standard_descriptors (picky_world bad) boot_state bad con con)
      as (_ & H).
    destruct H as (H & _); [cbn; lia..|reflexivity|reflexivity|].
    eexists. eapply H; [vm_compute; reflexivity|discriminate].
  - destruct (filetable_init_standard_descriptors (picky_world bad) boot_state con bad con)
      as (_ & H).
    destruct H as (_ & H & _); [cbn; lia..|reflexivity|reflexivity|].
    eexists. eapply H; [vm_compute; reflexivity|vm_compute; reflexivity|discriminate].
  - destruct (filetable_init_standard_descriptors (picky_world bad) boot_state con con bad)
      as (_ & H).
    destruct H as (_ & _ & H); [cbn; lia..|reflexivity|reflexivity|].
    eexists. eapply H; vm_compute; reflexivity.
Defined.

Lemma file_doclose_never_fails_witness :
  (∃ s', file_doclose flaky_world 1%positive st_init = Done 0%Z s')
  ∧ nonzero 0 = false
  ∧ (file_close flaky_world 200 st_init = Done 30%Z st_init ∧ 30%Z = EBADF)
  ∧ (file_close flaky_world 0 st_init =
       Done 0%Z (state_after (file_close flaky_world 0) st_init))
  ∧ (filetable_dup2file flaky_world (-1) 0 st_init = Done 30%Z st_init ∧ 30%Z = EBADF).
Proof.
  destruct (file_doclose_never_fails flaky_world) as (Htot & Hzero & Hclose & Hfound & Hdup).
  split; [|split; [|split; [|split]]].
  - apply (Htot st_init 1%positive (mk_openfile 2%positive (Some 1%positive) 0 0 1) 1%positive);
      [vm_compute; reflexivity|reflexivity|compute_done|simpl; lia].
  - apply (Hzero st_init 1%positive 0%Z
             (state_after (file_doclose flaky_world 1%positive) st_init)).
    vm_compute. reflexivity.
  - assert (file_close flaky_world 200 st_init = Done 30%Z st_init) as Hrun
      by (vm_compute; reflexivity).
    split; [exact Hrun|]. apply (Hclose st_init 200%Z 30%Z st_init Hrun). discriminate.
  - assert (file_close flaky_world 0 st_init =
              Done 0%Z (state_after (file_close flaky_world 0) st_init)) as Hrun
      by (vm_compute; reflexivity).
    pose proof (Hfound st_init 0%Z (default [] (files st_init)) 1%positive 0%Z _
                  ltac:(unfold in_range; cbn; lia) eq_refl eq_refl Hrun) as _.
    exact Hrun.
  - assert (filetable_dup2file flaky_world (-1) 0 st_init = Done 30%Z st_init) as Hrun
      by (vm_compute; reflexivity).
    split; [exact Hrun|]. apply (Hdup st_init (-1)%Z 0%Z 30%Z st_init Hrun). discriminate.
Defined.

Lemma filetable_init_asserts_witness :
  filetable_init calm_world long_path con con boot_state = Panic
  ∧ filetable_init calm_world con con con st_init = Panic
  ∧ ∃ r s', filetable_init calm_world con con con boot_state = Done r s'.
Proof.
  split_and!.
  - destruct (filetable_init_asserts calm_world boot_state long_path con con) as (H & _).
    apply H. left. cbn. lia.
  - destruct (filetable_init_asserts calm_world boot_state con con con) as (_ & H & _).
    apply (H st_init). vm_compute. reflexivity.
  - destruct (filetable_init_asserts calm_world boot_state con con con) as (_ & _ & H).
    apply H; [cbn; lia..|reflexivity].
Defined.

(** * Further properties *)

Section Destroy.
Context `{KC : kern_consts} (W : world).

(** ** filetable_destroy *)

Lemma occurrences_cons a c hs :
  occurrences a (c :: hs) = (if decide (c = a) then 1 else 0) + occurrences a hs.
Proof.
  unfold occurrences. rewrite filter_cons.
  destruct (decide (c = a)); done.
Qed.

Lemma occurrences_pos a hs : a ∈ hs ↔ 0 < occurrences a hs.
Proof.
  induction hs as [|c hs IH].
  - split; [by intros ?%elem_of_nil|]. unfold occurrences. simpl. lia.
  - rewrite occurrences_cons, elem_of_cons. destruct (decide (c = a)) as [->|Hne].
    + split; [lia|auto].
    + rewrite IH. split; [intros [?|?]; [congruence|lia]|]. intros ?. right. lia.
Qed.

Lemma occurrences_slot_handles a (t : filetable) :
  occurrences a (slot_handles t) = alias_count a t.
Proof.
  unfold alias_count. induction t as [|h t IH]; [done|].
  rewrite filter_cons. destruct h as [b|].
  - change (slot_handles (Some b :: t)) with (b :: slot_handles t).
    rewrite occurrences_cons, IH. destruct (decide (b = a)) as [->|Hne].
    + by rewrite decide_True.
    + rewrite decide_False; [done|congruence].
  - change (slot_handles (None :: t)) with (slot_handles t).
    rewrite IH. by rewrite decide_False.
Qed.

Lemma elem_of_slot_handles a (t : filetable) : a ∈ slot_handles t ↔ Some a ∈ t.
Proof.
  unfold slot_handles. rewrite list_elem_of_omap. split.
  - intros (h & Hin & Hh). destruct h; simpl in Hh; congruence.
  - intros Hin. by exists (Some a).
Qed.

(** The loop releases the handles of the slots it scans, in slot
    order. *)
Lemma destroy_loop_release n : ∀ i (t : filetable) s,
  i + n ≤ length t →
  destroy_loop W n i t s = release_all W (slot_handles (take n (drop i t))) s.
Proof.
  induction n as [|n IH]; intros i t s Hlen; [done|].
  destruct (lookup_lt_is_Some_2 t i) as [h Hi]; [lia|].
  rewrite (drop_S _ _ _ Hi). cbn [take destroy_loop]. rewrite Hi. destruct h as [a|].
  - change (slot_handles (Some a :: take n (drop (S i) t)))
      with (a :: slot_handles (take n (drop (S i) t))).
    cbn [release_all]. unfold bind at 1 3.
    destruct (file_doclose W a s) as [r s1| |] eqn:Hd; [|done..].
    destruct (file_doclose_cases W _ _ _ _ Hd) as (_ & _ & _ & _ & _ & -> & _).
    unfold bind, kassert. cbn. apply IH. lia.
  - change (slot_handles (None :: take n (drop (S i) t)))
      with (slot_handles (take n (drop (S i) t))).
    apply IH. lia.
Qed.

Lemma counts_coverb_spec s hs : counts_coverb s hs = true → counts_cover s hs.
Proof.
  unfold counts_coverb. rewrite forallb_forall. intros H a Ha.
  specialize (H a ltac:(by apply list_elem_of_In)). cbn beta in H.
  destruct (heap s !! a) as [f|]; [|done]. destruct (lock f) as [l|] eqn:Hl; [|done].
  apply andb_true_iff in H as [H1 H2]. exists f, l.
  split_and!; [done|done|by apply bool_decide_eq_true in H1|lia].
Qed.

Lemma released_absent hs a f : a ∉ hs → released hs a f = Some f.
Proof.
  intros Ha. unfold released. rewrite decide_False by (intros [? _]; done).
  assert (occurrences a hs = 0) as ->.
  { destruct (occurrences a hs) eqn:E; [done|]. destruct Ha. apply occurrences_pos. lia. }
  f_equal. destruct f. unfold set_refs. simpl. f_equal. lia.
Qed.

Lemma lock_distinct_sub s s1 :
  (∀ a f, heap s1 !! a = Some f → ∃ g, heap s !! a = Some g ∧ lock g = lock f) →
  lock_distinct s → lock_distinct s1.
Proof.
  intros Hsub Hd a f Ha b g Hb Heq.
  destruct (Hsub a f Ha) as (f' & Ha' & Hf'). destruct (Hsub b g Hb) as (g' & Hb' & Hg').
  apply (Hd a f' Ha' b g' Hb'). congruence.
Qed.

Lemma released_cons_ne hs c a g : c ≠ a → released (c :: hs) a g = released hs a g.
Proof.
  intros Hne. unfold released. rewrite occurrences_cons, (decide_False (P := c = a)) by done.
  simpl.
  destruct (decide (a ∈ hs ∧ _)) as [[H1 H2]|Hn].
  - rewrite decide_True; [done|]. split; [by right|done].
  - rewrite decide_False; [done|]. intros [[?|?]%elem_of_cons ?]; [congruence|]. by apply Hn.
Qed.

Lemma released_cons_last hs c f :
  refs f = 1%Z → occurrences c hs = 0 → released (c :: hs) c f = None.
Proof.
  intros Hr Ho. unfold released. rewrite occurrences_cons, (decide_True (P := c = c)), Ho by done.
  rewrite decide_True; [done|]. split; [by left|]. rewrite Hr. done.
Qed.

Lemma released_cons_shared hs c f :
  (1 < refs f)%Z →
  released (c :: hs) c f = released hs c (set_refs (refs f - 1) f).
Proof.
  intros Hr. unfold released. rewrite occurrences_cons, (decide_True (P := c = c)) by done.
  simpl refs.
  destruct (decide (c ∈ hs ∧ _)) as [[H1 H2]|Hn].
  - rewrite decide_True; [done|]. split; [by left|lia].
  - rewrite decide_False.
    + unfold set_refs. simpl. do 2 f_equal. lia.
    + intros [_ H2]. apply Hn. split; [|lia]. apply occurrences_pos. lia.
Qed.

Lemma released_lock hs a g g' : released hs a g = Some g' → lock g' = lock g.
Proof. unfold released. destruct (decide _); [done|]. by intros [= <-]. Qed.

(** A run of releases on handles whose counts cover the run: each
    handle loses as many references as the run holds of it, and is
    destroyed, lock included, when that is all it had. *)
Lemma release_all_spec hs : ∀ s,
  lock_distinct s → counts_cover s hs →
  ∃ s', release_all W hs s = Done tt s'
    ∧ files s' = files s
    ∧ (∀ a, heap s' !! a = heap s !! a ≫= released hs a)
    ∧ locks s' ⊆ locks s
    ∧ (∀ a f l, heap s !! a = Some f → heap s' !! a = None → lock f = Some l →
         l ∉ locks s')
    ∧ (∀ a f l, heap s' !! a = Some f → lock f = Some l → l ∈ locks s → l ∈ locks s')
    ∧ (∀ l, l ∈ locks s →
         (∀ a f, heap s !! a = Some f → lock f = Some l → is_Some (heap s' !! a)) →
         l ∈ locks s').
Proof.
  induction hs as [|c hs IH]; intros s Hd Hc.
  - exists s. split_and!; try done.
    + intros a. destruct (heap s !! a) as [f|]; [|done]. simpl.
      by rewrite released_absent by apply not_elem_of_nil.
    + intros a f l H1 H2. congruence.
  - destruct (Hc c) as (f & l & Hh & Hl & Hin & Hr); [by left|].
    rewrite occurrences_cons, decide_True in Hr by done.
    cbn [release_all]. unfold bind.
    destruct (decide (refs f = 1%Z)) as [Hone|Hmany].
    + rewrite (file_doclose_last W s c f l) by done.
      assert (occurrences c hs = 0) as Ho by lia.
      assert (c ∉ hs) as Hnot by (rewrite occurrences_pos; lia).
      match goal with |- context [release_all W hs ?st] => set (s1 := st) end.
      destruct (IH s1) as (s' & Hrun & Hf & Hheap & Hsub & Hgone & Hkept & Hmore).
      { apply (lock_distinct_sub s); [|done]. intros a g Ha. simpl in Ha.
        apply lookup_delete_Some in Ha as [_ Ha]. eauto. }
      { intros a Ha. assert (c ≠ a) as Hne by congruence.
        destruct (Hc a) as (g & la & Hg & Hla & Hina & Hra); [by right|].
        rewrite occurrences_cons, decide_False in Hra by done.
        exists g, la. simpl. rewrite lookup_delete_ne by done.
        split_and!; try done. apply elem_of_difference. split; [done|].
        intros ->%elem_of_singleton. destruct Hne. apply (Hd c f Hh a g Hg). congruence. }
      exists s'. split_and!; try done.
      * intros a. rewrite Hheap. simpl. destruct (decide (a = c)) as [->|Hne].
        -- rewrite lookup_delete_eq, Hh. simpl. by rewrite released_cons_last.
        -- rewrite lookup_delete_ne by done. destruct (heap s !! a) as [g|]; [|done].
           simpl. by rewrite released_cons_ne.
      * intros x Hx. apply Hsub in Hx. simpl in Hx. by apply elem_of_difference in Hx as [? _].
      * intros a g la Ha Hnone Hla. destruct (decide (a = c)) as [->|Hne].
        -- assert (la = l) as -> by congruence. intros Hx. apply Hsub in Hx. simpl in Hx.
           apply elem_of_difference in Hx as [_ Hx]. apply Hx. by apply elem_of_singleton.
        -- apply (Hgone a g la); [|done..]. simpl. by rewrite lookup_delete_ne.
      * intros a g la Ha Hla Hina. apply (Hkept a g la Ha Hla). simpl.
        apply elem_of_difference. split; [done|]. intros ->%elem_of_singleton.
        rewrite Hheap in Ha. simpl in Ha.
        destruct (delete c (heap s) !! a) as [g0|] eqn:Hg0; [|done]. simpl in Ha.
        apply released_lock in Ha. apply lookup_delete_Some in Hg0 as [Hne Hg0].
        destruct Hne. apply (Hd c f Hh a g0 Hg0). congruence.
      * intros x Hx Hsurv. apply Hmore.
        -- simpl. apply elem_of_difference. split; [done|]. intros ->%elem_of_singleton.
           destruct (Hsurv c f Hh Hl) as [g Hg]. rewrite Hheap in Hg. simpl in Hg.
           by rewrite lookup_delete_eq in Hg.
        -- intros a g Ha Hla. simpl in Ha. apply lookup_delete_Some in Ha as [_ Ha].
           by apply (Hsurv a g).
    + assert (1 < refs f)%Z as Hgt by lia.
      rewrite (file_doclose_shared W s c f l) by done.
      match goal with |- context [release_all W hs ?st] => set (s1 := st) end.
      destruct (IH s1) as (s' & Hrun & Hf & Hheap & Hsub & Hgone & Hkept & Hmore).
      { apply (lock_distinct_sub s); [|done]. intros a g Ha. simpl in Ha.
        apply lookup_insert_Some in Ha as [[<- <-]|[_ Ha]]; eauto. }
      { intros a Ha. destruct (decide (c = a)) as [<-|Hne].
        - exists (set_refs (refs f - 1) f), l. simpl. rewrite lookup_insert_eq.
          split_and!; try done. lia.
        - destruct (Hc a) as (g & la & Hg & Hla & Hina & Hra); [by right|].
          rewrite occurrences_cons, decide_False in Hra by done.
          exists g, la. simpl. rewrite lookup_insert_ne by done. done. }
      exists s'. split_and!; try done.
      * intros a. rewrite Hheap. simpl. destruct (decide (a = c)) as [->|Hne].
        -- rewrite lookup_insert_eq, Hh. simpl. by rewrite released_cons_shared.
        -- rewrite lookup_insert_ne by done. destruct (heap s !! a) as [g|]; [|done].
           simpl. by rewrite released_cons_ne.
      * intros a g la Ha Hnone Hla. destruct (decide (a = c)) as [->|Hne].
        -- assert (g = f) as -> by congruence.
           apply (Hgone c (set_refs (refs f - 1) f) la); [|done..].
           simpl. by rewrite lookup_insert_eq.
        -- apply (Hgone a g la); [|done..]. simpl. by rewrite lookup_insert_ne.
      * intros x Hx Hsurv. apply Hmore; [done|].
        intros a g Ha Hla. simpl in Ha.
        apply lookup_insert_Some in Ha as [[<- <-]|[_ Ha]]; [by apply (Hsurv c f)|].
        by apply (Hsurv a g).
Qed.

(** A run of releases none of which is the last one of its handle
    only lowers the counts. *)
Lemma release_all_shared hs : ∀ s,
  (∀ a, a ∈ hs →
     ∃ f l, heap s !! a = Some f ∧ lock f = Some l ∧ l ∈ locks s ∧
            (Z.of_nat (occurrences a hs) < refs f)%Z) →
  ∃ s', release_all W hs s = Done tt s'
    ∧ files s' = files s ∧ locks s' = locks s ∧ trace s' = trace s
    ∧ ∀ a, heap s' !! a =
             (λ f, set_refs (refs f - Z.of_nat (occurrences a hs)) f) <$> heap s !! a.
Proof.
  induction hs as [|c hs IH]; intros s Hc.
  - exists s. split_and!; try done. intros a.
    destruct (heap s !! a) as [f|]; [|done]. simpl. f_equal.
    destruct f. unfold set_refs, occurrences. simpl. f_equal. lia.
  - destruct (Hc c) as (f & l & Hh & Hl & Hin & Hr); [by left|].
    rewrite occurrences_cons, decide_True in Hr by done.
    cbn [release_all]. unfold bind.
    rewrite (file_doclose_shared W s c f l) by (done || lia).
    match goal with |- context [release_all W hs ?st] => set (s1 := st) end.
    destruct (IH s1) as (s' & Hrun & Hf & Hlk & Htr & Hheap).
    { intros a Ha. destruct (decide (c = a)) as [<-|Hne].
      - exists (set_refs (refs f - 1) f), l. simpl. rewrite lookup_insert_eq.
        split_and!; try done. lia.
      - destruct (Hc a) as (g & la & Hg & Hla & Hina & Hra); [by right|].
        rewrite occurrences_cons, decide_False in Hra by done.
        exists g, la. simpl. rewrite lookup_insert_ne by done. done. }
    exists s'. split_and!; try done. intros a. rewrite Hheap. simpl.
    rewrite occurrences_cons. destruct (decide (c = a)) as [<-|Hne].
    + rewrite lookup_insert_eq, Hh. simpl. f_equal. unfold set_refs. simpl. f_equal. lia.
    + by rewrite lookup_insert_ne.
Qed.

Lemma filetable_destroy_run s (t : filetable) :
  length t = OPEN_MAX →
  filetable_destroy W (Some t) s =
    (release_all W (slot_handles t) ;;; fun s => Done tt (log EvKfreeTable s)) s.
Proof.
  intros Hlen. unfold filetable_destroy, bind at 1, kassert.
  rewrite bool_decide_eq_true_2 by done. cbn [ret]. unfold bind.
  rewrite destroy_loop_release by lia. by rewrite drop_0, <- Hlen, firstn_all.
Qed.

(** X1. filetable_destroy panics on a NULL table.  On a table of
    [OPEN_MAX] slots whose handles are allocated, have locks of their
    own and counts that cover the slots referring to them, it returns:
    every handle has lost one reference per slot of the table that
    referred to it; a handle all of whose references were in the table
    is freed and its lock destroyed, every other handle stays allocated
    with its lock; and the table is freed last. *)
Theorem filetable_destroy_releases (s : kstate) (t : filetable) :
  filetable_destroy W None s = Panic
  ∧ (length t = OPEN_MAX → lock_distinct s →
     (∀ a, Some a ∈ t →
        ∃ f l, heap s !! a = Some f ∧ lock f = Some l ∧ l ∈ locks s ∧
               (Z.of_nat (alias_count a t) ≤ refs f)%Z) →
     ∃ s', filetable_destroy W (Some t) s = Done tt s'
       ∧ files s' = files s
       ∧ (∀ a f, heap s !! a = Some f →
            heap s' !! a =
              if decide (Some a ∈ t ∧ refs f = Z.of_nat (alias_count a t))
              then None
              else Some (set_refs (refs f - Z.of_nat (alias_count a t)) f))
       ∧ (∀ a, heap s !! a = None → heap s' !! a = None)
       ∧ locks s' ⊆ locks s
       ∧ (∀ a f l, heap s !! a = Some f → heap s' !! a = None → lock f = Some l →
            l ∉ locks s')
       ∧ (∀ a f l, heap s' !! a = Some f → lock f = Some l → l ∈ locks s → l ∈ locks s')
       ∧ last (trace s') = Some EvKfreeTable).
Proof.
  split; [done|]. intros Hlen Hd Hc.
  destruct (release_all_spec (slot_handles t) s Hd)
    as (s1 & Hrun & Hf & Hheap & Hsub & Hgone & Hkept & _).
  { intros a Ha. apply elem_of_slot_handles in Ha.
    destruct (Hc a Ha) as (f & l & ? & ? & ? & ?). exists f, l.
    by rewrite occurrences_slot_handles. }
  exists (log EvKfreeTable s1). rewrite filetable_destroy_run by done.
  unfold bind. rewrite Hrun. split_and!; try done.
  - intros a f Ha. simpl. rewrite Hheap, Ha. simpl. unfold released.
    rewrite occurrences_slot_handles.
    destruct (decide (a ∈ slot_handles t ∧ _)) as [[H1 H2]|Hn].
    + rewrite decide_True; [done|]. split; [by apply elem_of_slot_handles|done].
    + rewrite decide_False; [done|]. intros [H1 H2]. apply Hn.
      split; [by apply elem_of_slot_handles|done].
  - intros a Ha. simpl. by rewrite Hheap, Ha.
  - simpl. by rewrite last_snoc.
Qed.

End Destroy.

Section RoundTrips.
Context `{KC : kern_consts} (W : world).

(** ** Operations undone by their counterpart *)

Lemma filetable_copy_run s (ft : filetable) :
  files s = Some ft → length ft = OPEN_MAX → kmalloc_ok W (trace s) = true →
  (∀ j a, ft !! j = Some (Some a) → handle_ok s a) →
  filetable_copy W s =
    Done (0%Z, Some ft)
      (mk_kstate (acquire_slots ft (heap s)) (locks s) (files s)
         (trace s ++ [EvKmallocTable true])).
Proof.
  intros Hf Hlen Hk Hok. unfold filetable_copy.
  unfold bind at 1. rewrite Hf.
  unfold bind at 1, kmalloc_table. rewrite Hk.
  destruct (copy_loop_spec OPEN_MAX 0 (log (EvKmallocTable true) s) ft
              (table_junk W <$> seq 0 OPEN_MAX))
    as (c' & Hrun & Hlen' & Hlook).
  - done.
  - lia.
  - by rewrite length_fmap, length_seq.
  - intros j a _ Hj. destruct (Hok j a Hj) as (f & l & ? & ? & ?). by exists f, l.
  - assert (c' = ft) as ->.
    { apply list_eq. intros j. rewrite Hlook.
      destruct (decide (0 ≤ j < 0 + OPEN_MAX)) as [|Hge]; [done|].
      rewrite (lookup_ge_None_2 ft) by lia.
      apply lookup_ge_None_2. rewrite length_fmap, length_seq. lia. }
    unfold bind. rewrite Hrun. rewrite drop_0, <- Hlen, firstn_all.
    unfold ret, set_heap, log. simpl. by rewrite Hf.
Qed.

(** X2. Copying the table and destroying the copy at once, as a fork
    whose child exits at once does, gives every count back, provided no
    count overflows the type of the field during the copy: heap, locks
    and the table of the process are as before the copy, and only the
    allocation and the release of the copy were added to the history. *)
Theorem filetable_copy_then_destroy (s : kstate) (ft : filetable) :
  files s = Some ft → length ft = OPEN_MAX → kmalloc_ok W (trace s) = true →
  refcount_inv s → (∀ j a, ft !! j = Some (Some a) → handle_ok s a) →
  counts_fit s ft →
  ∃ s1 s2, filetable_copy W s = Done (0%Z, Some ft) s1
    ∧ filetable_destroy W (Some ft) s1 = Done tt s2
    ∧ heap s2 = heap s ∧ locks s2 = locks s ∧ files s2 = files s
    ∧ trace s2 = trace s ++ [EvKmallocTable true; EvKfreeTable].
Proof.
  intros Hf Hlen Hk Hinv Hok Hfit.
  assert (∀ a, acquire_slots ft (heap s) !! a =
               (λ f, set_refs (refs f + Z.of_nat (alias_count a ft)) f) <$> heap s !! a)
    as Hlook.
  { intros a. apply acquire_slots_lookup. intros f Hh. apply (Hfit a f Hh). }
  set (s1 := mk_kstate (acquire_slots ft (heap s)) (locks s) (files s)
               (trace s ++ [EvKmallocTable true])).
  destruct (release_all_shared W (slot_handles ft) s1)
    as (s2 & Hrun & Hf2 & Hl2 & Ht2 & Hh2).
  { intros a Ha. apply elem_of_slot_handles, list_elem_of_lookup in Ha as [j Hj].
    destruct (Hok j a Hj) as (f & l & Hh & Hl & Hin).
    exists (set_refs (refs f + Z.of_nat (alias_count a ft)) f), l. simpl.
    rewrite Hlook, Hh. split_and!; try done.
    rewrite occurrences_slot_handles. simpl. specialize (Hinv a f Hh). simpl in Hinv. lia. }
  exists s1, (log EvKfreeTable s2). split; [by apply filetable_copy_run|].
  rewrite filetable_destroy_run by done. unfold bind. rewrite Hrun.
  split; [reflexivity|]. simpl. rewrite Hf2, Hl2, Ht2. simpl.
  split_and!; try done; [|by rewrite <- app_assoc].
  apply map_eq. intros a. rewrite Hh2. simpl.
  rewrite Hlook, occurrences_slot_handles.
  destruct (heap s !! a) as [f|]; [|done]. simpl. f_equal.
  destruct f. unfold set_refs. simpl. f_equal. lia.
Qed.

(** X3. The descriptor a successful file_open returns was free
    before, looks up to the new handle afterwards, and closing it at
    once succeeds and gives back everything the open took: heap, locks
    and table are as before the open. *)
Theorem file_open_then_close (s s1 : kstate) (fn : string) (flags md : Z) (fd : option Z) :
  file_open W fn flags md s = Done (0%Z, fd) s1 →
  ∃ k a f s2,
    fd = Some k ∧ in_range k
    ∧ filetable_findfile k s = Done (EBADF, None) s
    ∧ filetable_findfile k s1 = Done (0%Z, Some a) s1
    ∧ heap s1 !! a = Some f ∧ offset f = 0%Z ∧ refs f = 1%Z
    ∧ file_close W k s1 = Done 0%Z s2
    ∧ heap s2 = heap s ∧ locks s2 = locks s ∧ files s2 = files s.
Proof.
  intros H. apply file_open_inv in H.
  destruct (vfs_open_fn W (trace s) fn flags md) as [r0 v] eqn:Hv. cbn [fst snd] in H.
  destruct H as [(? & ? & _)|[(_ & E & _)|[(_ & E & _)|[(_ & E & _)|
                 (_ & _ & _ & ft & k & Hf & Hk & Hlt & _ & -> & ->)]]]].
  - congruence.
  - by destruct ENOMEM_nonzero.
  - by destruct ENOMEM_nonzero.
  - by destruct EMFILE_nonzero.
  - pose proof (lookup_lt_Some _ _ _ Hk) as Hlen.
    assert (in_range (Z.of_nat k)) as Hr by (unfold in_range; lia).
    set (a := fresh (dom (heap s))). set (l := fresh (locks s)).
    set (f := mk_openfile v (Some l) 0 (Z.land flags O_ACCMODE) 1).
    set (s1 := set_files (Some (<[k := Some a]> ft)) (handle_ready s fn flags md v)).
    assert (<[k := Some a]> ft !! Z.to_nat (Z.of_nat k) = Some (Some a)) as Hslot.
    { rewrite Nat2Z.id. by apply list_lookup_insert_eq. }
    assert (heap s1 !! a = Some f) as Hh by apply lookup_insert_eq.
    assert (l ∈ locks s1) as Hin by (apply elem_of_union_l; by apply elem_of_singleton).
    pose proof (file_close_last W s1 (<[k := Some a]> ft) (Z.of_nat k) a f l
                  Hr eq_refl Hslot Hh eq_refl Hin eq_refl) as Hclose.
    eexists (Z.of_nat k), a, f, _. split; [done|]. split; [done|].
    split; [|split; [|split; [done|split; [done|split; [done|split; [exact Hclose|]]]]]].
    + apply (filetable_findfile_empty s ft); [done..|]. by rewrite Nat2Z.id.
    + by apply (filetable_findfile_found s1 (<[k := Some a]> ft)).
    + simpl. split_and!.
      * apply delete_insert_id, fresh_addr_free.
      * apply fresh_lock_returned.
      * rewrite Nat2Z.id, list_insert_insert_eq, list_insert_id by done. done.
Qed.

(** X4. Once file_close has succeeded on a descriptor, the descriptor
    no longer looks up to anything, a second close of it fails with
    EBADF and changes nothing, and the next handle placed in the table
    gets a descriptor that is not above it. *)
Theorem file_close_frees_descriptor (s s1 : kstate) (fd : Z) :
  file_close W fd s = Done 0%Z s1 →
  filetable_findfile fd s1 = Done (EBADF, None) s1
  ∧ file_close W fd s1 = Done EBADF s1
  ∧ ∀ file, ∃ k s2,
      filetable_placefile file s1 = Done (0%Z, Some (Z.of_nat k)) s2 ∧ (Z.of_nat k ≤ fd)%Z.
Proof.
  intros H.
  apply file_close_inv in H as [(E & _)|(_ & Hr & ft & a & s0 & Hf & Hs & Hd & ->)];
    [by destruct EBADF_nonzero|].
  pose proof (lookup_lt_Some _ _ _ Hs) as Hlen.
  assert (<[Z.to_nat fd := None]> ft !! Z.to_nat fd = Some None) as Hnone
    by (by apply list_lookup_insert_eq).
  assert (filetable_findfile fd (set_files (Some (<[Z.to_nat fd := None]> ft)) s0) =
            Done (EBADF, None) (set_files (Some (<[Z.to_nat fd := None]> ft)) s0)) as Hfind
    by (by apply (filetable_findfile_empty _ (<[Z.to_nat fd := None]> ft))).
  split_and!; [done|by apply file_close_with_bad|].
  intros file.
  destruct (lowest_empty_slot (<[Z.to_nat fd := None]> ft)) as (k & Hk & Hmin); [eauto|].
  assert (k ≤ Z.to_nat fd) as Hle.
  { destruct (decide (k ≤ Z.to_nat fd)) as [|Hgt]; [done|].
    destruct (Hmin (Z.to_nat fd)); [lia|done]. }
  eexists k, _. split.
  - apply (placefile_loop_found _ _ _ (<[Z.to_nat fd := None]> ft)); [done|done| |].
    + unfold in_range in Hr. lia.
    + intros j Hj. apply Hmin. lia.
  - unfold in_range in Hr. lia.
Qed.

(** X5. filetable_dup2file of a descriptor onto itself is a lookup of
    that descriptor: it returns 0 when the descriptor is open and EBADF
    when it is out of range or not open, and it never changes the
    state. *)
Theorem filetable_dup2file_self_is_lookup (s : kstate) (fd : Z) :
  filetable_dup2file W fd fd s = (let! '(r, _) := filetable_findfile fd in ret r) s
  ∧ ∀ r s', filetable_dup2file W fd fd s = Done r s' →
      s' = s ∧ (r = 0%Z ∧ (∃ a, filetable_findfile fd s = Done (0%Z, Some a) s)
                ∨ r = EBADF ∧ filetable_findfile fd s = Done (EBADF, None) s).
Proof.
  assert (filetable_dup2file W fd fd s =
            (let! '(r, _) := filetable_findfile fd in ret r) s) as Heq.
  { unfold filetable_dup2file, filetable_findfile.
    destruct (decide (in_range fd)) as [Hr|Hr].
    - rewrite dup2_range_test_false, range_test_false by done.
      unfold bind. destruct (read_slot (Z.to_nat fd) s) as [[a|] s1| |]; try done.
      by rewrite Z.eqb_refl.
    - by rewrite dup2_range_test_true, range_test_true by auto. }
  split; [done|]. intros r s' H. rewrite Heq in H.
  apply bind_inv in H as ([r1 o] & s1 & Hfind & [-> ->]%ret_inv).
  pose proof Hfind as Hfind'.
  apply filetable_findfile_inv in Hfind' as [-> [(-> & -> & _)|(-> & _ & a & ft & -> & _)]].
  - split; [done|]. by right.
  - split; [done|]. left. eauto.
Qed.

End RoundTrips.

Section Invariants.
Context `{KC : kern_consts} (W : world).

(** ** The count of every handle stays at 1 or more *)

Lemma refcount_inv_same s s' : heap s' = heap s → refcount_inv s → refcount_inv s'.
Proof. unfold refcount_inv. by intros ->. Qed.

Lemma file_doclose_refcount_inv s a r s' :
  file_doclose W a s = Done r s' → refcount_inv s → refcount_inv s'.
Proof.
  intros H Hinv.
  apply file_doclose_cases in H as (f & l & Hh & _ & _ & _ & [[_ ->]|[Hgt ->]]).
  - by eapply refcount_inv_delete.
  - eapply (refcount_inv_insert s); [done| |done]. simpl. lia.
Qed.

Lemma file_open_refcount_inv s fn flags md r fd s' :
  file_open W fn flags md s = Done (r, fd) s' → refcount_inv s → refcount_inv s'.
Proof.
  intros H Hinv. apply file_open_inv in H. cbv zeta in H.
  destruct H as [(_ & _ & _ & ->)|[(_ & _ & _ & _ & st & ->)|[(_ & _ & _ & _ & st & ->)|
                 [(_ & _ & _ & _ & st & ->)|(_ & _ & _ & ft & k & _ & _ & _ & _ & _ & ->)]]]];
    try by apply (refcount_inv_same s).
  eapply (refcount_inv_insert s); [done| |done]. simpl. lia.
Qed.

Lemma file_close_refcount_inv s fd r s' :
  file_close W fd s = Done r s' → refcount_inv s → refcount_inv s'.
Proof.
  intros H Hinv.
  apply file_close_inv in H as [(_ & -> & _)|(_ & _ & ft & a & s1 & _ & _ & Hd & ->)]; [done|].
  apply (refcount_inv_same s1); [done|]. by eapply file_doclose_refcount_inv.
Qed.

Lemma dup2_install_refcount_inv s file newfd r s' :
  dup2_install file newfd s = Done r s' → refcount_inv s →
  (∀ f, heap s !! file = Some f → (refs f < REFS_MAX)%Z) → refcount_inv s'.
Proof.
  intros H Hinv Hroom.
  apply dup2_install_inv in H as (f & l & ft & Hh & _ & _ & _ & _ & _ & ->).
  eapply (refcount_inv_insert s); [done| |done]. simpl.
  specialize (Hinv file f Hh). simpl in Hinv.
  rewrite refs_incr_pos; [lia|done|by apply Hroom].
Qed.

(** What file_close leaves of a handle: its count, or one less. *)
Lemma file_close_count s fd r s' file f' :
  file_close W fd s = Done r s' → heap s' !! file = Some f' →
  ∃ f, heap s !! file = Some f ∧ (refs f' ≤ refs f)%Z.
Proof.
  intros H Hh'.
  apply file_close_inv in H as [(_ & -> & _)|(_ & _ & ft & a & s1 & _ & _ & Hd & ->)].
  { exists f'. split; [done|lia]. }
  simpl in Hh'.
  apply file_doclose_cases in Hd as (g & l & Hg & _ & _ & _ & [[_ ->]|[_ ->]]); simpl in Hh'.
  - apply lookup_delete_Some in Hh' as [_ Hh']. exists f'. split; [done|lia].
  - apply lookup_insert_Some in Hh' as [[<- <-]|[_ Hh']].
    + exists g. split; [done|]. simpl. lia.
    + exists f'. split; [done|lia].
Qed.

Lemma filetable_dup2file_refcount_inv s a b r s' :
  filetable_dup2file W a b s = Done r s' → refcount_inv s → has_room s a →
  refcount_inv s'.
Proof.
  intros H Hinv Hroom.
  apply filetable_dup2file_inv in H
    as [(_ & -> & _)|(_ & _ & ft & file & Hf & Hs &
                      [(_ & _ & ->)|[(_ & _ & Hi)|(_ & o & s1 & _ & Hc & Hi)]])]; try done.
  - eapply dup2_install_refcount_inv; [done|done|].
    intros f Hh. by apply (has_room_spec s ft a file f).
  - eapply dup2_install_refcount_inv; [done|by eapply file_close_refcount_inv|].
    intros f1 Hh1. destruct (file_close_count _ _ _ _ _ _ Hc Hh1) as (f & Hh & Hle).
    pose proof (has_room_spec s ft a file f Hroom Hf Hs Hh). lia.
Qed.

(** The loop over the slots [i], ..., [i + n - 1], when the counts have
    room for the references these slots take. *)
Lemma copy_loop_refcount_inv n : ∀ i c s c' s' (ft : filetable),
  copy_loop n i c s = Done c' s' → files s = Some ft → refcount_inv s →
  counts_fit s (take n (drop i ft)) → refcount_inv s'.
Proof.
  induction n as [|n IH]; intros i c s c' s' ft H Hf Hinv Hfit; cbn [copy_loop] in H.
  - by apply ret_inv in H as [_ ->].
  - apply bind_inv in H as (h & ? & [-> (ft' & Hf' & Hi)]%read_slot_inv & H).
    assert (ft' = ft) as -> by congruence.
    rewrite (drop_S _ _ _ Hi) in Hfit. cbn [take] in Hfit.
    assert (∀ b, alias_count b (h :: take n (drop (S i) ft)) =
                 (if decide (h = Some b) then 1 else 0)
                 + alias_count b (take n (drop (S i) ft))) as Hcount.
    { intros b. unfold alias_count. rewrite filter_cons.
      by destruct (decide (h = Some b)). }
    destruct h as [a|].
    + apply bind_inv in H as (f & ? & [Hh ->]%load_inv & H).
      apply bind_inv in H as (? & ? & (l & _ & _ & ->)%lock_acquire_inv & H).
      apply bind_inv in H as (f1 & ? & [Hh1 ->]%load_inv & H).
      apply bind_inv in H as (? & s1 & (f2 & Hh2 & ->)%update_inv & H).
      apply bind_inv in H as (f3 & ? & [_ ->]%load_inv & H).
      apply bind_inv in H as (? & ? & (l' & _ & _ & ->)%lock_release_inv & H).
      apply bind_inv in H as (h & ? & [-> _]%read_slot_inv & H).
      assert (f2 = f1) as -> by congruence.
      pose proof (Hinv a f1 Hh1) as Hone. simpl in Hone.
      destruct (Hfit a f1 Hh1) as [_ Hhi]. rewrite Hcount, decide_True in Hhi by done.
      assert (refs_incr (refs f1) = (refs f1 + 1)%Z) as Hincr
        by (apply refs_incr_pos; lia).
      apply (IH _ _ _ _ _ ft) in H; [done|done| |].
      * eapply (refcount_inv_insert s); [done| |done]. simpl. lia.
      * intros b g Hb. simpl in Hb. apply lookup_insert_Some in Hb as [[<- <-]|[Hne Hb]].
        -- simpl. rewrite Hincr. pose proof REFS_MIN_nonpos. lia.
        -- destruct (Hfit b g Hb) as [Hlo Hhi']. rewrite Hcount in Hhi'.
           split; [done|]. lia.
    + apply (IH _ _ _ _ _ ft) in H; [done|done|done|].
      intros b g Hb. destruct (Hfit b g Hb) as [Hlo Hhi]. rewrite Hcount in Hhi.
      split; [done|]. lia.
Qed.

Lemma filetable_copy_refcount_inv s r c s' :
  filetable_copy W s = Done (r, c) s' → refcount_inv s →
  (∀ ft, files s = Some ft → counts_fit s ft) → refcount_inv s'.
Proof.
  intros H Hinv Hfit. unfold filetable_copy in H.
  apply bind_inv in H as (ft & ? & [= <- <-] & H). destruct (files s) as [ft|] eqn:Hf.
  - apply bind_inv in H as (t & s1 & Hk & H). unfold kmalloc_table in Hk.
    assert (heap s1 = heap s ∧ files s1 = files s) as [Hsame Hfiles]
      by (destruct (kmalloc_ok W (trace s)); by injection Hk as <- <-).
    destruct t as [t|].
    + apply bind_inv in H as (c0 & s2 & Hl & [_ ->]%ret_inv).
      eapply (copy_loop_refcount_inv _ _ _ _ _ _ ft); [done|by rewrite Hfiles|
        by apply (refcount_inv_same s)|].
      unfold counts_fit. rewrite Hsame. intros b g Hb.
      destruct (Hfit ft eq_refl b g Hb) as [Hlo Hhi]. split; [done|].
      assert (alias_count b (take OPEN_MAX (drop 0 ft)) ≤ alias_count b ft); [|lia].
      rewrite drop_0. rewrite <- (take_drop OPEN_MAX ft) at 2.
      unfold alias_count. rewrite filter_app, length_app. lia.
    + apply ret_inv in H as [_ ->]. by apply (refcount_inv_same s).
  - by apply ret_inv in H as [_ ->].
Qed.

Lemma destroy_loop_refcount_inv n : ∀ i t s u s',
  destroy_loop W n i t s = Done u s' → refcount_inv s → refcount_inv s'.
Proof.
  induction n as [|n IH]; intros i t s u s' H Hinv; cbn [destroy_loop] in H.
  - by apply ret_inv in H as [_ ->].
  - destruct (t !! i) as [[a|]|]; [| |done].
    + apply bind_inv in H as (r & s1 & Hd & H).
      apply bind_inv in H as (? & ? & [_ ->]%kassert_inv & H).
      apply IH in H; [done|]. by eapply file_doclose_refcount_inv.
    + by apply IH in H.
Qed.

Lemma filetable_destroy_refcount_inv s t u s' :
  filetable_destroy W t s = Done u s' → refcount_inv s → refcount_inv s'.
Proof.
  intros H Hinv. unfold filetable_destroy in H.
  apply bind_inv in H as (? & ? & [_ ->]%kassert_inv & H). destruct t as [t|]; [|done].
  apply bind_inv in H as (? & s1 & Hl & [= _ <-]).
  apply (refcount_inv_same s1); [done|]. by eapply destroy_loop_refcount_inv.
Qed.

Lemma filetable_init_refcount_inv s inpath outpath errpath r s' :
  filetable_init W inpath outpath errpath s = Done r s' → refcount_inv s → refcount_inv s'.
Proof.
  intros H Hinv.
  destruct (filetable_init_returns_inv W _ _ _ _ _ _ H) as (H1 & H2 & H3 & Hf).
  destruct (kmalloc_ok W (trace s)) eqn:Hk; cycle 1.
  { rewrite filetable_init_no_memory in H by done. by injection H as _ <-. }
  rewrite filetable_init_prefix in H by done.
  assert (refcount_inv (table_ready s)) as Hinv0 by done.
  apply bind_inv in H as ([r1 fd1] & s1 & Ho1 & H).
  apply file_open_refcount_inv in Ho1; [|done].
  destruct (nonzero r1); [by apply ret_inv in H as [_ ->]|].
  apply bind_inv in H as ([r2 fd2] & s2 & Ho2 & H).
  apply file_open_refcount_inv in Ho2; [|done].
  destruct (nonzero r2); [by apply ret_inv in H as [_ ->]|].
  apply bind_inv in H as ([r3 fd3] & s3 & Ho3 & H).
  apply file_open_refcount_inv in Ho3; [|done].
  destruct (nonzero r3); by apply ret_inv in H as [_ ->].
Qed.

(** X6. Whatever file_open, file_close, filetable_dup2file,
    filetable_copy, filetable_init and filetable_destroy return, they
    leave every allocated handle with a count of 1 or more, provided
    this held before the call and, for the two operations that take
    references, the counts have room for them: for filetable_dup2file
    the count of the handle of the old descriptor is below the greatest
    value of its type, for filetable_copy no count overflows when each
    slot of the table takes a reference. *)
Theorem operations_keep_refcount_invariant (s : kstate) :
  refcount_inv s →
  (∀ fn flags md r fd s', file_open W fn flags md s = Done (r, fd) s' → refcount_inv s')
  ∧ (∀ fd r s', file_close W fd s = Done r s' → refcount_inv s')
  ∧ (∀ a b r s', has_room s a → filetable_dup2file W a b s = Done r s' → refcount_inv s')
  ∧ (∀ r c s', (∀ ft, files s = Some ft → counts_fit s ft) →
       filetable_copy W s = Done (r, c) s' → refcount_inv s')
  ∧ (∀ inpath outpath errpath r s',
       filetable_init W inpath outpath errpath s = Done r s' → refcount_inv s')
  ∧ (∀ t u s', filetable_destroy W t s = Done u s' → refcount_inv s').
Proof.
  intros Hinv. split_and!.
  - intros fn flags md r fd s' H. by eapply file_open_refcount_inv.
  - intros fd r s' H. by eapply file_close_refcount_inv.
  - intros a b r s' Hroom H. by eapply filetable_dup2file_refcount_inv.
  - intros r c s' Hfit H. by eapply filetable_copy_refcount_inv.
  - intros inpath outpath errpath r s' H. by eapply filetable_init_refcount_inv.
  - intros t u s' H. by eapply filetable_destroy_refcount_inv.
Qed.

End Invariants.


Section Safety.
Context `{KC : kern_consts} (W : world).

(** ** A consistent table stays consistent, and its operations return *)

Lemma table_wf_iff s : table_wf s ↔ ∃ ft : filetable, files s = Some ft ∧ consistent s ft.
Proof.
  unfold table_wf, consistent. destruct (files s) as [ft|]; cycle 1.
  { split; [done|]. by intros (? & ? & _). }
  split.
  - intros (Hlen & Hslots & Hh & Hd). exists ft. split_and!; try done.
    + intros b Hb. rewrite Forall_forall in Hslots. apply (Hslots (Some b) Hb).
    + intros b g Hb. destruct (Hh b g Hb) as (H1 & H2 & H3). split_and!; try done.
      unfold lock_live_in in H3. destruct (lock g) as [l|]; [eauto|done].
  - intros (ft' & [= <-] & Hlen & Hslots & Hh & Hd). split_and!; try done.
    + apply Forall_forall. intros [b|] Hb; [|done]. by apply Hslots.
    + intros b g Hb. destruct (Hh b g Hb) as (H1 & H2 & l & Hl & Hin). split_and!; try done.
      unfold lock_live_in. by rewrite Hl.
Qed.

Lemma consistent_ext s s' (ft : filetable) :
  heap s' = heap s → locks s' = locks s → consistent s ft → consistent s' ft.
Proof.
  unfold consistent, lock_distinct. intros -> ->. done.
Qed.

Lemma alias_count_pos a (ft : filetable) : Some a ∈ ft ↔ 0 < alias_count a ft.
Proof. by rewrite <- elem_of_slot_handles, occurrences_pos, occurrences_slot_handles. Qed.

Lemma alias_count_insert (ft : filetable) : ∀ i h0 h a,
  ft !! i = Some h0 →
  alias_count a (<[i := h]> ft) + (if decide (h0 = Some a) then 1 else 0) =
  alias_count a ft + (if decide (h = Some a) then 1 else 0).
Proof.
  unfold alias_count. induction ft as [|x ft IH]; intros i h0 h a Hi; [done|].
  destruct i as [|i]; simpl in Hi.
  - injection Hi as ->. simpl. rewrite !filter_cons.
    destruct (decide (h = Some a)), (decide (h0 = Some a)); simpl; lia.
  - simpl. rewrite !filter_cons. specialize (IH i h0 h a Hi).
    destruct (decide (x = Some a)); simpl; lia.
Qed.

Lemma consistent_handle s (ft : filetable) i a :
  consistent s ft → ft !! i = Some (Some a) →
  ∃ f l, heap s !! a = Some f ∧ lock f = Some l ∧ l ∈ locks s ∧ (1 ≤ refs f)%Z
         ∧ (Z.of_nat (alias_count a ft) ≤ refs f)%Z ∧ 0 < alias_count a ft.
Proof.
  intros (_ & Hslots & Hh & _) Hi.
  assert (Some a ∈ ft) as Hin by (apply list_elem_of_lookup; eauto).
  destruct (Hslots a Hin) as [f Hf]. destruct (Hh a f Hf) as (H1 & H2 & l & Hl & Hl').
  exists f, l. split_and!; try done. by apply alias_count_pos.
Qed.

(** Releasing the handle of a slot and emptying the slot. *)
Lemma consistent_release s (ft : filetable) i a r s1 :
  consistent s ft → ft !! i = Some (Some a) → file_doclose W a s = Done r s1 →
  consistent s1 (<[i := None]> ft).
Proof.
  intros Hwf Hi Hd. destruct (consistent_handle s ft i a Hwf Hi) as (f & l & Hh & Hl & Hin & Hr1 & Hrc & Hpos).
  destruct Hwf as (Hlen & Hslots & Hhs & Hdist).
  assert (∀ b, alias_count b (<[i := None]> ft) + (if decide (a = b) then 1 else 0)
               = alias_count b ft) as Hcount.
  { intros b. pose proof (alias_count_insert ft i (Some a) None b Hi) as E.
    rewrite (decide_False (P := None = Some b)) in E by done.
    destruct (decide (a = b)) as [->|Hne].
    - rewrite decide_True in E by done. lia.
    - rewrite decide_False in E by congruence. lia. }
  assert (∀ b, Some b ∈ <[i := None]> ft → Some b ∈ ft) as Hmem.
  { intros b Hb. apply alias_count_pos. apply alias_count_pos in Hb.
    specialize (Hcount b). lia. }
  apply file_doclose_cases in Hd as (f' & l' & Hh' & Hl' & _ & _ & Hcase).
  assert (f' = f) as -> by congruence. assert (l' = l) as -> by congruence.
  destruct Hcase as [[Hone ->]|[Hgt ->]].
  - assert (¬ Some a ∈ <[i := None]> ft) as Hgone.
    { intros Hb%alias_count_pos. specialize (Hcount a). rewrite decide_True in Hcount by done.
      lia. }
    split_and!.
    + by rewrite length_insert.
    + intros b Hb. simpl. assert (a ≠ b) by (intros ->; done).
      rewrite lookup_delete_ne by done. by apply Hslots, Hmem.
    + intros b g Hb. simpl in Hb. apply lookup_delete_Some in Hb as [Hne Hb].
      destruct (Hhs b g Hb) as (H1 & H2 & lb & Hlb & Hlb'). split_and!; [done| |].
      * specialize (Hcount b). rewrite decide_False in Hcount by done. lia.
      * exists lb. split; [done|]. simpl. apply elem_of_difference. split; [done|].
        intros ->%elem_of_singleton. destruct Hne. apply (Hdist a f Hh b g Hb). congruence.
    + apply (lock_distinct_sub s); [|done]. intros b g Hb. simpl in Hb.
      apply lookup_delete_Some in Hb as [_ Hb]. eauto.
  - split_and!.
    + by rewrite length_insert.
    + intros b Hb. simpl. apply lookup_insert_is_Some'. right. by apply Hslots, Hmem.
    + intros b g Hb. simpl in Hb. apply lookup_insert_Some in Hb as [[<- <-]|[Hne Hb]].
      * simpl. split_and!; [lia| |by exists l].
        specialize (Hcount a). rewrite decide_True in Hcount by done. lia.
      * destruct (Hhs b g Hb) as (H1 & H2 & H3). split_and!; [done| |done].
        specialize (Hcount b). rewrite decide_False in Hcount by done. lia.
    + apply (lock_distinct_sub s); [|done]. intros b g Hb. simpl in Hb.
      apply lookup_insert_Some in Hb as [[<- <-]|[_ Hb]]; eauto.
Qed.

(** Taking one more reference on a handle and putting it in an empty
    slot. *)
Lemma consistent_install s (ft : filetable) i a f :
  consistent s ft → ft !! i = Some None → heap s !! a = Some f →
  consistent (set_heap (<[a := set_refs (refs f + 1) f]> (heap s)) s) (<[i := Some a]> ft).
Proof.
  intros (Hlen & Hslots & Hhs & Hdist) Hi Hh.
  assert (∀ b, alias_count b (<[i := Some a]> ft)
               = alias_count b ft + (if decide (a = b) then 1 else 0)) as Hcount.
  { intros b. pose proof (alias_count_insert ft i None (Some a) b Hi) as E.
    rewrite (decide_False (P := None = Some b)) in E by done.
    destruct (decide (a = b)) as [->|Hne].
    - rewrite decide_True in E by done. lia.
    - rewrite decide_False in E by congruence. lia. }
  split_and!.
  - by rewrite length_insert.
  - intros b Hb. simpl. apply lookup_insert_is_Some'.
    destruct (decide (a = b)) as [|Hne]; [by left|]. right. apply Hslots, alias_count_pos.
    apply alias_count_pos in Hb. rewrite Hcount, decide_False in Hb by done. lia.
  - intros b g Hb. simpl in Hb. apply lookup_insert_Some in Hb as [[<- <-]|[Hne Hb]].
    + destruct (Hhs a f Hh) as (H1 & H2 & H3). simpl. split_and!; [lia| |done].
      rewrite Hcount, decide_True by done. lia.
    + destruct (Hhs b g Hb) as (H1 & H2 & H3). split_and!; [done| |done].
      rewrite Hcount, decide_False by done. lia.
  - apply (lock_distinct_sub s); [|done]. intros b g Hb. simpl in Hb.
    apply lookup_insert_Some in Hb as [[<- <-]|[_ Hb]]; eauto.
Qed.

(** The state in which file_open places its new handle, once the
    handle is in an empty slot. *)
Lemma consistent_new s (ft : filetable) k fn flags md v :
  consistent s ft → ft !! k = Some None →
  consistent (handle_ready s fn flags md v) (<[k := Some (fresh (dom (heap s)))]> ft).
Proof.
  intros (Hlen & Hslots & Hhs & Hdist) Hk.
  set (a := fresh (dom (heap s))). set (l := fresh (locks s)).
  assert (heap s !! a = None) as Hfresh by apply fresh_addr_free.
  assert (l ∉ locks s) as Hlfresh by apply is_fresh.
  assert (alias_count a ft = 0) as Hzero.
  { destruct (alias_count a ft) eqn:E; [done|].
    destruct (Hslots a) as [f Hf]; [apply alias_count_pos; lia|congruence]. }
  assert (∀ b, alias_count b (<[k := Some a]> ft)
               = alias_count b ft + (if decide (a = b) then 1 else 0)) as Hcount.
  { intros b. pose proof (alias_count_insert ft k None (Some a) b Hk) as E.
    rewrite (decide_False (P := None = Some b)) in E by done.
    destruct (decide (a = b)) as [->|Hne].
    - rewrite decide_True in E by done. lia.
    - rewrite decide_False in E by congruence. lia. }
  unfold handle_ready. fold a l. split_and!.
  - by rewrite length_insert.
  - intros b Hb. simpl. apply lookup_insert_is_Some'.
    destruct (decide (a = b)) as [|Hne]; [by left|]. right. apply Hslots, alias_count_pos.
    apply alias_count_pos in Hb. rewrite Hcount, decide_False in Hb by done. lia.
  - intros b g Hb. simpl in Hb. apply lookup_insert_Some in Hb as [[<- <-]|[Hne Hb]].
    + simpl. split_and!; [lia| |].
      * rewrite Hcount, decide_True, Hzero by done. simpl. lia.
      * exists l. split; [done|]. apply elem_of_union_l. by apply elem_of_singleton.
    + destruct (Hhs b g Hb) as (H1 & H2 & lb & Hlb & Hlb'). split_and!; [done| |].
      * rewrite Hcount, decide_False by done. lia.
      * exists lb. split; [done|]. simpl. by apply elem_of_union_r.
  - intros b g Hb c g' Hc Heq. simpl in Hb, Hc.
    apply lookup_insert_Some in Hb as [[<- <-]|[Hne Hb]];
      apply lookup_insert_Some in Hc as [[<- <-]|[Hne' Hc]]; try done.
    + destruct (Hhs c g' Hc) as (_ & _ & lc & Hlc & Hlc'). simpl in Heq.
      destruct Hlfresh. congruence.
    + destruct (Hhs b g Hb) as (_ & _ & lb & Hlb & Hlb'). simpl in Heq.
      destruct Hlfresh. congruence.
    + by apply (Hdist b g Hb c g' Hc).
Qed.

(** Counts that only grow, as long as none overflows. *)
Lemma consistent_acquire s (ft ft' : filetable) :
  consistent s ft → counts_fit s ft' →
  consistent (set_heap (acquire_slots ft' (heap s)) s) ft.
Proof.
  intros (Hlen & Hslots & Hhs & Hdist) Hfit.
  assert (∀ a, acquire_slots ft' (heap s) !! a =
               (λ f, set_refs (refs f + Z.of_nat (alias_count a ft')) f) <$> heap s !! a)
    as Hlook.
  { intros a. apply acquire_slots_lookup. intros f Hh. apply (Hfit a f Hh). }
  split_and!; [done|..].
  - intros b Hb. simpl. rewrite Hlook.
    destruct (Hslots b Hb) as [g Hg]. by rewrite Hg.
  - intros b g Hb. simpl in Hb. rewrite Hlook in Hb.
    destruct (heap s !! b) as [g0|] eqn:Hg0; [|done]. injection Hb as <-.
    destruct (Hhs b g0 Hg0) as (H1 & H2 & H3). simpl. split_and!; [lia|lia|done].
  - apply (lock_distinct_sub s); [|done]. intros b g Hb. simpl in Hb.
    rewrite Hlook in Hb.
    destruct (heap s !! b) as [g0|] eqn:Hg0; [|done]. injection Hb as <-. eauto.
Qed.

(** *** file_close *)

Lemma file_close_table_wf s fd r s' :
  table_wf s → file_close W fd s = Done r s' → table_wf s'.
Proof.
  intros Hwf H.
  apply file_close_inv in H as [(_ & -> & _)|(_ & _ & ft & a & s1 & Hf & Hs & Hd & ->)];
    [done|].
  apply table_wf_iff in Hwf as (ft' & Hf' & Hc). assert (ft' = ft) as -> by congruence.
  apply table_wf_iff. eexists. split; [reflexivity|].
  apply (consistent_ext s1); [done..|]. by eapply consistent_release.
Qed.

Lemma file_close_returns s fd : table_wf s → ∃ r s', file_close W fd s = Done r s'.
Proof.
  intros (ft & Hf & Hc)%table_wf_iff.
  destruct (decide (in_range fd)) as [Hr|Hr]; cycle 1.
  { eexists _, _. apply file_close_with_bad. by apply filetable_findfile_range. }
  destruct (lookup_lt_is_Some_2 ft (Z.to_nat fd)) as [h Hs].
  { destruct Hc as (-> & _). unfold in_range in Hr. lia. }
  destruct h as [a|]; cycle 1.
  { eexists _, _. apply file_close_with_bad. by eapply filetable_findfile_empty. }
  destruct (consistent_handle s ft _ a Hc Hs) as (f & l & Hh & Hl & Hin & Hr1 & _).
  destruct (decide (refs f = 1%Z)) as [Hone|Hmany].
  - eexists _, _. by apply (file_close_last W s ft fd a f l).
  - eexists _, _. apply (file_close_shared W s ft fd a f l); done || lia.
Qed.

(** X7. On a consistent table file_close returns, with 0 or EBADF,
    for every descriptor, and the table it leaves is consistent: no slot
    points to a freed handle and every count still covers its slots. *)
Theorem file_close_is_safe (s : kstate) (fd : Z) :
  table_wf s →
  ∃ r s', file_close W fd s = Done r s' ∧ (r = 0%Z ∨ r = EBADF) ∧ table_wf s'.
Proof.
  intros Hwf. destruct (file_close_returns s fd Hwf) as (r & s' & H).
  exists r, s'. split_and!; [done| |by eapply file_close_table_wf].
  apply file_close_inv in H as [(-> & _)|(-> & _)]; auto.
Qed.

(** *** filetable_dup2file *)

Lemma dup2_install_table_wf s (ft : filetable) file newfd r s' :
  files s = Some ft → consistent s ft → ft !! Z.to_nat newfd = Some None →
  (∀ f, heap s !! file = Some f → (refs f < REFS_MAX)%Z) →
  dup2_install file newfd s = Done r s' → table_wf s'.
Proof.
  intros Hf Hc Hs Hroom H.
  apply dup2_install_inv in H as (f & l & ft' & Hh & _ & _ & Hf' & _ & _ & ->).
  assert (ft' = ft) as -> by congruence.
  assert (1 ≤ refs f)%Z as Hone by (destruct Hc as (_ & _ & Hhs & _); by apply (Hhs file f)).
  rewrite refs_incr_pos by (done || by apply Hroom).
  apply table_wf_iff. eexists. split; [reflexivity|].
  eapply consistent_ext; [| |by apply (consistent_install s ft (Z.to_nat newfd) file f)]; done.
Qed.

Lemma filetable_dup2file_table_wf s a b r s' :
  table_wf s → has_room s a → filetable_dup2file W a b s = Done r s' → table_wf s'.
Proof.
  intros Hwf Hroom H. pose proof Hwf as (ft & Hf & Hc)%table_wf_iff.
  apply filetable_dup2file_inv in H
    as [(_ & -> & _)|(_ & _ & ft' & file & Hf' & Hsa &
                      [(_ & _ & ->)|[(_ & Hs & Hi)|(_ & o & s1 & Hs & Hcl & Hi)]])]; try done.
  - assert (ft' = ft) as -> by congruence.
    eapply dup2_install_table_wf; [done|done|done| |done].
    intros f Hh. by apply (has_room_spec s ft a file f).
  - assert (ft' = ft) as -> by congruence.
    pose proof (file_close_table_wf s b 0 s1 Hwf Hcl) as (ft1 & Hf1 & Hc1)%table_wf_iff.
    assert (∀ f1, heap s1 !! file = Some f1 → (refs f1 < REFS_MAX)%Z) as Hroom1.
    { intros f1 Hh1. destruct (file_close_count W _ _ _ _ _ _ Hcl Hh1) as (f & Hh & Hle).
      pose proof (has_room_spec s ft a file f Hroom Hf Hsa Hh). lia. }
    apply file_close_inv in Hcl as [(E & _)|(_ & _ & ft2 & a2 & s0 & Hf2 & Hs2 & _ & ->)];
      [by destruct EBADF_nonzero|].
    assert (ft2 = ft) as -> by congruence. simpl in Hf1. injection Hf1 as <-.
    apply (dup2_install_table_wf (set_files (Some (<[Z.to_nat b := None]> ft)) s0)
             (<[Z.to_nat b := None]> ft) file b r s'); [reflexivity|done| |done|done].
    apply list_lookup_insert_eq. by eapply lookup_lt_Some.
Qed.

Lemma filetable_dup2file_returns s a b :
  table_wf s → ∃ r s', filetable_dup2file W a b s = Done r s'.
Proof.
  intros Hwf. pose proof Hwf as (ft & Hf & Hc)%table_wf_iff.
  destruct (decide (in_range a)) as [Ha|Ha]; cycle 1.
  { eexists _, _. apply filetable_dup2file_range. auto. }
  destruct (decide (in_range b)) as [Hb|Hb]; cycle 1.
  { eexists _, _. apply filetable_dup2file_range. auto. }
  assert (length ft = OPEN_MAX) as Hlen by apply Hc.
  destruct (lookup_lt_is_Some_2 ft (Z.to_nat a)) as [h Hs]; [unfold in_range in Ha; lia|].
  destruct h as [file|]; cycle 1.
  { eexists _, _. by apply (filetable_dup2file_empty W s ft). }
  destruct (decide (a = b)) as [<-|Hab].
  { eexists _, _. by apply (filetable_dup2file_self W s ft a file). }
  destruct (lookup_lt_is_Some_2 ft (Z.to_nat b)) as [h Ht]; [unfold in_range in Hb; lia|].
  destruct (consistent_handle s ft _ file Hc Hs) as (f & l & Hh & Hl & Hin & _).
  destruct h as [other|].
  - destruct (file_close_returns s b Hwf) as (r1 & s1 & Hcl).
    pose proof (file_close_table_wf s b r1 s1 Hwf Hcl) as (ft1 & Hf1 & Hc1)%table_wf_iff.
    pose proof Hcl as Hcl'.
    apply file_close_inv in Hcl' as [(_ & _ & [?|(ft2 & Hf2 & Hs2)])|
                                       (-> & _ & ft2 & a2 & s0 & Hf2 & Hs2 & _ & ->)];
      [done|congruence|].
    assert (ft2 = ft) as -> by congruence. simpl in Hf1. injection Hf1 as <-.
    rewrite (filetable_dup2file_occupied W s ft a b file other _ Ha Hb Hab Hf Hs Ht Hcl).
    destruct (consistent_handle _ (<[Z.to_nat b := None]> ft) (Z.to_nat a) file Hc1)
      as (f1 & l1 & Hh1 & Hl1 & Hin1 & _).
    { rewrite list_lookup_insert_ne; [done|]. unfold in_range in *. lia. }
    eexists _, _.
    apply (dup2_install_ok _ (<[Z.to_nat b := None]> ft) file b f1 l1); try done.
    rewrite length_insert. unfold in_range in Hb. lia.
  - rewrite (filetable_dup2file_free W s ft a b file) by done.
    eexists _, _. apply (dup2_install_ok s ft file b f l); try done.
    unfold in_range in Hb. lia.
Qed.

(** X8. On a consistent table filetable_dup2file returns, with 0 or
    EBADF, for every pair of descriptors, and the table it leaves is
    consistent, provided the count of the handle of the old descriptor
    is below the greatest value of its type: closing the new descriptor
    first never frees the handle that is about to be installed, and its
    count covers the slot it gains. *)
Theorem filetable_dup2file_is_safe (s : kstate) (a b : Z) :
  table_wf s → has_room s a →
  ∃ r s', filetable_dup2file W a b s = Done r s' ∧ (r = 0%Z ∨ r = EBADF) ∧ table_wf s'.
Proof.
  intros Hwf Hroom. destruct (filetable_dup2file_returns s a b Hwf) as (r & s' & H).
  exists r, s'. split_and!; [done| |by eapply filetable_dup2file_table_wf].
  destruct (decide (r = 0%Z)) as [|Hnz]; [by left|]. right.
  by apply (filetable_dup2file_error W s a b r s').
Qed.

(** *** file_open *)

Lemma file_open_table_wf s fn flags md r fd s' :
  table_wf s → file_open W fn flags md s = Done (r, fd) s' → table_wf s'.
Proof.
  intros (ft & Hf & Hc)%table_wf_iff H. apply file_open_inv in H. cbv zeta in H.
  apply table_wf_iff.
  destruct H as [(_ & _ & _ & ->)|[(_ & _ & _ & _ & st & ->)|[(_ & _ & _ & _ & st & ->)|
                 [(_ & _ & _ & _ & st & ->)|
                  (_ & _ & _ & ft' & k & Hf' & Hk & _ & _ & _ & ->)]]]];
    try (exists ft; split; [done|]; by apply (consistent_ext s)).
  assert (ft' = ft) as -> by congruence.
  eexists. split; [reflexivity|]. eapply consistent_ext; [| |by apply consistent_new]; done.
Qed.

(** X9. On a consistent table file_open with a valid access mode
    returns, whatever the VFS and the allocators answer, and the table
    it leaves is consistent, on success as on every failure. *)
Theorem file_open_is_safe (s : kstate) (fn : string) (flags md : Z) :
  table_wf s → valid_mode (Z.land flags O_ACCMODE) = true →
  ∃ r fd s', file_open W fn flags md s = Done (r, fd) s' ∧ table_wf s'.
Proof.
  intros Hwf Hm. pose proof Hwf as (ft & Hf & Hlen & _)%table_wf_iff.
  destruct (file_open_total W s ft fn flags md Hf Hlen Hm) as (r & fd & s' & _ & H & _).
  exists r, fd, s'. split; [done|]. by eapply file_open_table_wf.
Qed.

(** *** filetable_copy *)

(** X10. On a consistent table whose counts do not overflow during
    the copy, filetable_copy returns, with 0 and a copy equal to the
    table or with ENOMEM and no copy, and the state it leaves is
    consistent.  After a successful copy every count covers the slots
    of both tables: it is at least the number of slots of the table of
    the process that refer to the handle plus the number of slots of
    the copy that do. *)
Theorem filetable_copy_is_safe (s : kstate) (ft : filetable) :
  table_wf s → files s = Some ft → counts_fit s ft →
  ∃ r c s', filetable_copy W s = Done (r, c) s' ∧ table_wf s' ∧ files s' = Some ft
    ∧ (r = 0%Z
       ∧ (∃ ft' : filetable, c = Some ft' ∧ ft' = ft
            ∧ ∀ a f, heap s' !! a = Some f →
                (Z.of_nat (alias_count a ft) + Z.of_nat (alias_count a ft') ≤ refs f)%Z)
       ∨ r = ENOMEM ∧ c = None).
Proof.
  intros Hwf Hf Hfit. pose proof Hwf as (ft0 & Hf0 & Hc)%table_wf_iff.
  assert (ft0 = ft) as -> by congruence.
  destruct (kmalloc_ok W (trace s)) eqn:Hk.
  - eexists _, _, _. split; [apply (filetable_copy_run W s ft); try done|].
    + apply Hc.
    + intros j a Hj. destruct (consistent_handle s ft j a Hc Hj) as (f & l & ? & ? & ? & _).
      by exists f, l.
    + assert (consistent (mk_kstate (acquire_slots ft (heap s)) (locks s) (files s)
                            (trace s ++ [EvKmallocTable true])) ft) as Hc'.
      { eapply consistent_ext; [| |by apply (consistent_acquire s ft ft)]; done. }
      split; [apply table_wf_iff; by exists ft|]. split; [done|]. left. split; [done|].
      exists ft. split_and!; [done..|].
      intros a f Ha. simpl in Ha. rewrite acquire_slots_lookup in Ha
        by (intros g Hg; apply (Hfit a g Hg)).
      destruct (heap s !! a) as [g|] eqn:Hg; [|done]. injection Ha as <-. simpl.
      destruct Hc as (_ & _ & Hhs & _). destruct (Hhs a g Hg) as (_ & Hcover & _). lia.
  - eexists _, _, _. split.
    + unfold filetable_copy, bind, kmalloc_table. rewrite Hf, Hk. reflexivity.
    + split; [|split; [done|by right]]. apply table_wf_iff. exists ft. split; [done|].
      by apply (consistent_ext s).
Qed.

(** *** filetable_init and filetable_destroy *)

Lemma heap_ok_iff s :
  heap_ok s ↔
  (∀ b g, heap s !! b = Some g → (1 ≤ refs g)%Z ∧ ∃ l, lock g = Some l ∧ l ∈ locks s)
  ∧ lock_distinct s.
Proof.
  unfold heap_ok. split; intros [Hh Hd]; (split; [|done]); intros b g Hb;
    destruct (Hh b g Hb) as [H1 H2]; (split; [done|]); unfold lock_live_in in *.
  - destruct (lock g) as [l|]; [eauto|done].
  - destruct H2 as (l & -> & ?). done.
Qed.

Lemma consistent_empty_table s :
  heap_ok s → consistent (table_ready s) (replicate OPEN_MAX None).
Proof.
  intros [Hh Hd]%heap_ok_iff.
  assert (∀ b, ¬ Some b ∈ replicate OPEN_MAX (@None addr)) as Hnone.
  { intros b [? _]%elem_of_replicate. done. }
  split_and!; [by rewrite length_replicate| | |done].
  - intros b Hb. by destruct (Hnone b).
  - intros b g Hb. destruct (Hh b g Hb) as [H1 H2]. split_and!; [done| |done].
    destruct (alias_count b (replicate OPEN_MAX None)) eqn:E; [lia|].
    destruct (Hnone b). apply alias_count_pos. lia.
Qed.

(** X11. Started on a consistent heap and with the table allocated,
    filetable_init leaves a consistent table whatever it returns: on
    success, and also when one of the three opens failed and the table
    is left partly filled. *)
Theorem filetable_init_makes_consistent (s s' : kstate) (inpath outpath errpath : string)
    (r : Z) :
  heap_ok s → kmalloc_ok W (trace s) = true →
  filetable_init W inpath outpath errpath s = Done r s' → table_wf s'.
Proof.
  intros Hok Hk H.
  destruct (filetable_init_returns_inv W _ _ _ _ _ _ H) as (H1 & H2 & H3 & Hf).
  rewrite filetable_init_prefix in H by done.
  assert (table_wf (table_ready s)) as Hwf0.
  { apply table_wf_iff. eexists. split; [reflexivity|]. by apply consistent_empty_table. }
  apply bind_inv in H as ([r1 fd1] & s1 & Ho1 & H).
  apply file_open_table_wf in Ho1; [|done].
  destruct (nonzero r1); [by apply ret_inv in H as [_ ->]|].
  apply bind_inv in H as ([r2 fd2] & s2 & Ho2 & H).
  apply file_open_table_wf in Ho2; [|done].
  destruct (nonzero r2); [by apply ret_inv in H as [_ ->]|].
  apply bind_inv in H as ([r3 fd3] & s3 & Ho3 & H).
  apply file_open_table_wf in Ho3; [|done].
  destruct (nonzero r3); by apply ret_inv in H as [_ ->].
Qed.

(** X12. Destroying the table of a consistent process returns and
    leaves a consistent heap: the handles the table did not refer to
    are untouched, the handles all of whose references were in the
    table are freed, and every handle that is left has a count of 1 or
    more and its lock. *)
Theorem filetable_destroy_own_table (s : kstate) (ft : filetable) :
  table_wf s → files s = Some ft →
  ∃ s', filetable_destroy W (Some ft) s = Done tt s'
    ∧ heap_ok s'
    ∧ (∀ a f, heap s !! a = Some f → Some a ∈ ft → refs f = Z.of_nat (alias_count a ft) →
         heap s' !! a = None)
    ∧ (∀ a f, heap s !! a = Some f → ¬ Some a ∈ ft → heap s' !! a = Some f).
Proof.
  intros (ft' & Hf' & Hc)%table_wf_iff Hf. assert (ft' = ft) as -> by congruence.
  destruct Hc as (Hlen & Hslots & Hh & Hd).
  destruct (release_all_spec W (slot_handles ft) s Hd)
    as (s1 & Hrun & _ & Hheap & _ & _ & Hkept & _).
  { intros a Ha. apply elem_of_slot_handles in Ha. destruct (Hslots a Ha) as [f Hf0].
    destruct (Hh a f Hf0) as (_ & H2 & l & Hl & Hin). exists f, l.
    by rewrite occurrences_slot_handles. }
  exists (log EvKfreeTable s1). rewrite filetable_destroy_run by done.
  unfold bind. rewrite Hrun. split; [done|].
  assert (∀ b g, heap s1 !! b = Some g →
            ∃ g0, heap s !! b = Some g0 ∧ lock g = lock g0 ∧ (1 ≤ refs g)%Z) as Hback.
  { intros b g Hb. rewrite Hheap in Hb. destruct (heap s !! b) as [g0|] eqn:Hg0; [|done].
    simpl in Hb. exists g0. split; [done|]. split; [by eapply released_lock|].
    destruct (Hh b g0 Hg0) as (H1 & H2 & _). rewrite <- occurrences_slot_handles in H2.
    unfold released in Hb. destruct (decide _) as [|Hn]; [done|]. injection Hb as <-.
    simpl. destruct (decide (b ∈ slot_handles ft)) as [Hin|Hout].
    - assert (refs g0 ≠ Z.of_nat (occurrences b (slot_handles ft))) by (intros ?; by apply Hn).
      lia.
    - assert (occurrences b (slot_handles ft) = 0); [|lia].
      destruct (occurrences b (slot_handles ft)) eqn:E; [done|].
      destruct Hout. apply occurrences_pos. lia. }
  split_and!.
  - apply heap_ok_iff. split.
    + intros b g Hb. simpl in Hb. destruct (Hback b g Hb) as (g0 & Hg0 & Hlk & Hr).
      split; [done|]. destruct (Hh b g0 Hg0) as (_ & _ & l & Hl & Hin).
      exists l. split; [congruence|]. simpl. apply (Hkept b g l Hb); [congruence|done].
    + apply (lock_distinct_sub s); [|done]. intros b g Hb. simpl in Hb.
      destruct (Hback b g Hb) as (g0 & Hg0 & Hlk & _). eauto.
  - intros a f Ha Hin Hr. simpl. rewrite Hheap, Ha. simpl. unfold released.
    rewrite decide_True; [done|]. split; [by apply elem_of_slot_handles|].
    by rewrite occurrences_slot_handles.
  - intros a f Ha Hout. simpl. rewrite Hheap, Ha. simpl. apply released_absent.
    by rewrite elem_of_slot_handles.
Qed.

End Safety.

Section Lifecycle.
Context `{KC : kern_consts} (W : world).

(** ** From filetable_init to filetable_destroy *)

Lemma file_open_success_on_prefix_full s fn flags md fd s' (pre : filetable) n :
  files s = Some (pre ++ replicate n None) → Forall (λ h, h ≠ None) pre →
  file_open W fn flags md s = Done (0%Z, fd) s' →
  ∃ v,
    0 < n
    ∧ heap s' = <[fresh (dom (heap s)) :=
                    mk_openfile v (Some (fresh (locks s))) 0 (Z.land flags O_ACCMODE) 1]>
                  (heap s)
    ∧ locks s' = {[fresh (locks s)]} ∪ locks s
    ∧ files s' = Some ((pre ++ [Some (fresh (dom (heap s)))]) ++ replicate (n - 1) None).
Proof.
  intros Hf Hpre H.
  apply file_open_success_inv in H as (v & ft & k & _ & Hf' & Hk & Hmin & -> & ->).
  assert (ft = pre ++ replicate n None) as -> by congruence.
  destruct (place_after_prefix pre n k (fresh (dom (heap s))) Hpre Hk Hmin) as (-> & Hn & Ht).
  exists v. split_and!; try done. cbn. by rewrite Ht.
Qed.

Lemma slot_handles_app (t1 t2 : filetable) :
  slot_handles (t1 ++ t2) = slot_handles t1 ++ slot_handles t2.
Proof.
  unfold slot_handles. induction t1 as [|[a|] t1 IH]; [done|..].
  - change (omap id ((Some a :: t1) ++ t2)) with (a :: omap id (t1 ++ t2)).
    by rewrite IH.
  - change (omap id ((None :: t1) ++ t2)) with (omap id (t1 ++ t2)). by rewrite IH.
Qed.

Lemma slot_handles_replicate n : slot_handles (replicate n None) = [].
Proof. induction n as [|n IH]; [done|]. exact IH. Qed.

(** X13. Destroying the table right after a successful filetable_init
    frees the three standard handles and their locks: heap and locks
    are as they were before filetable_init. *)
Theorem filetable_init_then_destroy (s s1 : kstate) (inpath outpath errpath : string) :
  filetable_init W inpath outpath errpath s = Done 0%Z s1 →
  ∃ (ft : filetable) s2,
    files s1 = Some ft
    ∧ filetable_destroy W (Some ft) s1 = Done tt s2
    ∧ heap s2 = heap s ∧ locks s2 = locks s.
Proof.
  intros H.
  destruct (filetable_init_returns_inv W _ _ _ _ _ _ H) as (H1 & H2 & H3 & Hf).
  pose proof (filetable_init_success_memory W _ _ _ _ _ H) as Hk.
  rewrite filetable_init_prefix in H by done.
  apply bind_inv in H as ([r1 fd1] & t1 & Ho1 & H).
  destruct (nonzero r1) eqn:E1.
  { apply ret_inv in H as [<- _]. done. }
  apply nonzero_false_inv in E1 as ->.
  apply bind_inv in H as ([r2 fd2] & t2 & Ho2 & H).
  destruct (nonzero r2) eqn:E2.
  { apply ret_inv in H as [<- _]. done. }
  apply nonzero_false_inv in E2 as ->.
  apply bind_inv in H as ([r3 fd3] & t3 & Ho3 & H).
  destruct (nonzero r3) eqn:E3.
  { apply ret_inv in H as [<- _]. done. }
  apply nonzero_false_inv in E3 as ->. apply ret_inv in H as [_ ->].
  apply (file_open_success_on_prefix_full _ _ _ _ _ _ [] OPEN_MAX) in Ho1
    as (v0 & Hn0 & Hh1 & Hl1 & Hf1); [|done|done].
  cbn [heap locks table_ready] in Hh1, Hl1, Hf1.
  set (a0 := fresh (dom (heap s))) in *. set (l0 := fresh (locks s)) in *.
  apply (file_open_success_on_prefix_full _ _ _ _ _ _ ([] ++ [Some a0]) (OPEN_MAX - 1)) in Ho2
    as (v1 & Hn1 & Hh2 & Hl2 & Hf2); [|done|by repeat constructor].
  set (a1 := fresh (dom (heap t1))) in *. set (l1 := fresh (locks t1)) in *.
  apply (file_open_success_on_prefix_full _ _ _ _ _ _ (([] ++ [Some a0]) ++ [Some a1])
           (OPEN_MAX - 1 - 1)) in Ho3
    as (v2 & Hn2 & Hh3 & Hl3 & Hf3); [|done|by repeat constructor].
  set (a2 := fresh (dom (heap t2))) in *. set (l2 := fresh (locks t2)) in *.
  set (h0 := mk_openfile v0 (Some l0) 0 (Z.land O_RDONLY O_ACCMODE) 1) in *.
  set (h1 := mk_openfile v1 (Some l1) 0 (Z.land O_WRONLY O_ACCMODE) 1) in *.
  set (h2 := mk_openfile v2 (Some l2) 0 (Z.land O_WRONLY O_ACCMODE) 1) in *.
  (* freshness of the three addresses and of the three locks *)
  assert (heap s !! a0 = None) as Ha0 by apply fresh_addr_free.
  assert (heap t1 !! a1 = None) as Ha1 by apply fresh_addr_free.
  assert (heap t2 !! a2 = None) as Ha2 by apply fresh_addr_free.
  rewrite Hh1 in Ha1. apply lookup_insert_None in Ha1 as [Ha1 Hne01].
  rewrite Hh2, Hh1 in Ha2. apply lookup_insert_None in Ha2 as [Ha2 Hne12].
  apply lookup_insert_None in Ha2 as [Ha2 Hne02].
  assert (l0 ∉ locks s) as Hl0 by apply is_fresh.
  assert (l1 ∉ locks t1) as Hl1' by apply is_fresh.
  assert (l2 ∉ locks t2) as Hl2' by apply is_fresh.
  rewrite Hl1 in Hl1'. rewrite Hl2, Hl1 in Hl2'.
  rewrite not_elem_of_union, elem_of_singleton in Hl1'.
  rewrite !not_elem_of_union, !elem_of_singleton in Hl2'.
  destruct Hl1' as [Hn10 Hl1']. destruct Hl2' as [Hn21 [Hn20 Hl2']].
  (* the table and the handles it holds *)
  set (ft := ((([] ++ [Some a0]) ++ [Some a1]) ++ [Some a2])
               ++ replicate (OPEN_MAX - 1 - 1 - 1) None) in *.
  assert (length ft = OPEN_MAX) as Hlen.
  { unfold ft. rewrite !length_app, length_replicate. simpl. lia. }
  assert (slot_handles ft = [a0; a1; a2]) as Hhs.
  { unfold ft. rewrite slot_handles_app, slot_handles_replicate. by rewrite app_nil_r. }
  assert (heap t3 = <[a2 := h2]> (<[a1 := h1]> (<[a0 := h0]> (heap s)))) as Hheap
    by (by rewrite Hh3, Hh2, Hh1).
  assert (locks t3 = {[l2]} ∪ ({[l1]} ∪ ({[l0]} ∪ locks s))) as Hlocks
    by (by rewrite Hl3, Hl2, Hl1).
  exists ft. eexists. split; [done|].
  rewrite filetable_destroy_run, Hhs by done. cbn [release_all]. unfold bind.
  rewrite (file_doclose_last W t3 a0 h0 l0); [|rewrite Hheap| |rewrite Hlocks|]; cycle 1.
  { by rewrite !lookup_insert_ne, lookup_insert_eq by done. }
  { done. }
  { rewrite !elem_of_union, !elem_of_singleton. auto. }
  { done. }
  erewrite (file_doclose_last W _ a1 h1 l1); cycle 1.
  { cbn [heap]. rewrite Hheap.
    by rewrite lookup_delete_ne, lookup_insert_ne, lookup_insert_eq by done. }
  { done. }
  { cbn [locks]. rewrite Hlocks.
    rewrite elem_of_difference, !elem_of_union, !elem_of_singleton. split; [auto|].
    intros ->. done. }
  { done. }
  erewrite (file_doclose_last W _ a2 h2 l2); cycle 1.
  { cbn [heap]. rewrite Hheap.
    by rewrite !lookup_delete_ne, lookup_insert_eq by done. }
  { done. }
  { cbn [locks]. rewrite Hlocks.
    rewrite !elem_of_difference, !elem_of_union, !elem_of_singleton.
    split_and!; [auto|congruence|congruence]. }
  { done. }
  split; [reflexivity|]. cbn [heap locks log ret]. split.
  - rewrite Hheap. apply map_eq. intros a.
    rewrite !lookup_delete, !lookup_insert. repeat case_decide; congruence.
  - rewrite Hlocks. apply set_eq. intros x.
    rewrite !elem_of_difference, !elem_of_union, !elem_of_singleton. split.
    + intros [[[[?|[?|[?|?]]] ?] ?] ?]; congruence.
    + intros Hx. split_and!; [auto|congruence..].
Qed.

End Lifecycle.


(** * The further properties on concrete runs *)

(** Destroying the table after filetable_init frees the handle at 1;
    destroying a copy of the table of [st_dup] leaves it with the two
    references of that table. *)
Lemma filetable_destroy_releases_witness :
  filetable_destroy calm_world None st_init = Panic
  ∧ (∃ s', filetable_destroy calm_world (files st_init) st_init = Done tt s'
           ∧ heap s' !! 1%positive = None ∧ 1%positive ∉ locks s')
  ∧ (∃ s', filetable_destroy calm_world (files st_dup)
             (state_after (filetable_copy calm_world) st_dup) = Done tt s'
           ∧ heap s' !! 1%positive = Some (mk_openfile 2%positive (Some 1%positive) 0 0 2)
           ∧ 1%positive ∈ locks s').
Proof.
  split_and!.
  - apply (filetable_destroy_releases calm_world st_init []).
  - assert (counts_coverb st_init (slot_handles (default [] (files st_init))) = true)
      as Hcover by (vm_compute; reflexivity).
    destruct (proj2 (filetable_destroy_releases calm_world st_init
                       (default [] (files st_init))))
      as (s' & Hrun & _ & Hh & _ & _ & Hgone & _);
      [vm_compute; reflexivity|compute_done|..].
    { intros a Ha. apply elem_of_slot_handles in Ha.
      destruct (counts_coverb_spec _ _ Hcover a Ha) as (f & l & ? & ? & ? & ?).
      exists f, l. rewrite <- occurrences_slot_handles. split_and!; assumption. }
    exists s'.
    assert (heap s' !! 1%positive = None) as Hnone.
    { etrans; [apply (Hh 1%positive (mk_openfile 2%positive (Some 1%positive) 0 0 1));
               vm_compute; reflexivity|].
      vm_compute. reflexivity. }
    split_and!; [exact Hrun|exact Hnone|].
    apply (Hgone 1%positive (mk_openfile 2%positive (Some 1%positive) 0 0 1));
      [vm_compute; reflexivity|exact Hnone|reflexivity].
  - assert (counts_coverb (state_after (filetable_copy calm_world) st_dup)
              (slot_handles (default [] (files st_dup))) = true)
      as Hcover by (vm_compute; reflexivity).
    destruct (proj2 (filetable_destroy_releases calm_world
                       (state_after (filetable_copy calm_world) st_dup)
                       (default [] (files st_dup))))
      as (s' & Hrun & _ & Hh & _ & _ & _ & Hkept & _);
      [vm_compute; reflexivity|compute_done|..].
    { intros a Ha. apply elem_of_slot_handles in Ha.
      destruct (counts_coverb_spec _ _ Hcover a Ha) as (f & l & ? & ? & ? & ?).
      exists f, l. rewrite <- occurrences_slot_handles. split_and!; assumption. }
    exists s'.
    assert (heap s' !! 1%positive = Some (mk_openfile 2%positive (Some 1%positive) 0 0 2))
      as Hsome.
    { etrans; [apply (Hh 1%positive (mk_openfile 2%positive (Some 1%positive) 0 0 4));
               vm_compute; reflexivity|].
      vm_compute. reflexivity. }
    split_and!; [exact Hrun|exact Hsome|].
    apply (Hkept 1%positive _ 1%positive Hsome); [reflexivity|compute_done].
Defined.

Lemma filetable_copy_then_destroy_witness :
  ∃ s1 s2, filetable_copy calm_world st_dup = Done (0%Z, files st_dup) s1
    ∧ filetable_destroy calm_world (files st_dup) s1 = Done tt s2
    ∧ heap s2 = heap st_dup ∧ locks s2 = locks st_dup ∧ files s2 = files st_dup
    ∧ trace s2 = trace st_dup ++ [EvKmallocTable true; EvKfreeTable].
Proof.
  apply (filetable_copy_then_destroy calm_world st_dup (default [] (files st_dup)));
    [reflexivity|vm_compute; reflexivity|reflexivity|compute_done| |compute_done].
  apply table_okb_spec. vm_compute. reflexivity.
Defined.

(** The open after filetable_init returns descriptor 3; closing it at
    once gives the state of [st_init] back. *)
Lemma file_open_then_close_witness :
  file_open calm_world con 2 0 st_init =
    Done (0%Z, Some 3%Z) (state_after (file_open calm_world con 2 0) st_init)
  ∧ ∃ s2, file_close calm_world 3 (state_after (file_open calm_world con 2 0) st_init)
            = Done 0%Z s2
          ∧ heap s2 = heap st_init ∧ locks s2 = locks st_init ∧ files s2 = files st_init.
Proof.
  assert (file_open calm_world con 2 0 st_init =
            Done (0%Z, Some 3%Z) (state_after (file_open calm_world con 2 0) st_init)) as Hrun
    by (vm_compute; reflexivity).
  split; [exact Hrun|].
  destruct (file_open_then_close calm_world _ _ _ _ _ _ Hrun)
    as (k & a & f & s2 & Hk & _ & _ & _ & _ & _ & _ & Hclose & Hh & Hl & Hf).
  injection Hk as <-. exists s2. split_and!; [exact Hclose|exact Hh|exact Hl|exact Hf].
Defined.

(** Descriptor 1 closed after filetable_init: it is free, closing it
    again fails, and the next handle placed gets a descriptor up to 1. *)
Lemma file_close_frees_descriptor_witness :
  file_close calm_world 1 st_init = Done 0%Z st_hole
  ∧ filetable_findfile 1 st_hole = Done (EBADF, None) st_hole
  ∧ file_close calm_world 1 st_hole = Done EBADF st_hole
  ∧ ∃ k s2, filetable_placefile 9%positive st_hole = Done (0%Z, Some (Z.of_nat k)) s2
            ∧ (Z.of_nat k ≤ 1)%Z.
Proof.
  assert (file_close calm_world 1 st_init = Done 0%Z st_hole) as Hrun
    by (vm_compute; reflexivity).
  split; [exact Hrun|].
  destruct (file_close_frees_descriptor calm_world st_init st_hole 1 Hrun)
    as (Hfind & Hagain & Hplace).
  split; [exact Hfind|]. split; [exact Hagain|]. exact (Hplace 9%positive).
Defined.

(** dup2(0, 0) after filetable_init finds descriptor 0 open; dup2(7, 7)
    finds descriptor 7 closed. *)
Lemma filetable_dup2file_self_is_lookup_witness :
  (filetable_dup2file calm_world 0 0 st_init = Done 0%Z st_init
   ∧ ∃ a, filetable_findfile 0 st_init = Done (0%Z, Some a) st_init)
  ∧ (filetable_dup2file calm_world 7 7 st_init = Done EBADF st_init
     ∧ filetable_findfile 7 st_init = Done (EBADF, None) st_init).
Proof.
  split.
  - assert (filetable_dup2file calm_world 0 0 st_init = Done 0%Z st_init) as Hrun
      by (vm_compute; reflexivity).
    split; [exact Hrun|].
    destruct (filetable_dup2file_self_is_lookup calm_world st_init 0) as (_ & H).
    destruct (H _ _ Hrun) as (_ & [(_ & Ha)|(E & _)]); [exact Ha|discriminate E].
  - assert (filetable_dup2file calm_world 7 7 st_init = Done EBADF st_init) as Hrun
      by (vm_compute; reflexivity).
    split; [exact Hrun|].
    destruct (filetable_dup2file_self_is_lookup calm_world st_init 7) as (_ & H).
    destruct (H _ _ Hrun) as (_ & [(E & _)|(_ & Hn)]); [discriminate E|exact Hn].
Defined.

Lemma operations_keep_refcount_invariant_witness :
  refcount_inv st_dup
  ∧ refcount_inv (state_after (file_open calm_world con 2 0) st_dup)
  ∧ refcount_inv (state_after (file_close calm_world 5) st_dup)
  ∧ refcount_inv (state_after (filetable_dup2file calm_world 5 1) st_dup)
  ∧ refcount_inv (state_after (filetable_copy calm_world) st_dup)
  ∧ refcount_inv (state_after (filetable_init calm_world con con con) boot_state)
  ∧ refcount_inv (state_after (filetable_destroy calm_world (files st_dup)) st_dup).
Proof.
  assert (refcount_inv st_dup) as Hinv by compute_done.
  assert (refcount_inv boot_state) as Hboot by compute_done.
  destruct (operations_keep_refcount_invariant calm_world st_dup Hinv)
    as (Hopen & Hclose & Hdup & Hcopy & _ & Hdestroy).
  destruct (operations_keep_refcount_invariant calm_world boot_state Hboot)
    as (_ & _ & _ & _ & Hinit & _).
  split_and!.
  - exact Hinv.
  - apply (Hopen con 2%Z 0%Z 0%Z (Some 3%Z)). vm_compute. reflexivity.
  - apply (Hclose 5%Z 0%Z). vm_compute. reflexivity.
  - apply (Hdup 5%Z 1%Z 0%Z); [compute_done|]. vm_compute. reflexivity.
  - apply (Hcopy 0%Z (files st_dup)); [|vm_compute; reflexivity].
    intros ft Hf. assert (ft = default [] (files st_dup)) as -> by (by rewrite Hf).
    compute_done.
  - apply (Hinit con con con 0%Z). vm_compute. reflexivity.
  - apply (Hdestroy (files st_dup) tt). vm_compute. reflexivity.
Defined.

Lemma file_close_is_safe_witness :
  table_wf st_dup
  ∧ (∃ r s', file_close calm_world 5 st_dup = Done r s' ∧ (r = 0%Z ∨ r = EBADF) ∧ table_wf s')
  ∧ (∃ r s', file_close calm_world 9 st_dup = Done r s' ∧ (r = 0%Z ∨ r = EBADF) ∧ table_wf s').
Proof.
  assert (table_wf st_dup) as Hwf by compute_done.
  split; [exact Hwf|]. split.
  - exact (file_close_is_safe calm_world st_dup 5 Hwf).
  - exact (file_close_is_safe calm_world st_dup 9 Hwf).
Defined.

Lemma filetable_dup2file_is_safe_witness :
  table_wf st_alias ∧ has_room st_alias 2
  ∧ ∃ r s', filetable_dup2file calm_world 2 0 st_alias = Done r s'
            ∧ (r = 0%Z ∨ r = EBADF) ∧ table_wf s'.
Proof.
  assert (table_wf st_alias) as Hwf by compute_done.
  assert (has_room st_alias 2) as Hroom by compute_done.
  split; [exact Hwf|]. split; [exact Hroom|].
  exact (filetable_dup2file_is_safe calm_world st_alias 2 0 Hwf Hroom).
Defined.

(** An open on the table of [st_init], and an open on the full table
    of four slots, which fails with EMFILE. *)
Lemma file_open_is_safe_witness :
  (∃ r fd s', file_open calm_world con 2 0 st_init = Done (r, fd) s' ∧ table_wf s')
  ∧ (∃ r fd s', @file_open tiny_consts calm_world con 2 0 st_full = Done (r, fd) s'
                ∧ @table_wf tiny_consts s').
Proof.
  split.
  - apply (file_open_is_safe calm_world st_init con 2 0); [compute_done|reflexivity].
  - apply (@file_open_is_safe tiny_consts calm_world st_full con 2 0);
      [compute_done|reflexivity].
Defined.

Lemma filetable_copy_is_safe_witness :
  table_wf st_dup ∧ counts_fit st_dup (default [] (files st_dup))
  ∧ ∃ r c s', filetable_copy calm_world st_dup = Done (r, c) s' ∧ table_wf s'
      ∧ files s' = files st_dup
      ∧ (r = 0%Z
         ∧ (∃ ft' : filetable, c = Some ft' ∧ ft' = default [] (files st_dup)
              ∧ ∀ a f, heap s' !! a = Some f →
                  (Z.of_nat (alias_count a (default [] (files st_dup)))
                   + Z.of_nat (alias_count a ft') ≤ refs f)%Z)
         ∨ r = ENOMEM ∧ c = None).
Proof.
  assert (table_wf st_dup) as Hwf by compute_done.
  assert (counts_fit st_dup (default [] (files st_dup))) as Hfit by compute_done.
  split; [exact Hwf|]. split; [exact Hfit|].
  exact (filetable_copy_is_safe calm_world st_dup (default [] (files st_dup))
           Hwf eq_refl Hfit).
Defined.

(** A successful filetable_init, and one whose second open fails. *)
Lemma filetable_init_makes_consistent_witness :
  table_wf st_init
  ∧ filetable_init (picky_world bad) con bad con boot_state =
      Done 19%Z (state_after (filetable_init (picky_world bad) con bad con) boot_state)
  ∧ table_wf (state_after (filetable_init (picky_world bad) con bad con) boot_state).
Proof.
  assert (heap_ok boot_state) as Hok by compute_done.
  assert (filetable_init (picky_world bad) con bad con boot_state =
            Done 19%Z (state_after (filetable_init (picky_world bad) con bad con) boot_state))
    as Hrun by (vm_compute; reflexivity).
  split_and!.
  - apply (filetable_init_makes_consistent calm_world boot_state st_init con con con 0%Z);
      [exact Hok|reflexivity|vm_compute; reflexivity].
  - exact Hrun.
  - exact (filetable_init_makes_consistent (picky_world bad) boot_state _ con bad con 19%Z
             Hok eq_refl Hrun).
Defined.

Lemma filetable_destroy_own_table_witness :
  ∃ s', filetable_destroy calm_world (files st_dup) st_dup = Done tt s'
        ∧ heap_ok s' ∧ heap s' !! 1%positive = None.
Proof.
  destruct (filetable_destroy_own_table calm_world st_dup (default [] (files st_dup)))
    as (s' & Hrun & Hok & Hfreed & _); [compute_done|reflexivity|].
  exists s'. split_and!; [exact Hrun|exact Hok|].
  apply (Hfreed 1%positive (mk_openfile 2%positive (Some 1%positive) 0 0 2));
    [vm_compute; reflexivity|compute_done|vm_compute; reflexivity].
Defined.

Lemma filetable_init_then_destroy_witness :
  ∃ (ft : filetable) s2,
    files st_init = Some ft
    ∧ filetable_destroy calm_world (Some ft) st_init = Done tt s2
    ∧ heap s2 = ∅ ∧ locks s2 = ∅.
Proof.
  apply (filetable_init_then_destroy calm_world boot_state st_init con con con).
  vm_compute. reflexivity.
Defined.
